(** * starlink_visible.py: a shallow embedding and its specification

    The script lists the Starlink passes visible from a site during a time
    window.  Its engine is four loops: [load_tles] (three-line catalog
    scan), [frange] (instant generator), the sampling loop and the pass
    segmentation of [visible_list], followed by one sort.

    Conventions of the embedding.
    - A [datetime] is its number of microseconds since the epoch, a [Z]
      between [datetime_min] and [datetime_max] (the years 1 to 9999); a
      [timedelta] is a [Z] number of microseconds of at most 999999999
      days.  Arithmetic that leaves these ranges raises [OverflowError],
      as in Python.
    - A Python [float] is a [float64]: NaN, an infinity or a finite dyadic
      number [m * 2^e].  Only comparisons and [% 360.0] are applied to
      floats by the script, and both are modelled exactly.
    - A [str] is its list of code points.
    - A raised exception is the [Raise] outcome of [result].
    - skyfield is outside the repository: the satellite constructor and
      the topocentric [altaz] computation are parameters of the model.
      So are argparse's [parse_args], the clock and the dish. *)

From Stdlib Require Import String Ascii.
From Stdlib Require Import ZArith NArith List Bool Lia Permutation Sorted.
From Equations Require Import Equations.
Import ListNotations.
Local Open Scope Z_scope.

(* ================================================================== *)
(** * Part I: the model                                                *)
(* ================================================================== *)

(** ** Python floats *)

Module F64.

Inductive float64 : Type :=
| NaN
| Inf (neg : bool)
| Fin (m e : Z).

(** [scaled e0 m e] is the integer [m * 2^e / 2^e0], for [e0 <= e]. *)
Definition scaled (e0 m e : Z) : Z := m * 2 ^ (e - e0).

(** Order of two finite values, at their smaller exponent. *)
Definition fin_cmp (m1 e1 m2 e2 : Z) : comparison :=
  let e0 := Z.min e1 e2 in
  scaled e0 m1 e1 ?= scaled e0 m2 e2.

(** IEEE comparison: [None] when an operand is NaN. *)
Definition compare (x y : float64) : option comparison :=
  match x, y with
  | NaN, _ | _, NaN => None
  | Inf true, Inf true | Inf false, Inf false => Some Eq
  | Inf true, _ => Some Lt
  | Inf false, _ => Some Gt
  | _, Inf true => Some Gt
  | _, Inf false => Some Lt
  | Fin m1 e1, Fin m2 e2 => Some (fin_cmp m1 e1 m2 e2)
  end.

(** [x < y], [x > y], [x <= y], [x >= y], [x == y] of Python. *)
Definition lt (x y : float64) : bool :=
  match compare x y with Some Lt => true | _ => false end.
Definition gt (x y : float64) : bool := lt y x.
Definition le (x y : float64) : bool :=
  match compare x y with Some Lt | Some Eq => true | _ => false end.
Definition ge (x y : float64) : bool := le y x.
Definition eq (x y : float64) : bool :=
  match compare x y with Some Eq => true | _ => false end.

Definition is_nan (x : float64) : bool :=
  match x with NaN => true | _ => false end.

(** Round the integer [M], in units of [2^e], to a 53-bit significand,
    ties to even.  The exponent range is not bounded: the one addition of
    the script has a result no larger than its larger operand, and a sum
    of two doubles below the normal range is exact. *)
Definition round53 (M e : Z) : float64 :=
  let k := Z.log2 (Z.abs M) + 1 - 53 in
  if k <=? 0 then Fin M e
  else
    let q := Z.abs M / 2 ^ k in
    let r := Z.abs M mod 2 ^ k in
    let half := 2 ^ (k - 1) in
    let q' := if r <? half then q
              else if half <? r then q + 1
              else if Z.even q then q else q + 1 in
    Fin (Z.sgn M * q') (e + k).

(** [x % w] for the finite non-zero modulus [w = mw * 2^ew], as CPython's
    [float_rem] and numpy's [remainder] compute it:
    [mod = fmod(x, w); if mod: if (w < 0) != (mod < 0): mod += w
     else: mod = copysign(0, w)].
    [fmod] is exact; only [mod += w] rounds.  A NaN or infinite [x] gives
    NaN. *)
Definition float_mod (x : float64) (mw ew : Z) : float64 :=
  match x with
  | Fin mx ex =>
      let e0 := Z.min ex ew in
      let X := scaled e0 mx ex in
      let W := scaled e0 mw ew in
      let r := Z.rem X W in
      if r =? 0 then Fin 0 0
      else if xorb (W <? 0) (r <? 0) then round53 (r + W) e0
      else Fin r e0
  | _ => NaN
  end.

(** The literals [360.0] and [0.0]. *)
Definition f360 : float64 := Fin 45 3.
Definition zero : float64 := Fin 0 0.

(** [az_deg.degrees % 360.0] *)
Definition mod_360 (az : float64) : float64 := float_mod az 45 3.

(** Float literal of an integer, e.g. the default [--min-el 10.0]. *)
Definition of_Z (n : Z) : float64 := Fin n 0.

End F64.

Import F64.

(** ** Exceptions and strings *)

Inductive exn : Type :=
| ValueError          (* max() of an empty sequence *)
| OverflowError       (* a datetime or timedelta out of range *)
| TypeError           (* formatting None with a time format *)
| LibraryError (code : nat).  (* anything raised inside skyfield *)

Inductive result (A : Type) : Type :=
| Ok (a : A)
| Raise (e : exn).
Arguments Ok {A} a.
Arguments Raise {A} e.

Definition bind {A B} (r : result A) (k : A -> result B) : result B :=
  match r with Ok a => k a | Raise e => Raise e end.

Notation "x <- r ;; k" := (bind r (fun x => k))
  (at level 61, r at next level, right associativity).
Notation "' p <- r ;; k" := (bind r (fun x => let p := x in k))
  (at level 61, p pattern, r at next level, right associativity).

(** Left-to-right traversal that stops at the first exception. *)
Fixpoint mapM {A B} (f : A -> result B) (l : list A) : result (list B) :=
  match l with
  | [] => Ok []
  | a :: l' => b <- f a ;; bs <- mapM f l' ;; Ok (b :: bs)
  end.

(** A [str] is a list of code points. *)
Definition str : Type := list N.

Definition str_of (s : string) : str :=
  List.map N_of_ascii (list_ascii_of_string s).

(** [str.isspace] of one code point (the Unicode White_Space characters
    and the four separators U+001C..U+001F). *)
Definition isspace (c : N) : bool :=
  (((9 <=? c) && (c <=? 13)) || ((28 <=? c) && (c <=? 32))
   || (c =? 133) || (c =? 160) || (c =? 5760)
   || ((8192 <=? c) && (c <=? 8202))
   || (c =? 8232) || (c =? 8233) || (c =? 8239) || (c =? 8287)
   || (c =? 12288))%N.

Fixpoint lstrip (s : str) : str :=
  match s with
  | c :: s' => if isspace c then lstrip s' else s
  | [] => []
  end.

Definition rstrip (s : str) : str := rev (lstrip (rev s)).

(** [s.strip()] *)
Definition strip (s : str) : str := rstrip (lstrip s).

(** [s.startswith(p)] *)
Fixpoint startswith (s p : str) : bool :=
  match p, s with
  | [], _ => true
  | _ :: _, [] => false
  | a :: p', b :: s' => (N.eqb a b) && startswith s' p'
  end.

(** Truth value of a [str]: non-empty. *)
Definition truthy {A} (l : list A) : bool :=
  match l with [] => false | _ :: _ => true end.

(** ** The catalog parser, [load_tles] *)

Section Parser.

(** The satellite type of skyfield and its constructor
    [EarthSatellite(l1, l2, name, TS)], which may raise. *)
Variable Sat : Type.
Variable EarthSatellite : str -> str -> str -> result Sat.

(** [[ln.strip() for ln in f if ln.strip()]] over the lines [f] yields. *)
Definition stripped_lines (f : list str) : list str :=
  List.map strip (List.filter (fun ln => truthy (strip ln)) f).

(** Does the triple at [i] carry the two markers? *)
Definition markers (l1 l2 : str) : bool :=
  startswith l1 (str_of "1 ") && startswith l2 (str_of "2 ").

(** [EarthSatellite(l1, l2, name, TS)] on a triple [(name, l1, l2)]. *)
Definition record_of (t : str * str * str) : result Sat :=
  let '(name, l1, l2) := t in EarthSatellite l1 l2 name.

(** The [while i + 2 < len(lines)] loop; [lines[i]] is [nth i lines []],
    always in range under the loop condition. *)
Equations? load_loop (lines : list str) (i : nat) (sats : list Sat)
  : result (list Sat) by wf (List.length lines - i)%nat Nat.lt :=
  load_loop lines i sats with lt_dec (i + 2) (List.length lines) => {
    | right _ := Ok sats
    | left _ with markers (nth (i + 1) lines []) (nth (i + 2) lines []) => {
        | true with EarthSatellite (nth (i + 1) lines [])
                                   (nth (i + 2) lines []) (nth i lines []) => {
            | Ok s := load_loop lines (i + 3) (sats ++ [s])
            | Raise e := Raise e }
        | false := load_loop lines (i + 1) sats } }.
Proof. all: lia. Qed.

Definition load_tles (f : list str) : result (list Sat) :=
  load_loop (stripped_lines f) 0 [].

End Parser.

(** ** [list.sort] and [max] *)

(** [list.sort] is stable and compares with [<] only; on keys that [<]
    orders (no NaN among them) every stable sort returns the same list,
    and the insertion sort below stands for it.  [insert_stable] puts
    [x], which preceded every element of [l] in the input, in front of
    the first element that is not smaller than it. *)
Fixpoint insert_stable {A} (ltb : A -> A -> bool) (x : A) (l : list A)
  : list A :=
  match l with
  | [] => [x]
  | y :: l' => if ltb y x then y :: insert_stable ltb x l' else x :: l
  end.

Definition py_sort {A} (ltb : A -> A -> bool) (l : list A) : list A :=
  fold_right (insert_stable ltb) [] l.

(** [sort(reverse=True)]: CPython reverses the list, sorts it, and
    reverses the result. *)
Definition py_sort_reverse {A} (ltb : A -> A -> bool) (l : list A)
  : list A :=
  rev (py_sort ltb (rev l)).

(** [max(iterable)]: keeps the first of the largest items, raises
    [ValueError] on an empty iterable. *)
Definition py_max (l : list float64) : result float64 :=
  match l with
  | [] => Raise ValueError
  | x :: xs => Ok (fold_left (fun m y => if F64.gt y m then y else m) xs x)
  end.

(** ** [datetime] and [timedelta] *)

(** One [timedelta(seconds=1)] in microseconds. *)
Definition second : Z := 1000000.

(** [datetime.min] and [datetime.max] in UTC: 0001-01-01T00:00:00 and
    9999-12-31T23:59:59.999999, in microseconds since the epoch. *)
Definition datetime_min : Z := -62135596800 * second.
Definition datetime_max : Z := 253402300800 * second - 1.

Definition is_datetime (t : Z) : Prop := datetime_min <= t <= datetime_max.

(** The largest number of days of a [timedelta], of either sign. *)
Definition max_days : Z := 999999999.

(** [timedelta(seconds=n)] for an [int] [n]: the days are [n // 86400],
    and the constructor raises [OverflowError] when their magnitude
    exceeds [max_days]. *)
Definition timedelta_seconds (n : Z) : result Z :=
  if (- max_days <=? n / 86400) && (n / 86400 <=? max_days)
  then Ok (n * second) else Raise OverflowError.

(** [t + d] for a [datetime] [t] and a [timedelta] [d]: [OverflowError]
    when the sum is not a [datetime]. *)
Definition datetime_add (t d : Z) : result Z :=
  if (datetime_min <=? t + d) && (t + d <=? datetime_max)
  then Ok (t + d) else Raise OverflowError.

(** ** The instant generator, [frange] *)

(** [t += timedelta(seconds=step_s)] *)
Definition advance (step_s t : Z) : result Z :=
  d <- timedelta_seconds step_s ;; datetime_add t d.

(** How a generator stops: [StopIteration], or an exception. *)
Inductive ending : Type :=
| Exhausted
| Raised (e : exn).

(** The generator [frange(t0, t1, step_s)] at the test [t <= t1] of its
    loop, its local [t] having the given value: [None] when the test
    fails and the generator is exhausted; otherwise the instant it yields,
    with what the statement after the [yield] makes of [t] when the
    generator is resumed: the next value of [t], or an exception. *)
Definition frange_next (t1 step_s t : Z) : option (Z * result Z) :=
  if t <=? t1 then Some (t, advance step_s t) else None.

(** The instants that [frange(t0, t1, step_s)] yields and the way it
    stops, with at most [fuel] tests of [t <= t1]; [None] when the
    generator is still running by then. *)
Fixpoint frange (fuel : nat) (t0 t1 step_s : Z)
  : option (list Z * ending) :=
  match fuel with
  | O => None
  | S fuel' =>
      match frange_next t1 step_s t0 with
      | None => Some ([], Exhausted)
      | Some (dt, Raise e) => Some ([dt], Raised e)
      | Some (dt, Ok t') =>
          match frange fuel' t' t1 step_s with
          | Some (g, e) => Some (dt :: g, e)
          | None => None
          end
      end
  end.

(** ** The engine, [visible_list] *)

(** A retained sample [(dt, alt_deg.degrees, az_deg.degrees % 360.0)]. *)
Definition sample : Type := (Z * float64 * float64)%type.
Definition s_time (s : sample) : Z := fst (fst s).
Definition s_el (s : sample) : float64 := snd (fst s).
Definition s_az (s : sample) : float64 := snd s.

(** The tolerance [180] of the segmentation, in microseconds.
    [(s[0] - prev[0]).total_seconds() > 180] holds exactly when the
    difference exceeds this many microseconds: [total_seconds] is the
    correctly rounded quotient by [10**6] and 180 is a double. *)
Definition gap_tolerance : Z := 180 * second.

(** Start and end instants of a pass, [chunk[0][0]] and [chunk[-1][0]]. *)
Definition pass_start (p : list sample) : Z := s_time (hd (0, NaN, NaN) p).
Definition pass_end (p : list sample) : Z := s_time (last p (0, NaN, NaN)).

Section Engine.

Variable Sat : Type.
Variable EarthSatellite : str -> str -> str -> result Sat.

(** [(sat - site).at(TS.from_datetime(dt)).altaz()] for the site
    [wgs84.latlon(lat, lon, elevation_m=alt)]: the pair
    [(alt_deg.degrees, az_deg.degrees)], or an exception. *)
Variable altaz :
  float64 -> float64 -> float64 -> Sat -> Z -> result (float64 * float64).

(** A satellite object: its identity (the position of its record in the
    catalog) and its value.  [EarthSatellite] objects hash and compare by
    identity. *)
Definition satobj : Type := (nat * Sat)%type.
Definition same_sat (a b : satobj) : bool := Nat.eqb (fst a) (fst b).

Definition objects (sats : list Sat) : list satobj :=
  combine (seq 0 (List.length sats)) sats.

(** The insertion-ordered dict [visible]. *)
Definition dict : Type := list (satobj * list sample).

(** [visible.setdefault(sat, []).append(s)] *)
Fixpoint setdefault_append (sat : satobj) (s : sample) (visible : dict)
  : dict :=
  match visible with
  | [] => [(sat, [s])]
  | (k, v) :: rest =>
      if same_sat sat k then (k, v ++ [s]) :: rest
      else (k, v) :: setdefault_append sat s rest
  end.

Section Run.

Variables (lat lon alt : float64) (t1 : Z) (min_el : float64) (step_s : Z).

(** [for sat in sats: ...] at the instant [dt]. *)
Fixpoint sample_instant (sats : list satobj) (dt : Z) (visible : dict)
  : result dict :=
  match sats with
  | [] => Ok visible
  | sat :: rest =>
      '(el, az) <- altaz lat lon alt (snd sat) dt ;;
      sample_instant rest dt
        (if F64.ge el min_el
         then setdefault_append sat (dt, el, mod_360 az) visible
         else visible)
  end.

(** [for dt in frange(start, end, step_s): ...], the generator resumed at
    most [fuel] times; [t] is the generator's local.  The body runs on
    the yielded instant before the generator is resumed, so an exception
    of the generator comes after the samples of that instant. *)
Fixpoint sample_loop (fuel : nat) (sats : list satobj) (t : Z)
  (visible : dict) : option (result dict) :=
  match fuel with
  | O => None
  | S fuel' =>
      match frange_next t1 step_s t with
      | None => Some (Ok visible)
      | Some (dt, next) =>
          match sample_instant sats dt visible with
          | Raise e => Some (Raise e)
          | Ok visible' =>
              match next with
              | Raise e => Some (Raise e)
              | Ok t' => sample_loop fuel' sats t' visible'
              end
          end
      end
  end.

End Run.

(** One entry of [rows]: a satellite and one chunk of its samples. *)
Definition row : Type := (satobj * list sample)%type.

(** [samples.sort(key=lambda x: x[0])] *)
Definition sort_by_time (samples : list sample) : list sample :=
  py_sort (fun a b => s_time a <? s_time b) samples.

(** The state [(rows, chunk, prev)] of the segmentation loop. *)
Definition seg_state : Type := (list row * list sample * option sample)%type.

(** One iteration of [for s in samples].  [prev] is [None] or a 3-tuple,
    which is truthy. *)
Definition seg_step (sat : satobj) (st : seg_state) (s : sample)
  : seg_state :=
  let '(rows, chunk, prev) := st in
  let new_pass :=
    match prev with
    | Some p => s_time s - s_time p >? gap_tolerance
    | None => false
    end in
  let rows' :=
    if new_pass && truthy chunk then rows ++ [(sat, chunk)] else rows in
  let chunk' := if new_pass then [] else chunk in
  (rows', chunk' ++ [s], Some s).

(** After the loop: [if chunk: rows.append((sat, chunk))]. *)
Definition flush (sat : satobj) (st : seg_state) : list row :=
  let '(rows, chunk, _) := st in
  if truthy chunk then rows ++ [(sat, chunk)] else rows.

(** The body of [for sat, samples in visible.items()]. *)
Definition segment_sat (rows : list row) (item : satobj * list sample)
  : list row :=
  let '(sat, samples) := item in
  flush sat
    (fold_left (seg_step sat) (sort_by_time samples) (rows, [], None)).

Definition segment_all (visible : dict) : list row :=
  fold_left segment_sat visible [].

(** The sort key [max(el for _, el, _ in r[1])]. *)
Definition peak (r : row) : result float64 := py_max (List.map s_el (snd r)).

(** [rows.sort(key=..., reverse=True)]: the keys are computed first, one
    per row, then the rows are sorted on them. *)
Definition rank (rows : list row) : result (list row) :=
  keys <- mapM peak rows ;;
  Ok (List.map snd
        (py_sort_reverse (fun a b => F64.lt (fst a) (fst b))
                         (combine keys rows))).

(** [visible_list(tle_file, lat, lon, alt, start, end, min_el, step_s)].
    [tle_file] stands for the lines that iterating the opened file yields.
    The result is [None] when [fuel] resumptions do not exhaust the
    generator. *)
Definition visible_list (fuel : nat) (tle_file : list str)
  (lat lon alt : float64) (start end_ : Z) (min_el : float64) (step_s : Z)
  : option (result (list row)) :=
  match load_tles Sat EarthSatellite tle_file with
  | Raise e => Some (Raise e)
  | Ok sats =>
      if truthy sats then
        match sample_loop lat lon alt end_ min_el step_s fuel
                          (objects sats) start [] with
        | None => None
        | Some (Raise e) => Some (Raise e)
        | Some (Ok visible) => Some (rank (segment_all visible))
        end
      else Some (Ok [])
  end.

(** ** The report loop of [main] *)

(** The locals [(max_el, t_peak, az_at_peak)], initially
    [(-1.0, None, None)]. *)
Definition peak_state : Type := (float64 * option Z * option float64)%type.
Definition minus_one : float64 := Fin (-1) 0.

(** One iteration of [for dt, el, az in chunk]. *)
Definition peak_step (st : peak_state) (s : sample) : peak_state :=
  if F64.gt (s_el s) (fst (fst st))
  then (s_el s, Some (s_time s), Some (s_az s))
  else st.

Definition find_peak (chunk : list sample) : peak_state :=
  fold_left peak_step chunk (minus_one, None, None).

(** The values one printed line formats: [t0], [t1], [max_el], [t_peak]
    and [az_at_peak].  The result is [None] when [t_peak] is [None]:
    formatting [None] with [%H:%M:%S] raises [TypeError]. *)
Definition report_line (r : row)
  : option (Z * Z * float64 * Z * float64) :=
  match find_peak (snd r) with
  | (max_el, Some t_peak, Some az_at_peak) =>
      Some (pass_start (snd r), pass_end (snd r), max_el, t_peak,
            az_at_peak)
  | _ => None
  end.

(** [for sat, chunk in rows: ... print(...)]: the rows whose line is
    printed, and the exception that ends the loop, if any. *)
Fixpoint print_rows (rows : list row) : list row * option exn :=
  match rows with
  | [] => ([], None)
  | r :: rest =>
      match report_line r with
      | None => ([], Some TypeError)
      | Some _ => let '(printed, e) := print_rows rest in (r :: printed, e)
      end
  end.

(** ** The command line, [main] *)

(** The arguments as [ap.parse_args()] returns them. *)
Record Args : Type := {
  a_tle_file : list str;
  a_now : bool;
  a_duration_min : Z;
  a_start : option str;
  a_end : option str;
  a_lat : option float64;
  a_lon : option float64;
  a_alt : float64;
  a_from_dish : bool;
  a_min_el : float64;
  a_step_s : Z
}.

(** What [ap.parse_args()] makes of the command line: the arguments, or
    an exit of argparse's own, with a usage error (a missing --tle-file,
    a value that is no [int] or [float], an unknown option) or after the
    help text of [--help]. *)
Inductive parsed : Type :=
| Parsed (args : Args)
| Rejected (msg : string)
| HelpRequested.

(** How a run of [main] ends. *)
Inductive outcome : Type :=
| HelpShown                   (* argparse's help: exit status 0 *)
| UsageError (msg : string)   (* ap.error: exit status 2 *)
| NoResults                   (* the "No Starlink above ..." line *)
| Report (rows : list row)    (* one printed line per row *)
| ReportAborted (printed : list row) (e : exn)
                              (* the lines of [printed], then an
                                 exception of the report loop *)
| Uncaught (e : exn).

(** [datetime.fromisoformat(s).astimezone(timezone.utc)], the clock
    [datetime.now(timezone.utc)] and [fetch_location_from_dish()]. *)
Variable fromisoformat : str -> result Z.
Variable utc_now : Z.
Variable fetch_location_from_dish : result (float64 * float64 * float64).

Definition endswith_Z (s : str) : bool :=
  match rev s with c :: _ => N.eqb c 90 | [] => false end.

Definition parse_iso_z (s : str) : result Z :=
  if endswith_Z s
  then fromisoformat (removelast s ++ str_of "+00:00")
  else fromisoformat s.

(** [timedelta(minutes=n)] for an [int] [n]. *)
Definition timedelta_minutes (n : Z) : result Z := timedelta_seconds (n * 60).

(** [timedelta(minutes=max(1, duration_min)) / 2]; the division is exact,
    a whole number of minutes being an even number of microseconds. *)
Definition half_window (duration_min : Z) : result Z :=
  d <- timedelta_minutes (Z.max 1 duration_min) ;; Ok (d / 2).

(** The "Time window" block: a usage error, an exception or the window.
    [mid - half] is [mid + (-half)]. *)
Definition time_window (args : Args) : outcome + (Z * Z) :=
  if a_now args then
    match half_window (a_duration_min args) with
    | Raise x => inl (Uncaught x)
    | Ok half =>
        match datetime_add utc_now (- half) with
        | Raise x => inl (Uncaught x)
        | Ok start =>
            match datetime_add utc_now half with
            | Raise x => inl (Uncaught x)
            | Ok end_ => inr (start, end_)
            end
        end
    end
  else
    match a_start args, a_end args with
    | Some s, Some e =>
        if truthy s && truthy e then
          match parse_iso_z s with
          | Raise x => inl (Uncaught x)
          | Ok start =>
              match parse_iso_z e with
              | Raise x => inl (Uncaught x)
              | Ok end_ => inr (start, end_)
              end
          end
        else inl (UsageError "Provide --now OR both --start and --end")
    | _, _ => inl (UsageError "Provide --now OR both --start and --end")
    end.

(** The "Location" block. *)
Definition location (args : Args) : outcome + (float64 * float64 * float64) :=
  let explicit (msg : string) :=
    match a_lat args, a_lon args with
    | Some la, Some lo => inr (la, lo, a_alt args)
    | _, _ => inl (UsageError msg)
    end in
  if a_from_dish args then
    match fetch_location_from_dish with
    | Ok site => inr site
    | Raise _ => explicit "Need --lat/--lon if --from-dish fails"%string
    end
  else explicit "Need --lat/--lon or use --from-dish"%string.

(** The "Print" block. *)
Definition report (rows : list row) : outcome :=
  match print_rows rows with
  | (_, None) => Report rows
  | (printed, Some e) => ReportAborted printed e
  end.

(** [main()]; [cmdline] is what [ap.parse_args()] makes of the command
    line. *)
Definition main (fuel : nat) (cmdline : parsed) : option outcome :=
  match cmdline with
  | HelpRequested => Some HelpShown
  | Rejected msg => Some (UsageError msg)
  | Parsed args =>
      match time_window args with
      | inl o => Some o
      | inr (start, end_) =>
          match location args with
          | inl o => Some o
          | inr (lat, lon, alt) =>
              match visible_list fuel (a_tle_file args) lat lon alt
                                 start end_ (a_min_el args) (a_step_s args)
              with
              | None => None
              | Some (Raise e) => Some (Uncaught e)
              | Some (Ok rows) =>
                  Some (if truthy rows then report rows else NoResults)
              end
          end
      end
  end.

End Engine.

Arguments HelpShown {Sat}.
Arguments UsageError {Sat} msg.
Arguments NoResults {Sat}.
Arguments Report {Sat} rows.
Arguments ReportAborted {Sat} printed e.
Arguments Uncaught {Sat} e.
Arguments report_line {Sat} r.
Arguments print_rows {Sat} rows.

(** ** Reference definitions, written from the specification *)

(** The parser as the specification words it: look at the first three
    lines; emit them and move on by three when the markers are there,
    otherwise drop one line and retry. *)
Fixpoint scan (lines : list str) : list (str * str * str) :=
  match lines with
  | name :: tl =>
      match tl with
      | l1 :: l2 :: rest =>
          if markers l1 l2 then (name, l1, l2) :: scan rest else scan tl
      | _ => []
      end
  | [] => []
  end.

(** The closed-interval grid [start, start + step, ...] up to [end]. *)
Definition grid_size (t0 t1 step_s : Z) : nat :=
  if t0 <=? t1 then Z.to_nat (1 + (t1 - t0) / (step_s * second)) else O.

Definition grid (t0 t1 step_s : Z) : list Z :=
  List.map (fun k => t0 + Z.of_nat k * (step_s * second))
           (seq 0 (grid_size t0 t1 step_s)).

(** How the generator stops after yielding the grid: exhausted, unless
    the statement after the last [yield] raises. *)
Definition grid_ending (t0 t1 step_s : Z) : ending :=
  match rev (grid t0 t1 step_s) with
  | [] => Exhausted
  | t :: _ =>
      match advance step_s t with
      | Ok _ => Exhausted
      | Raise e => Raised e
      end
  end.

(** The outcome of a [for] loop whose body, run over the yielded items,
    gave [r], and whose generator stopped as [e] says. *)
Definition loop_outcome {A} (e : ending) (r : result A) : result A :=
  match r, e with
  | Ok a, Exhausted => Ok a
  | Ok _, Raised x => Raise x
  | Raise x, _ => Raise x
  end.

(** The segmenter as the specification words it: [cur] is the pass in
    progress and [prev] the previous sample. *)
Fixpoint passes_from (cur : list sample) (prev : sample) (l : list sample)
  : list (list sample) :=
  match l with
  | [] => [cur]
  | s :: l' =>
      if s_time s - s_time prev >? gap_tolerance
      then cur :: passes_from [s] s l'
      else passes_from (cur ++ [s]) s l'
  end.

Definition segment_spec (l : list sample) : list (list sample) :=
  match l with
  | [] => []
  | s :: l' => passes_from [s] s l'
  end.

(** Two neighbouring samples no further apart than the tolerance. *)
Definition close (a b : sample) : Prop :=
  s_time b - s_time a <= gap_tolerance.

(** [p] ends more than the tolerance before [q] starts. *)
Definition apart (p q : list sample) : Prop :=
  pass_end p + gap_tolerance < pass_start q.

(** Samples in non-decreasing time order. *)
Definition time_ordered (l : list sample) : Prop :=
  Sorted (fun a b => s_time a <= s_time b) l.

Section Reference.

Variable Sat : Type.
Variable altaz :
  float64 -> float64 -> float64 -> Sat -> Z -> result (float64 * float64).
Variables (lat lon alt : float64) (min_el : float64).

(** What the sampler keeps of one satellite at one instant when the
    library returns: the sample, if its elevation clears the threshold. *)
Definition retained_at (sat : satobj Sat) (dt : Z) : list sample :=
  match altaz lat lon alt (snd sat) dt with
  | Ok (el, az) =>
      if F64.ge el min_el then [(dt, el, mod_360 az)] else []
  | Raise _ => []
  end.

Definition retained (sat : satobj Sat) (instants : list Z) : list sample :=
  flat_map (retained_at sat) instants.

(** The library returns at every pair of the given satellites and
    instants. *)
Definition returns (sats : list (satobj Sat)) (instants : list Z) : Prop :=
  forall sat dt, In sat sats -> In dt instants ->
    exists r, altaz lat lon alt (snd sat) dt = Ok r.

End Reference.

(** The samples stored under a satellite in [visible]. *)
Fixpoint lookup {Sat} (sat : satobj Sat) (visible : dict Sat) : list sample :=
  match visible with
  | [] => []
  | (k, v) :: rest => if same_sat Sat sat k then v else lookup sat rest
  end.

(** The passes of one satellite among the rows. *)
Definition passes_of {Sat} (sat : satobj Sat) (rows : list (row Sat))
  : list (list sample) :=
  List.map snd (List.filter (fun r => same_sat Sat (fst r) sat) rows).

(** A row the ranker can be given: at least one sample, no NaN
    elevation. *)
Definition well_formed {Sat} (r : row Sat) : Prop :=
  snd r <> [] /\ Forall (fun s => is_nan (s_el s) = false) (snd r).

(** The sampling loop over a given list of instants. *)
Fixpoint sample_over {Sat}
  (altaz : float64 -> float64 -> float64 -> Sat -> Z -> result (float64 * float64))
  (lat lon alt min_el : float64) (sats : list (satobj Sat))
  (instants : list Z) (visible : dict Sat) : result (dict Sat) :=
  match instants with
  | [] => Ok visible
  | dt :: rest =>
      v <- sample_instant Sat altaz lat lon alt min_el sats dt visible ;;
      sample_over altaz lat lon alt min_el sats rest v
  end.

(** The identities of the keys of [visible]. *)
Definition ids {Sat} (visible : dict Sat) : list nat :=
  List.map (fun kv => fst (fst kv)) visible.

(** What [segment_sat] adds for one satellite, in the words of the
    specification. *)
Definition passes_spec {Sat} (item : satobj Sat * list sample)
  : list (row Sat) :=
  List.map (pair (fst item)) (segment_spec (sort_by_time (snd item))).

(** Two passes one of which ends more than the tolerance before the
    other starts. *)
Definition disjoint (p q : list sample) : Prop := apart p q \/ apart q p.

(** [r1] peaks at least as high as [r2]. *)
Definition peak_ge {Sat} (r1 r2 : row Sat) : Prop :=
  exists k1 k2, peak Sat r1 = Ok k1 /\ peak Sat r2 = Ok k2
                /\ F64.ge k1 k2 = true.

(** [a] may stand before [b] in a list sorted with [ltb]. *)
Definition before {A} (ltb : A -> A -> bool) (a b : A) : Prop :=
  ltb b a = false.

(** [0 <= a < 360] and [0 <= a <= 360] in float comparisons. *)
Definition in_range (a : float64) : Prop :=
  F64.le zero a = true /\ F64.lt a f360 = true.
Definition in_closed_range (a : float64) : Prop :=
  F64.le zero a = true /\ F64.le a f360 = true.

(** What one instant adds under the key [k]: the retained samples of the
    objects that [k] is identical to. *)
Definition contrib {Sat}
  (altaz : float64 -> float64 -> float64 -> Sat -> Z -> result (float64 * float64))
  (lat lon alt min_el : float64) (k : satobj Sat) (sats : list (satobj Sat))
  (dt : Z) : list sample :=
  flat_map (fun o => if same_sat Sat k o
                     then retained_at Sat altaz lat lon alt min_el o dt
                     else []) sats.

(** The keys of [visible] are distinct objects among [sats]. *)
Definition dict_ok {Sat} (sats : list (satobj Sat)) (visible : dict Sat)
  : Prop :=
  NoDup (ids visible) /\ Forall (fun kv => In (fst kv) sats) visible.

(** ** Example data *)

Module Demo.

(** A constructor that accepts every triple and keeps it as it is. *)
Definition lenient (l1 l2 name : str) : result (str * str * str) :=
  Ok (name, l1, l2).

(** A constructor that checks the fixed width, 69 columns, of both
    element lines. *)
Definition checked (l1 l2 name : str) : result (str * str * str) :=
  if (List.length l1 =? 69)%nat && (List.length l2 =? 69)%nat
  then Ok (name, l1, l2) else Raise (LibraryError 0).

(** A catalog with a stray line, blank lines and two triples. *)
Definition catalog : list str :=
  List.map str_of
    ["# header"; "ALPHA  "; "1 aaa"; "  2 aaa"; ""; "   ";
     "BRAVO"; "1 bbb"; "2 bbb"; "1 trailing"]%string.

(** A triple with both markers and too few columns, then a triple. *)
Definition truncated : list str :=
  List.map str_of ["ALPHA"; "1 25544U"; "2 25544"; "BRAVO"; "1 bbb"; "2 bbb"]%string.

(** The instant [n] seconds after the epoch. *)
Definition sec (n : Z) : Z := n * second.

(** A sky in which ALPHA stands at 20 degrees up to 120 s and from 330 s
    to 450 s and at 5 degrees otherwise, and BRAVO at 50 degrees from
    150 s to 200 s, with a NaN elevation otherwise. *)
Definition sky (la lo al : float64) (sat : str * str * str) (dt : Z)
  : result (float64 * float64) :=
  let '(name, _, _) := sat in
  let t := dt / second in
  if (List.length name =? 5)%nat && N.eqb (hd 0%N name) 65 then
    Ok (if (t <=? 120) || ((330 <=? t) && (t <=? 450))
        then of_Z 20 else of_Z 5, of_Z 90)
  else
    Ok (if (150 <=? t) && (t <=? 200) then of_Z 50 else NaN, of_Z 725).


End Demo.

(** Runs of the engine over the example data: a 10-minute window sampled
    every 30 s with the default threshold of 10 degrees. *)
Module DemoRuns.
Import Demo.

Definition run (sky : float64 -> float64 -> float64 -> str * str * str -> Z
                      -> result (float64 * float64))
  (start end_ : Z) : option (result (list (row (str * str * str)))) :=
  visible_list _ lenient sky 30 catalog zero zero zero start end_
    (of_Z 10) 30.

(** Three samples: the second 180 s after the first, the third 180.000001 s
    after the second. *)
Definition three : list sample :=
  [(0, of_Z 20, zero); (sec 180, of_Z 30, zero);
   (sec 360 + 1, of_Z 25, zero)].

(** The records of the example catalog, and its two objects. *)
Definition records : list (str * str * str) :=
  [(str_of "ALPHA", str_of "1 aaa", str_of "2 aaa");
   (str_of "BRAVO", str_of "1 bbb", str_of "2 bbb")].

Definition alpha : satobj (str * str * str) :=
  (0%nat, (str_of "ALPHA", str_of "1 aaa", str_of "2 aaa")).
Definition bravo : satobj (str * str * str) :=
  (1%nat, (str_of "BRAVO", str_of "1 bbb", str_of "2 bbb")).

(** A time format for the examples: an instant is written as its number
    of seconds in decimal digits; what follows the digits is ignored. *)
Fixpoint digits (s : str) (acc : Z) : Z :=
  match s with
  | c :: s' =>
      if ((48 <=? c) && (c <=? 57))%N
      then digits s' (10 * acc + Z.of_N (c - 48))
      else acc
  | [] => acc
  end.

Definition iso (s : str) : result Z := Ok (sec (digits s 0)).

(** [--start 600Z --end 0Z --lat 0 --lon 0]: the window ends before it
    starts. *)
Definition inverted (tle_file : list str) : Args :=
  {| a_tle_file := tle_file; a_now := false; a_duration_min := 15;
     a_start := Some (str_of "600Z"); a_end := Some (str_of "0Z");
     a_lat := Some zero; a_lon := Some zero; a_alt := zero;
     a_from_dish := false; a_min_el := of_Z 10; a_step_s := 30 |}.

(** [main] with the example time format, the clock at the epoch and no
    dish. *)
Definition cli (ctor : str -> str -> str -> result (str * str * str))
  (fuel : nat) (args : Args) : option (outcome (str * str * str)) :=
  main _ ctor sky iso 0 (Raise (LibraryError 2)) fuel (Parsed args).

End DemoRuns.

(** ** Catalog shapes *)

(** The three lines of a record. *)
Definition triple_lines (t : str * str * str) : list str :=
  let '(name, l1, l2) := t in [name; l1; l2].

(** A catalog in which each record is preceded by stray lines, with
    stray lines after the last record. *)
Fixpoint with_strays (groups : list (list str * (str * str * str)))
  (trailing : list str) : list str :=
  match groups with
  | [] => trailing
  | (strays, t) :: rest =>
      strays ++ triple_lines t ++ with_strays rest trailing
  end.

(** A stray line: one that does not start with ["1 "]. *)
Definition stray (s : str) : bool := negb (startswith s (str_of "1 ")).

(** A catalog of element sets without name lines. *)
Definition nameless (pairs : list (str * str)) : list str :=
  flat_map (fun p => [fst p; snd p]) pairs.

(** What the scan makes of a nameless catalog: every second element
    set, named by the second line of the element set before it. *)
Fixpoint every_other (pairs : list (str * str)) : list (str * str * str) :=
  match pairs with
  | a :: tl =>
      match tl with
      | b :: rest => (snd a, fst b, snd b) :: every_other rest
      | [] => []
      end
  | [] => []
  end.

(** A line as [str.strip] leaves it: not empty, no white space at
    either end. *)
Definition stripped (s : str) : Prop :=
  s <> [] /\ strip s = s
  /\ isspace (hd 0%N s) = false /\ isspace (last s 0%N) = false.

(** Further example catalogs. *)
Module DemoCatalogs.

(** Comment lines before each record and after the last one. *)
Definition commented : list str :=
  List.map str_of
    ["# header"; "## more"; "ALPHA"; "1 aaa"; "2 aaa"; "";
     "# next"; "BRAVO"; "1 bbb"; "2 bbb"; "# end"]%string.

(** Four element sets without name lines. *)
Definition two_line : list str :=
  List.map str_of
    ["1 aaa"; "2 aaa"; "1 bbb"; "2 bbb"; "1 ccc"; "2 ccc"; "1 ddd"; "2 ddd"]%string.

End DemoCatalogs.

(** The rows whose peak equals [k]. *)
Definition peaks_at {Sat} (k : float64) (r : row Sat) : bool :=
  match peak Sat r with
  | Ok k' => F64.eq k' k
  | Raise _ => false
  end.

(** ** The report loop of [main] *)

(** The state in which [s] is the peak so far. *)
Definition peak_of (s : sample) : peak_state :=
  (s_el s, Some (s_time s), Some (s_az s)).

(** A sky in which every satellite stands 3 degrees below the horizon,
    due east. *)
Definition low_sky (la lo al : float64) (sat : str * str * str) (dt : Z)
  : result (float64 * float64) :=
  Ok (of_Z (-3), of_Z 90).

(** ** Arguments *)

(** [args.start and args.end] *)
Definition both_given (args : Args) : bool :=
  match a_start args, a_end args with
  | Some s, Some e => truthy s && truthy e
  | _, _ => false
  end.

(** The same arguments without [--from-dish]. *)
Definition explicit_site (args : Args) : Args :=
  {| a_tle_file := a_tle_file args; a_now := a_now args;
     a_duration_min := a_duration_min args; a_start := a_start args;
     a_end := a_end args; a_lat := a_lat args; a_lon := a_lon args;
     a_alt := a_alt args; a_from_dish := false;
     a_min_el := a_min_el args; a_step_s := a_step_s args |}.

(** ** The location of the dish, [fetch_location_from_dish] *)

Module Dish.

(** What [json.loads] returns. *)
#[warnings="-register-all"] Inductive json : Type :=
| JNull
| JBool (b : bool)
| JInt (n : Z)
| JFloat (x : float64)
| JStr (s : str)
| JList (items : list json)
| JDict (items : list (str * json)).   (* in insertion order, keys distinct *)

(** The exceptions of the function: of [subprocess.check_output] and
    [json.loads], of [.get] on a value that is not a dict, of [float],
    and its own [RuntimeError]. *)
Inductive error : Type :=
| ProcessError
| DecodeError
| AttributeError
| ConversionError
| RuntimeError.

Inductive res (A : Type) : Type :=
| Good (a : A)
| Bad (e : error).
Arguments Good {A} a.
Arguments Bad {A} e.

Definition and_then {A B} (r : res A) (k : A -> res B) : res B :=
  match r with Good a => k a | Bad e => Bad e end.

Fixpoint str_eqb (a b : str) : bool :=
  match a, b with
  | [], [] => true
  | x :: a', y :: b' => N.eqb x y && str_eqb a' b'
  | _, _ => false
  end.

(** [d.get(k)] and [k in d] on the items of a dict. *)
Fixpoint get (k : str) (items : list (str * json)) : option json :=
  match items with
  | [] => None
  | (k', v) :: rest => if str_eqb k k' then Some v else get k rest
  end.

Definition has (k : str) (items : list (str * json)) : bool :=
  match get k items with Some _ => true | None => false end.

(** [o.get(k, default)]: [AttributeError] unless [o] is a dict. *)
Definition get_method (o : json) (k : str) (default : json) : res json :=
  match o with
  | JDict items =>
      Good (match get k items with Some v => v | None => default end)
  | _ => Bad AttributeError
  end.

(** Truth value of a decoded value. *)
Definition truth (o : json) : bool :=
  match o with
  | JNull => false
  | JBool b => b
  | JInt n => negb (n =? 0)
  | JFloat x => negb (F64.eq x zero)
  | JStr s => truthy s
  | JList items => truthy items
  | JDict items => truthy items
  end.

(** The test of [search] on a dict:
    [("latitude" in o and "longitude" in o) or ("lat" in o and "lon" in o)] *)
Definition located (items : list (str * json)) : bool :=
  (has (str_of "latitude") items && has (str_of "longitude") items)
  || (has (str_of "lat") items && has (str_of "lon") items).

(** The nested function [search]; [None] is Python's [None]. *)
Fixpoint search (o : json) : option json :=
  match o with
  | JDict items =>
      if located items then Some o
      else
        (fix values (l : list (str * json)) : option json :=
           match l with
           | [] => None
           | (_, v) :: l' =>
               match search v with
               | Some r => if truth r then Some r else values l'
               | None => values l'
               end
           end) items
  | JList vs =>
      (fix elements (l : list json) : option json :=
         match l with
         | [] => None
         | v :: l' =>
             match search v with
             | Some r => if truth r then Some r else elements l'
             | None => elements l'
             end
         end) vs
  | _ => None
  end.

Section Fetch.

(** The builtin [float] on a decoded value. *)
Variable float_of : json -> res float64.

Definition floats (a b c : json) : res (float64 * float64 * float64) :=
  and_then (float_of a) (fun x =>
  and_then (float_of b) (fun y =>
  and_then (float_of c) (fun z => Good (x, y, z)))).

(** [d[k]] *)
Definition item (k : str) (items : list (str * json)) : json :=
  match get k items with Some v => v | None => JNull end.

(** [d.get(k1, d.get(k2, default))] *)
Definition either (k1 k2 : str) (default : json)
  (items : list (str * json)) : json :=
  match get k1 items with
  | Some v => v
  | None => match get k2 items with Some v => v | None => default end
  end.

(** The fallback: from [got = search(data)] on. *)
Definition crawl (data : json) : res (float64 * float64 * float64) :=
  match search data with
  | Some (JDict got) =>
      if truthy got then
        floats (either (str_of "latitude") (str_of "lat") JNull got)
               (either (str_of "longitude") (str_of "lon") JNull got)
               (either (str_of "altitudeM") (str_of "alt") (JFloat zero) got)
      else Bad RuntimeError
  | Some _ => Bad AttributeError
  | None => Bad RuntimeError
  end.

(** [fetch_location_from_dish()]; [reply] is the outcome of running
    grpcurl and decoding its output. *)
Definition fetch_location_from_dish (reply : res json)
  : res (float64 * float64 * float64) :=
  and_then reply (fun data =>
  and_then (get_method data (str_of "getLocation") (JDict [])) (fun gl =>
  and_then (get_method gl (str_of "lla") JNull) (fun lla =>
    match lla with
    | JDict items =>
        if has (str_of "lat") items && has (str_of "lon") items
           && has (str_of "alt") items
        then floats (item (str_of "lat") items) (item (str_of "lon") items)
                    (item (str_of "alt") items)
        else crawl data
    | _ => crawl data
    end))).

End Fetch.

(** [o] occurs in [data]: it is [data], or occurs in a value of the dict
    or an element of the list that [data] is. *)
Inductive inside (o : json) : json -> Prop :=
| inside_here : inside o o
| inside_value (k : str) (v : json) (items : list (str * json)) :
    In (k, v) items -> inside o v -> inside o (JDict items)
| inside_element (v : json) (vs : list json) :
    In v vs -> inside o v -> inside o (JList vs).

(** The first result that is not [None] and is truthy. *)
Fixpoint first_found (l : list (option json)) : option json :=
  match l with
  | [] => None
  | Some r :: l' => if truth r then Some r else first_found l'
  | None :: l' => first_found l'
  end.

(** [isinstance(lla, dict) and all(k in lla for k in ("lat", "lon", "alt"))] *)
Definition v39 (lla : json) : bool :=
  match lla with
  | JDict items =>
      has (str_of "lat") items && has (str_of "lon") items
      && has (str_of "alt") items
  | _ => false
  end.

(** [isinstance(o, dict)] *)
Definition is_dict (o : json) : bool :=
  match o with JDict _ => true | _ => false end.

End Dish.

Module DishDemo.
Import Dish.

(** [float] on the numbers of the examples: floats, and integers small
    enough to be doubles. *)
Definition small_float (o : json) : res float64 :=
  match o with
  | JFloat x => Good x
  | JInt n => Good (of_Z n)
  | _ => Bad ConversionError
  end.

(** [{"getLocation": {"lla": {"lat": 32, "lon": -96}}}]: no altitude. *)
Definition no_alt : json :=
  JDict [(str_of "getLocation",
          JDict [(str_of "lla",
                  JDict [(str_of "lat", JInt 32);
                         (str_of "lon", JInt (-96))])])].

(** [{"uptime": 5, "alerts": [{"lat": 1}]}]: no dict with both keys. *)
Definition no_location : json :=
  JDict [(str_of "uptime", JInt 5);
         (str_of "alerts", JList [JDict [(str_of "lat", JInt 1)]])].

(** [{"getLocation": null, "lat": 32, "lon": -96}] *)
Definition null_location : json :=
  JDict [(str_of "getLocation", JNull); (str_of "lat", JInt 32);
         (str_of "lon", JInt (-96))].

(** [{"getLocation": {"lla": {"lat": null, "lon": -96, "alt": 145}},
      "latitude": 32, "longitude": -96}] *)
Definition null_lat : json :=
  JDict [(str_of "getLocation",
          JDict [(str_of "lla",
                  JDict [(str_of "lat", JNull); (str_of "lon", JInt (-96));
                         (str_of "alt", JInt 145)])]);
         (str_of "latitude", JInt 32); (str_of "longitude", JInt (-96))].

End DishDemo.

(* ================================================================== *)
(** * Part II: properties                                              *)
(* ================================================================== *)

(** ** Order of floats *)

Module F64Facts.

Lemma pow2_pos (n : Z) : 0 <= n -> 0 < 2 ^ n.
Proof. intros. apply Z.pow_pos_nonneg; lia. Qed.

Lemma scaled_rescale (e' e0 m e : Z) :
  e' <= e0 -> e0 <= e -> scaled e' m e = scaled e0 m e * 2 ^ (e0 - e').
Proof.
  intros H1 H2. unfold scaled.
  replace (e - e') with ((e - e0) + (e0 - e')) by lia.
  rewrite Z.pow_add_r by lia. ring.
Qed.

(** The order of two finite values can be read at any common exponent
    below both. *)
Lemma fin_cmp_at (e' m1 e1 m2 e2 : Z) :
  e' <= e1 -> e' <= e2 ->
  fin_cmp m1 e1 m2 e2 = (scaled e' m1 e1 ?= scaled e' m2 e2).
Proof.
  intros H1 H2. unfold fin_cmp.
  set (e0 := Z.min e1 e2).
  rewrite (scaled_rescale e' e0 m1 e1), (scaled_rescale e' e0 m2 e2)
    by (subst e0; lia).
  pose proof (pow2_pos (e0 - e') ltac:(subst e0; lia)) as Hp.
  set (a := scaled e0 m1 e1). set (b := scaled e0 m2 e2).
  set (c := 2 ^ (e0 - e')) in *. clearbody a b c.
  destruct (Z.compare_spec a b) as [E|L|G]; symmetry.
  - subst. apply Z.compare_refl.
  - apply Z.compare_lt_iff. nia.
  - apply Z.compare_gt_iff. nia.
Qed.

Lemma le_not_nan x y : F64.le x y = true -> is_nan x = false /\ is_nan y = false.
Proof. destruct x as [|[]|], y as [|[]|]; cbn; intuition discriminate. Qed.

Lemma lt_not_nan x y : F64.lt x y = true -> is_nan x = false /\ is_nan y = false.
Proof. destruct x as [|[]|], y as [|[]|]; cbn; intuition discriminate. Qed.

Lemma compare_antisym x y c :
  F64.compare x y = Some c -> F64.compare y x = Some (CompOpp c).
Proof.
  destruct x as [|[]|m1 e1], y as [|[]|m2 e2]; cbn; intros H;
    try discriminate; try (injection H as <-; reflexivity).
  injection H as <-. f_equal.
  rewrite (fin_cmp_at (Z.min e1 e2) m1 e1 m2 e2) by lia.
  rewrite (fin_cmp_at (Z.min e1 e2) m2 e2 m1 e1) by lia.
  apply Z.compare_antisym.
Qed.

(** Between two numbers, [<] is the negation of [>=]. *)
Lemma lt_negb_le x y :
  is_nan x = false -> is_nan y = false -> F64.lt x y = negb (F64.le y x).
Proof.
  intros Hx Hy. unfold F64.lt, F64.le.
  destruct (F64.compare x y) as [c|] eqn:E.
  - rewrite (compare_antisym _ _ _ E). destruct c; reflexivity.
  - destruct x as [|[]|], y as [|[]|]; cbn in *; discriminate.
Qed.

Lemma le_total x y :
  is_nan x = false -> is_nan y = false ->
  F64.le x y = true \/ F64.le y x = true.
Proof.
  intros Hx Hy. rewrite <- (negb_involutive (F64.le y x)).
  rewrite <- lt_negb_le by assumption.
  unfold F64.lt, F64.le. destruct (F64.compare x y) as [[]|]; auto.
Qed.

Lemma le_refl x : is_nan x = false -> F64.le x x = true.
Proof. intros H. destruct (le_total x x H H); assumption. Qed.

Lemma le_trans x y z :
  F64.le x y = true -> F64.le y z = true -> F64.le x z = true.
Proof.
  unfold F64.le.
  destruct x as [|[]|m1 e1], y as [|[]|m2 e2], z as [|[]|m3 e3]; cbn;
    try discriminate; try reflexivity.
  set (e' := Z.min e1 (Z.min e2 e3)).
  rewrite (fin_cmp_at e' m1 e1 m2 e2), (fin_cmp_at e' m2 e2 m3 e3),
    (fin_cmp_at e' m1 e1 m3 e3) by (subst e'; lia).
  destruct (Z.compare_spec (scaled e' m1 e1) (scaled e' m2 e2));
    destruct (Z.compare_spec (scaled e' m2 e2) (scaled e' m3 e3));
    destruct (Z.compare_spec (scaled e' m1 e1) (scaled e' m3 e3));
    intros; try reflexivity; try discriminate; lia.
Qed.

(** On the integers the float order is the integer order. *)
Lemma le_of_Z a b : F64.le (of_Z a) (of_Z b) = (a <=? b).
Proof.
  unfold F64.le, of_Z; cbn. unfold fin_cmp, scaled. rewrite Z.min_id.
  replace (0 - 0) with 0 by lia. change (2 ^ 0) with 1.
  rewrite !Z.mul_1_r.
  destruct (Z.compare_spec a b); symmetry;
    [apply Z.leb_le | apply Z.leb_le | apply Z.leb_gt]; lia.
Qed.

End F64Facts.

(** ** Azimuth normalisation, [% 360.0] *)

Module Azimuth.
Import F64Facts.

(** A finite value compared with zero, from the sign of its mantissa. *)
Lemma zero_le_fin (m e : Z) : 0 <= m -> F64.le zero (Fin m e) = true.
Proof.
  intros Hm. unfold F64.le, zero; cbn [F64.compare].
  rewrite (fin_cmp_at (Z.min 0 e)) by lia.
  unfold scaled. rewrite Z.mul_0_l.
  pose proof (pow2_pos (e - Z.min 0 e) ltac:(lia)).
  destruct (Z.compare_spec 0 (m * 2 ^ (e - Z.min 0 e))); try reflexivity; nia.
Qed.

(** A finite value compared with 360, at an exponent no larger than 3. *)
Lemma fin_vs_360 (m e : Z) :
  e <= 3 -> fin_cmp m e 45 3 = (m ?= 45 * 2 ^ (3 - e)).
Proof.
  intros He. rewrite (fin_cmp_at e) by lia. unfold scaled.
  rewrite Z.sub_diag. change (2 ^ 0) with 1. rewrite Z.mul_1_r. reflexivity.
Qed.

Lemma W_pos (e0 : Z) : e0 <= 3 -> 0 < scaled e0 45 3.
Proof. intros. unfold scaled. pose proof (pow2_pos (3 - e0)); lia. Qed.

(** A raw azimuth that is a finite number not below zero is normalised
    into [0, 360): no rounding takes place. *)
Lemma mod_360_nonneg (m e : Z) : 0 <= m -> in_range (mod_360 (Fin m e)).
Proof.
  intros Hm. unfold mod_360, float_mod.
  set (e0 := Z.min e 3).
  pose proof (W_pos e0 ltac:(subst e0; lia)) as HW.
  assert (HX : 0 <= scaled e0 m e).
  { unfold scaled. pose proof (pow2_pos (e - e0) ltac:(subst e0; lia)). nia. }
  pose proof (Z.rem_bound_pos _ _ HX HW) as [Hr0 Hr1].
  destruct (Z.eqb_spec (Z.rem (scaled e0 m e) (scaled e0 45 3)) 0) as [E|NE].
  - split; reflexivity.
  - replace (scaled e0 45 3 <? 0) with false by (symmetry; apply Z.ltb_ge; lia).
    replace (Z.rem (scaled e0 m e) (scaled e0 45 3) <? 0) with false
      by (symmetry; apply Z.ltb_ge; lia).
    cbn [xorb]. split.
    + apply zero_le_fin; assumption.
    + unfold F64.lt, f360; cbn [F64.compare]. rewrite fin_vs_360 by (subst e0; lia).
      change (45 * 2 ^ (3 - e0)) with (scaled e0 45 3).
      rewrite (proj2 (Z.compare_lt_iff _ _) Hr1). reflexivity.
Qed.

(** A raw azimuth that is an exact multiple of 360, of either sign,
    wraps to zero. *)
Lemma mod_360_multiple (k : Z) : mod_360 (of_Z (360 * k)) = zero.
Proof.
  unfold mod_360, float_mod, of_Z, scaled.
  replace (Z.min 0 3) with 0 by reflexivity.
  replace (3 - 0) with 3 by lia. replace (0 - 0) with 0 by lia.
  change (45 * 2 ^ 3) with 360. change (2 ^ 0) with 1. rewrite Z.mul_1_r.
  rewrite Z.mul_comm, Z.rem_mul by lia. reflexivity.
Qed.

(** A raw azimuth that equals a multiple of 360, whatever its mantissa
    and exponent, wraps to zero. *)
Lemma mod_360_multiple_eq (m e k : Z) :
  F64.eq (Fin m e) (of_Z (360 * k)) = true -> mod_360 (Fin m e) = zero.
Proof.
  unfold F64.eq, of_Z. cbn [F64.compare].
  set (e' := Z.min e 0). rewrite (fin_cmp_at e') by (subst e'; lia).
  destruct (Z.compare_spec (scaled e' m e) (scaled e' (360 * k) 0))
    as [E|_|_]; try discriminate.
  intros _. unfold mod_360, float_mod. cbv zeta. set (e0 := Z.min e 3).
  assert (He : e' <= e0) by (subst e' e0; lia).
  rewrite (scaled_rescale e' e0 m e) in E by (subst e0; lia).
  pose proof (scaled_rescale e' e0 45 3 He ltac:(subst e0; lia)) as HW.
  pose proof (pow2_pos (e0 - e') ltac:(lia)) as HP.
  assert (E2 : scaled e' (360 * k) 0 = k * scaled e' 45 3).
  { unfold scaled. replace (3 - e') with (3 + (0 - e')) by lia.
    rewrite Z.pow_add_r by (subst e'; lia). change (2 ^ 3) with 8. ring. }
  assert (EX : scaled e0 m e = k * scaled e0 45 3).
  { apply Z.mul_reg_r with (p := 2 ^ (e0 - e')); [lia|].
    rewrite E, E2, HW. ring. }
  pose proof (W_pos e0 ltac:(subst e0; lia)).
  rewrite EX, Z.rem_mul by lia. reflexivity.
Qed.

Lemma lt_not_eq (x y : float64) : F64.lt x y = true -> F64.eq x y = false.
Proof.
  unfold F64.lt, F64.eq. destruct (F64.compare x y) as [[]|];
    try discriminate; reflexivity.
Qed.

(** The rounding of a positive sum below 360 stays in [0, 360]. *)
Lemma round53_below_360 (M e0 : Z) :
  e0 <= 3 -> 0 < M < scaled e0 45 3 -> in_closed_range (round53 M e0).
Proof.
  intros He [HM0 HMW]. unfold round53.
  rewrite (Z.abs_eq M) by lia.
  set (k := Z.log2 M + 1 - 53).
  destruct (Z.leb_spec k 0) as [Hk|Hk].
  - split; [apply zero_le_fin; lia|].
    unfold F64.le, f360; cbn [F64.compare]. rewrite fin_vs_360 by lia.
    change (45 * 2 ^ (3 - e0)) with (scaled e0 45 3).
    rewrite (proj2 (Z.compare_lt_iff _ _) HMW). reflexivity.
  - (* M has more than 53 bits *)
    pose proof (Z.log2_spec M HM0) as [Hlo _].
    assert (Hexp : k + 52 < 9 - e0).
    { apply (Z.pow_lt_mono_r_iff 2); [lia | lia |].
      replace (k + 52) with (Z.log2 M) by (subst k; lia).
      unfold scaled in HMW.
      assert (45 * 2 ^ (3 - e0) < 2 ^ (9 - e0)).
      { replace (9 - e0) with (6 + (3 - e0)) by lia.
        rewrite Z.pow_add_r by lia. change (2 ^ 6) with 64.
        pose proof (pow2_pos (3 - e0)); lia. }
      lia. }
    set (P := 2 ^ k).
    assert (HP : 0 < P) by (apply pow2_pos; lia).
    set (N := 45 * 2 ^ (3 - (e0 + k))).
    assert (HN : scaled e0 45 3 = N * P).
    { unfold scaled, N, P. replace (3 - e0) with ((3 - (e0 + k)) + k) by lia.
      rewrite Z.pow_add_r by lia. ring. }
    assert (Hq : M / P + 1 <= N).
    { assert (M / P < N); [|lia].
      apply Z.div_lt_upper_bound; [exact HP|]. rewrite Z.mul_comm, <- HN. exact HMW. }
    assert (Hq0 : 0 <= M / P) by (apply Z.div_pos; lia).
    set (q' := if M mod P <? 2 ^ (k - 1) then M / P
               else if 2 ^ (k - 1) <? M mod P then M / P + 1
               else if Z.even (M / P) then M / P else M / P + 1).
    assert (Hq' : 0 <= q' <= N).
    { subst q'. destruct (_ <? _); [lia|]. destruct (_ <? _); [lia|].
      destruct (Z.even _); lia. }
    rewrite Z.sgn_pos by lia. rewrite Z.mul_1_l.
    split; [apply zero_le_fin; lia|].
    unfold F64.le, f360; cbn [F64.compare]. rewrite fin_vs_360 by lia.
    fold N. destruct (Z.compare_spec q' N); try reflexivity. lia.
Qed.

(** Whatever the finite raw azimuth, the normalised one is in [0, 360],
    and in [0, 360) unless the raw azimuth is negative. *)
Lemma mod_360_finite (m e : Z) : in_closed_range (mod_360 (Fin m e)).
Proof.
  destruct (Z.le_gt_cases 0 m) as [Hm|Hm].
  - destruct (mod_360_nonneg m e Hm) as [H0 H1]. split; [exact H0|].
    unfold F64.lt in H1. unfold F64.le.
    destruct (F64.compare _ _) as [[]|]; try discriminate; reflexivity.
  - unfold mod_360, float_mod.
    set (e0 := Z.min e 3).
    pose proof (W_pos e0 ltac:(subst e0; lia)) as HW.
    assert (HX : scaled e0 m e <= 0).
    { unfold scaled. pose proof (pow2_pos (e - e0) ltac:(subst e0; lia)). nia. }
    pose proof (Z.rem_bound_pos_neg _ _ HW HX) as [Hr0 Hr1].
    destruct (Z.eqb_spec (Z.rem (scaled e0 m e) (scaled e0 45 3)) 0) as [E|NE].
    + split; reflexivity.
    + replace (scaled e0 45 3 <? 0) with false by (symmetry; apply Z.ltb_ge; lia).
      replace (Z.rem (scaled e0 m e) (scaled e0 45 3) <? 0) with true
        by (symmetry; apply Z.ltb_lt; lia).
      cbn [xorb]. apply round53_below_360; [subst e0; lia | lia].
Qed.

End Azimuth.

(** ** The catalog parser *)

Section MapM.

Context {A B : Type} (f : A -> result B).

Lemma mapM_ok (l : list A) :
  (forall a, In a l -> exists b, f a = Ok b) ->
  exists bs, mapM f l = Ok bs /\ Forall2 (fun a b => f a = Ok b) l bs.
Proof.
  induction l as [|a l IH]; intros H; cbn.
  - exists []. split; [reflexivity | constructor].
  - destruct (H a (or_introl eq_refl)) as [b Hb].
    destruct IH as [bs [E F2]]; [intros; apply H; right; assumption|].
    exists (b :: bs). rewrite Hb, E. cbn. split; [reflexivity|].
    constructor; assumption.
Qed.

Lemma mapM_raise (l : list A) (a : A) (e : exn) :
  In a l -> f a = Raise e -> exists e', mapM f l = Raise e'.
Proof.
  induction l as [|x l IH]; intros Hin Ha; [destruct Hin|].
  cbn. destruct (f x) as [b|e0] eqn:Ex; cbn; [|eexists; reflexivity].
  destruct Hin as [->|Hin]; [congruence|].
  destruct (IH Hin Ha) as [e' ->]. cbn. eexists; reflexivity.
Qed.

Lemma mapM_inv (l : list A) (bs : list B) :
  mapM f l = Ok bs -> Forall2 (fun a b => f a = Ok b) l bs.
Proof.
  revert bs. induction l as [|a l IH]; cbn; intros bs H.
  - injection H as <-. constructor.
  - destruct (f a) as [b|] eqn:Ea; cbn in H; [|discriminate].
    destruct (mapM f l) as [bs'|]; cbn in H; [|discriminate].
    injection H as <-. constructor; auto.
Qed.

End MapM.

Module ParserFacts.
Section Facts.

Variable Sat : Type.
Variable EarthSatellite : str -> str -> str -> result Sat.

Local Abbreviation loop := (load_loop Sat EarthSatellite).
Local Abbreviation build := (record_of Sat EarthSatellite).

Lemma skipn_nth (l : list str) (i : nat) :
  (i < List.length l)%nat -> skipn i l = nth i l [] :: skipn (S i) l.
Proof.
  revert i. induction l as [|x l IH]; intros i Hi; cbn in Hi; [lia|].
  destruct i; [reflexivity|]. cbn. apply IH. lia.
Qed.

Lemma scan_short (l : list str) : (List.length l < 3)%nat -> scan l = [].
Proof.
  destruct l as [|a [|b [|c l]]]; cbn; intros; try reflexivity; lia.
Qed.

Lemma scan_hit (name l1 l2 : str) (rest : list str) :
  markers l1 l2 = true ->
  scan (name :: l1 :: l2 :: rest) = (name, l1, l2) :: scan rest.
Proof. intros H. cbn [scan]. rewrite H. reflexivity. Qed.

Lemma scan_miss (name l1 l2 : str) (rest : list str) :
  markers l1 l2 = false ->
  scan (name :: l1 :: l2 :: rest) = scan (l1 :: l2 :: rest).
Proof.
  intros H. change (scan (name :: l1 :: l2 :: rest))
    with (if markers l1 l2 then (name, l1, l2) :: scan rest
          else scan (l1 :: l2 :: rest)).
  rewrite H. reflexivity.
Qed.

Lemma skipn_three (l : list str) (i : nat) :
  (i + 2 < List.length l)%nat ->
  skipn i l = nth i l [] :: nth (i + 1) l [] :: nth (i + 2) l []
                :: skipn (i + 3) l.
Proof.
  intros Hi. rewrite 3 skipn_nth by lia.
  replace (S i) with (i + 1)%nat by lia.
  replace (S (i + 1)) with (i + 2)%nat by lia.
  replace (S (i + 2)) with (i + 3)%nat by lia. reflexivity.
Qed.

Lemma skipn_tail (l : list str) (i : nat) :
  (i + 2 < List.length l)%nat ->
  nth (i + 1) l [] :: nth (i + 2) l [] :: skipn (i + 3) l = skipn (i + 1) l.
Proof.
  intros Hi. rewrite (skipn_nth l (i + 1)), (skipn_nth l (S (i + 1))) by lia.
  replace (S (i + 1)) with (i + 2)%nat by lia.
  replace (S (i + 2)) with (i + 3)%nat by lia. reflexivity.
Qed.

(** From line [i] on, the loop emits what the scan of the remaining lines
    finds, after the records it already holds. *)
Lemma load_loop_scan (lines : list str) (i : nat) (sats : list Sat) :
  loop lines i sats =
  (rs <- mapM build (scan (skipn i lines)) ;; Ok (sats ++ rs)).
Proof.
  funelim (load_loop Sat EarthSatellite lines i sats); clear Heqcall.
  - (* fewer than three lines left *)
    rewrite scan_short; [cbn; rewrite app_nil_r; reflexivity|].
    rewrite length_skipn. lia.
  - (* no markers: retry one line further *)
    rewrite (skipn_three lines i), (scan_miss _ _ _ _ Heq) by lia.
    rewrite skipn_tail by lia. assumption.
  - (* markers, the constructor returns *)
    rewrite (skipn_three lines i), (scan_hit _ _ _ _ Heq0) by lia.
    cbn [mapM record_of bind]. rewrite Heq. cbn [bind].
    match goal with IH : _ = bind _ _ |- _ => rewrite IH end.
    destruct (mapM _ _); cbn; [rewrite <- app_assoc; reflexivity | reflexivity].
  - (* markers, the constructor raises *)
    rewrite (skipn_three lines i), (scan_hit _ _ _ _ Heq0) by lia.
    cbn [mapM record_of bind]. rewrite Heq. reflexivity.
Qed.

Lemma load_tles_mapM (f : list str) :
  load_tles Sat EarthSatellite f = mapM build (scan (stripped_lines f)).
Proof.
  unfold load_tles. rewrite load_loop_scan. cbn [skipn].
  destruct (mapM _ _); reflexivity.
Qed.

End Facts.
End ParserFacts.

(** ** [list.sort] *)

Module SortFacts.
Section Stable.

Context {A : Type} (ltb : A -> A -> bool).

Local Abbreviation before := (before ltb).

Lemma insert_perm (x : A) (l : list A) :
  Permutation (insert_stable ltb x l) (x :: l).
Proof.
  induction l as [|y l IH]; cbn; [reflexivity|].
  destruct (ltb y x); [|reflexivity].
  rewrite IH. apply perm_swap.
Qed.

Lemma py_sort_perm (l : list A) : Permutation (py_sort ltb l) l.
Proof.
  induction l as [|x l IH]; cbn; [reflexivity|].
  rewrite insert_perm. constructor. exact IH.
Qed.

Lemma py_sort_reverse_perm (l : list A) :
  Permutation (py_sort_reverse ltb l) l.
Proof.
  unfold py_sort_reverse.
  apply Permutation_trans with (py_sort ltb (rev l));
    [symmetry; apply Permutation_rev|].
  apply Permutation_trans with (rev l);
    [apply py_sort_perm | symmetry; apply Permutation_rev].
Qed.

(** A list that is already in order is left as it is. *)
Lemma py_sort_sorted_id (l : list A) :
  StronglySorted before l -> py_sort ltb l = l.
Proof.
  induction 1 as [|x l Hs IH Hx]; cbn; [reflexivity|].
  change (fold_right (insert_stable ltb) [] l) with (py_sort ltb l).
  rewrite IH. destruct l as [|y l']; cbn; [reflexivity|].
  inversion Hx as [|? ? Hy _]; subst. unfold before in Hy. rewrite Hy.
  reflexivity.
Qed.

(** The order is sound on the elements satisfying [dom]: [<] is
    asymmetric and its negation transitive. *)
Variable dom : A -> Prop.
Hypothesis ltb_asym :
  forall x y, dom x -> dom y -> ltb x y = true -> ltb y x = false.
Hypothesis before_trans :
  forall x y z, dom x -> dom y -> dom z ->
    before x y -> before y z -> before x z.

Lemma insert_sorted (x : A) (l : list A) :
  dom x -> Forall dom l -> StronglySorted before l ->
  StronglySorted before (insert_stable ltb x l).
Proof.
  intros Hx Hd Hs. induction Hs as [|y l Hs IH Hy]; cbn.
  - constructor; constructor.
  - inversion Hd as [|? ? Hdy Hdl]; subst.
    destruct (ltb y x) eqn:E.
    + constructor; [apply IH; assumption|].
      eapply Permutation_Forall; [symmetry; apply insert_perm|].
      constructor; [|assumption].
      apply ltb_asym; assumption.
    + constructor; [constructor; assumption|].
      constructor; [exact E|].
      rewrite Forall_forall in *. intros z Hz.
      apply (before_trans x y z); auto.
Qed.

Lemma py_sort_sorted (l : list A) :
  Forall dom l -> StronglySorted before (py_sort ltb l).
Proof.
  induction 1 as [|x l Hx Hl IH]; cbn; [constructor|].
  apply insert_sorted; try assumption.
  eapply Permutation_Forall; [symmetry; apply py_sort_perm | assumption].
Qed.

End Stable.

Lemma StronglySorted_app {A} (R : A -> A -> Prop) (l1 l2 : list A) :
  StronglySorted R l1 -> StronglySorted R l2 ->
  (forall a b, In a l1 -> In b l2 -> R a b) ->
  StronglySorted R (l1 ++ l2).
Proof.
  induction 1 as [|a l1 Hs IH Ha]; intros H2 H12; cbn; [assumption|].
  constructor.
  - apply IH; [assumption|]. intros; apply H12; [right|]; assumption.
  - apply Forall_app. split; [assumption|].
    rewrite Forall_forall. intros b Hb. apply H12; [left; reflexivity|assumption].
Qed.

Lemma StronglySorted_rev {A} (R : A -> A -> Prop) (l : list A) :
  StronglySorted R l -> StronglySorted (fun a b => R b a) (rev l).
Proof.
  induction 1 as [|a l Hs IH Ha]; cbn; [constructor|].
  apply StronglySorted_app; [assumption | repeat constructor |].
  intros x y Hx [<-|[]]. rewrite Forall_forall in Ha.
  apply Ha. apply in_rev. assumption.
Qed.

(** With [reverse=True] no element is smaller than a later one. *)
Lemma py_sort_reverse_sorted {A} (ltb : A -> A -> bool) (dom : A -> Prop)
  (l : list A) :
  (forall x y, dom x -> dom y -> ltb x y = true -> ltb y x = false) ->
  (forall x y z, dom x -> dom y -> dom z ->
     before ltb x y -> before ltb y z -> before ltb x z) ->
  Forall dom l ->
  StronglySorted (fun a b => ltb a b = false) (py_sort_reverse ltb l).
Proof.
  intros Hasym Htrans Hd. unfold py_sort_reverse.
  apply (StronglySorted_rev (before ltb)).
  apply (py_sort_sorted ltb dom); try assumption.
  eapply Permutation_Forall; [apply Permutation_rev | assumption].
Qed.

Lemma StronglySorted_map {A B} (R : A -> A -> Prop) (S : B -> B -> Prop)
  (inv : A -> Prop) (f : A -> B) (l : list A) :
  (forall a b, inv a -> inv b -> R a b -> S (f a) (f b)) ->
  Forall inv l -> StronglySorted R l -> StronglySorted S (List.map f l).
Proof.
  intros HRS Hinv Hs. induction Hs as [|a l Hs IH Ha]; cbn; [constructor|].
  inversion Hinv as [|? ? Hia Hil]; subst.
  constructor; [apply IH; assumption|].
  rewrite Forall_forall in *. intros b Hb.
  apply in_map_iff in Hb as [x [<- Hx]]. apply HRS; auto.
Qed.

End SortFacts.

(** ** The instant generator *)

Module FrangeFacts.

Lemma step_pos (step_s : Z) : 0 < step_s -> 0 < step_s * second.
Proof. unfold second. lia. Qed.

(** Instants left to yield from [t0]: one fewer after each resumption. *)
Lemma grid_size_next (t0 t1 step_s : Z) :
  0 < step_s -> t0 <= t1 ->
  grid_size t0 t1 step_s = S (grid_size (t0 + step_s * second) t1 step_s).
Proof.
  intros Hs Ht. pose proof (step_pos _ Hs) as Hp. unfold grid_size.
  rewrite (proj2 (Z.leb_le t0 t1) Ht).
  set (d := step_s * second) in *.
  destruct (Z.leb_spec (t0 + d) t1) as [Hle|Hgt].
  - replace (t1 - t0) with ((t1 - (t0 + d)) + 1 * d) by lia.
    rewrite Z.div_add by lia.
    pose proof (Z.div_pos (t1 - (t0 + d)) d ltac:(lia) Hp). lia.
  - rewrite Z.div_small by lia. reflexivity.
Qed.

Lemma grid_nil (t0 t1 step_s : Z) : t1 < t0 -> grid t0 t1 step_s = [].
Proof.
  intros H. unfold grid, grid_size.
  rewrite (proj2 (Z.leb_gt t0 t1) H). reflexivity.
Qed.

Lemma grid_cons (t0 t1 step_s : Z) :
  0 < step_s -> t0 <= t1 ->
  grid t0 t1 step_s = t0 :: grid (t0 + step_s * second) t1 step_s.
Proof.
  intros Hs Ht. unfold grid. rewrite (grid_size_next t0 t1 step_s Hs Ht).
  cbn [seq List.map]. f_equal; [lia|].
  rewrite <- seq_shift, map_map. apply map_ext. intros k. lia.
Qed.

Lemma length_grid (t0 t1 step_s : Z) :
  List.length (grid t0 t1 step_s) = grid_size t0 t1 step_s.
Proof. unfold grid. rewrite length_map, length_seq. reflexivity. Qed.

(** [t += timedelta(seconds=step_s)] adds the step or raises
    [OverflowError]. *)
Lemma advance_Ok (step_s t t' : Z) :
  advance step_s t = Ok t' -> t' = t + step_s * second /\ is_datetime t'.
Proof.
  unfold advance, timedelta_seconds, datetime_add, is_datetime.
  destruct (_ && _); cbn; [|discriminate].
  destruct (_ && _) eqn:E; [|discriminate].
  intros H. injection H as <-. apply andb_prop in E as [E1 E2].
  apply Z.leb_le in E1, E2. lia.
Qed.

Lemma advance_Raise (step_s t : Z) (e : exn) :
  advance step_s t = Raise e -> e = OverflowError.
Proof.
  unfold advance, timedelta_seconds, datetime_add.
  destruct (_ && _); cbn; [|congruence].
  destruct (_ && _); congruence.
Qed.

(** A step between two instants of the [datetime] range is a
    [timedelta], and adding it succeeds. *)
Lemma advance_in_range (step_s t : Z) :
  is_datetime t -> is_datetime (t + step_s * second) ->
  advance step_s t = Ok (t + step_s * second).
Proof.
  unfold is_datetime, datetime_min, datetime_max, second.
  intros Ht Ht'. unfold advance, timedelta_seconds.
  assert (H1 : - max_days <= step_s / 86400).
  { apply Z.div_le_lower_bound; unfold max_days; lia. }
  assert (H2 : step_s / 86400 <= max_days).
  { apply Z.div_le_upper_bound; unfold max_days; lia. }
  rewrite (proj2 (Z.leb_le _ _) H1), (proj2 (Z.leb_le _ _) H2). cbn [andb bind].
  unfold datetime_add, datetime_min, datetime_max, second.
  rewrite (proj2 (Z.leb_le _ _) (proj1 Ht')), (proj2 (Z.leb_le _ _) (proj2 Ht')).
  reflexivity.
Qed.

Lemma datetime_add_in_range (t d : Z) :
  is_datetime (t + d) -> datetime_add t d = Ok (t + d).
Proof.
  intros [H0 H1]. unfold datetime_add.
  rewrite (proj2 (Z.leb_le _ _) H0), (proj2 (Z.leb_le _ _) H1). reflexivity.
Qed.

Lemma datetime_add_out_of_range (t d : Z) :
  t + d < datetime_min \/ datetime_max < t + d ->
  datetime_add t d = Raise OverflowError.
Proof.
  intros [H|H]; unfold datetime_add; rewrite (proj2 (Z.leb_gt _ _) H);
    [|rewrite andb_false_r]; reflexivity.
Qed.

Lemma datetime_add_Raise (t d : Z) (e : exn) :
  datetime_add t d = Raise e -> e = OverflowError.
Proof. unfold datetime_add. destruct (_ && _); congruence. Qed.

Lemma advance_overflow (step_s t : Z) :
  datetime_max < t + step_s * second -> advance step_s t = Raise OverflowError.
Proof.
  intros H. unfold advance, timedelta_seconds, datetime_add.
  destruct (_ && _); cbn [bind]; [|reflexivity].
  rewrite (proj2 (Z.leb_gt _ _) H), andb_false_r. reflexivity.
Qed.

Lemma grid_ending_nil (t0 t1 step_s : Z) :
  t1 < t0 -> grid_ending t0 t1 step_s = Exhausted.
Proof. intros H. unfold grid_ending. rewrite grid_nil by assumption. reflexivity. Qed.

Lemma grid_ending_last (t0 t1 step_s : Z) :
  0 < step_s -> t0 <= t1 -> t1 < t0 + step_s * second ->
  grid_ending t0 t1 step_s
  = match advance step_s t0 with Ok _ => Exhausted | Raise e => Raised e end.
Proof.
  intros Hs Ht Hl. unfold grid_ending.
  rewrite (grid_cons t0 t1 step_s Hs Ht), grid_nil by assumption. reflexivity.
Qed.

Lemma grid_ending_next (t0 t1 step_s : Z) :
  0 < step_s -> t0 + step_s * second <= t1 ->
  grid_ending t0 t1 step_s = grid_ending (t0 + step_s * second) t1 step_s.
Proof.
  intros Hs Ht. pose proof (step_pos _ Hs) as Hp. unfold grid_ending.
  rewrite (grid_cons t0 t1 step_s Hs) by lia. cbn [rev].
  rewrite (grid_cons (t0 + step_s * second) t1 step_s Hs Ht). cbn [rev].
  destruct (rev (grid _ _ _)); reflexivity.
Qed.

(** The generator stops exhausted or with [OverflowError]; exhausted
    when the instant after [t1] is still a [datetime]. *)
Lemma grid_ending_cases (t0 t1 step_s : Z) :
  grid_ending t0 t1 step_s = Exhausted
  \/ grid_ending t0 t1 step_s = Raised OverflowError.
Proof.
  unfold grid_ending. destruct (rev _) as [|t l]; [auto|].
  destruct (advance step_s t) as [t'|e] eqn:E; [auto|].
  right. apply advance_Raise in E. congruence.
Qed.

Lemma grid_ending_room (t0 t1 step_s : Z) :
  0 < step_s -> datetime_min <= t0 -> t1 + step_s * second <= datetime_max ->
  grid_ending t0 t1 step_s = Exhausted.
Proof.
  intros Hs H0 H1. pose proof (step_pos _ Hs) as Hp. unfold grid_ending.
  destruct (rev (grid t0 t1 step_s)) as [|t l] eqn:E; [reflexivity|].
  assert (Hin : In t (grid t0 t1 step_s)).
  { apply in_rev. rewrite E. left. reflexivity. }
  unfold grid in Hin. apply in_map_iff in Hin as [k [<- Hk]].
  apply in_seq in Hk. unfold grid_size in Hk.
  destruct (Z.leb_spec t0 t1) as [Hle|]; [|cbn in Hk; lia].
  assert (Z.of_nat k <= (t1 - t0) / (step_s * second)).
  { pose proof (Z.div_pos (t1 - t0) _ ltac:(lia) Hp). lia. }
  pose proof (Z.mul_div_le (t1 - t0) _ Hp).
  rewrite advance_in_range; [reflexivity| |]; unfold is_datetime; nia.
Qed.

(** With a positive step the generator stops after yielding the grid,
    whatever fuel is left over. *)
Lemma frange_grid (fuel : nat) (t0 t1 step_s : Z) :
  0 < step_s -> datetime_min <= t0 -> t1 <= datetime_max ->
  (grid_size t0 t1 step_s < fuel)%nat ->
  frange fuel t0 t1 step_s
  = Some (grid t0 t1 step_s, grid_ending t0 t1 step_s).
Proof.
  intros Hs H0 H1. pose proof (step_pos _ Hs) as Hp. revert t0 H0.
  induction fuel as [|fuel IH]; intros t0 H0 Hf; [lia|].
  cbn [frange]. unfold frange_next.
  destruct (Z.leb_spec t0 t1) as [Hle|Hgt].
  - rewrite (grid_size_next t0 t1 step_s Hs Hle) in Hf.
    destruct (Z.le_gt_cases (t0 + step_s * second) t1) as [Hn|Hn].
    + rewrite advance_in_range by (unfold is_datetime; lia).
      rewrite IH by lia.
      rewrite (grid_cons t0 t1 step_s Hs Hle), <- grid_ending_next by assumption.
      reflexivity.
    + rewrite (grid_ending_last t0 t1 step_s Hs Hle Hn).
      rewrite (grid_cons t0 t1 step_s Hs Hle), grid_nil by assumption.
      destruct (advance step_s t0) as [t'|e] eqn:E; [|reflexivity].
      apply advance_Ok in E as [-> _].
      destruct fuel; [lia|]. cbn [frange]. unfold frange_next.
      rewrite (proj2 (Z.leb_gt _ _) Hn). reflexivity.
  - rewrite grid_nil, grid_ending_nil by lia. reflexivity.
Qed.

(** An inverted window exhausts the generator at once, for any step. *)
Lemma frange_inverted (fuel : nat) (t0 t1 step_s : Z) :
  t1 < t0 -> frange (S fuel) t0 t1 step_s = Some ([], Exhausted).
Proof.
  intros H. cbn [frange]. unfold frange_next.
  rewrite (proj2 (Z.leb_gt t0 t1) H). reflexivity.
Qed.

(** A step of zero leaves [t] where it is: the generator never stops. *)
Lemma frange_diverges (fuel : nat) (t0 t1 : Z) :
  is_datetime t0 -> t0 <= t1 -> frange fuel t0 t1 0 = None.
Proof.
  intros H0 Ht. induction fuel as [|fuel IH]; [reflexivity|].
  cbn [frange]. unfold frange_next.
  rewrite (proj2 (Z.leb_le t0 t1) Ht).
  rewrite (advance_in_range 0 t0 H0) by (rewrite Z.add_0_r; exact H0).
  rewrite Z.add_0_r, IH. reflexivity.
Qed.

(** A negative step takes [t] down to [datetime.min]: after [n] instants
    at most, the addition raises. *)
Lemma frange_descends (n : nat) (t0 t1 step_s : Z) :
  step_s < 0 -> t0 <= t1 -> datetime_min <= t0 ->
  t0 - datetime_min < Z.of_nat n * - (step_s * second) ->
  exists g,
    hd_error g = Some t0 /\ (List.length g <= n)%nat
    /\ Forall (fun t => datetime_min <= t <= t0) g
    /\ forall fuel, (n <= fuel)%nat ->
         frange fuel t0 t1 step_s = Some (g, Raised OverflowError).
Proof.
  intros Hs. assert (Hp : step_s * second < 0) by (unfold second; lia).
  revert t0. induction n as [|n IH]; intros t0 Ht H0 Hn; [lia|].
  destruct (advance step_s t0) as [t'|e] eqn:E.
  - pose proof E as E'. apply advance_Ok in E' as [-> [Hmin _]].
    destruct (IH (t0 + step_s * second) ltac:(lia) Hmin ltac:(lia))
      as [g [Hhd [Hlen [Hall Hg]]]].
    exists (t0 :: g). split; [reflexivity|]. split; [cbn; lia|]. split.
    + constructor; [lia|]. eapply Forall_impl; [|exact Hall].
      cbv beta. intros t Hb. lia.
    + intros fuel Hf. destruct fuel as [|fuel]; [lia|].
      cbn [frange]. unfold frange_next.
      rewrite (proj2 (Z.leb_le t0 t1) Ht), E, Hg by lia. reflexivity.
  - pose proof (advance_Raise _ _ _ E) as ->.
    exists [t0]. split; [reflexivity|]. split; [cbn; lia|]. split.
    + constructor; [lia|constructor].
    + intros fuel Hf. destruct fuel as [|fuel]; [lia|].
      cbn [frange]. unfold frange_next.
      rewrite (proj2 (Z.leb_le t0 t1) Ht), E. reflexivity.
Qed.

(** With a step that is not positive the generator is never exhausted
    from inside the window. *)
Lemma frange_not_exhausted (fuel : nat) (t0 t1 step_s : Z) (g : list Z) :
  step_s <= 0 -> t0 <= t1 ->
  frange fuel t0 t1 step_s <> Some (g, Exhausted).
Proof.
  intros Hs. assert (Hp : step_s * second <= 0) by (unfold second; lia).
  revert t0 g. induction fuel as [|fuel IH]; intros t0 g Ht; [discriminate|].
  cbn [frange]. unfold frange_next.
  rewrite (proj2 (Z.leb_le t0 t1) Ht).
  destruct (advance step_s t0) as [t'|e] eqn:E; [|discriminate].
  apply advance_Ok in E as [-> _].
  destruct (frange fuel _ _ _) as [[g' e']|] eqn:F; [|discriminate].
  intros H. injection H as <- ->.
  apply (IH (t0 + step_s * second) g' ltac:(lia) F).
Qed.

(** What an exhausted generator has yielded is the grid, and it was
    exhausted because the step is positive or the window inverted. *)
Lemma frange_Some (fuel : nat) (t0 t1 step_s : Z) (g : list Z) :
  frange fuel t0 t1 step_s = Some (g, Exhausted) ->
  g = grid t0 t1 step_s /\ (t1 < t0 \/ 0 < step_s).
Proof.
  intros H. destruct (Z.lt_ge_cases t1 t0) as [Hinv|Hle].
  - destruct fuel; [discriminate|]. rewrite frange_inverted in H by lia.
    injection H as <-. rewrite grid_nil by lia. auto.
  - destruct (Z.lt_ge_cases 0 step_s) as [Hs|Hs].
    + split; [|auto]. revert t0 g H Hle.
      induction fuel as [|fuel IH]; intros t0 g H Hle; [discriminate|].
      cbn [frange] in H. unfold frange_next in H.
      rewrite (proj2 (Z.leb_le t0 t1) Hle) in H.
      destruct (advance step_s t0) as [t'|e] eqn:A; [|discriminate].
      apply advance_Ok in A as [-> _].
      destruct (frange fuel _ _ _) as [[g' e']|] eqn:E; [|discriminate].
      injection H as <- ->. rewrite (grid_cons t0 t1 step_s Hs Hle). f_equal.
      destruct (Z.lt_ge_cases t1 (t0 + step_s * second)) as [Hinv|Hle'].
      * destruct fuel; [discriminate|]. rewrite frange_inverted in E by lia.
        injection E as <-. rewrite grid_nil by lia. reflexivity.
      * apply IH; assumption.
    + exfalso. exact (frange_not_exhausted _ _ _ _ _ Hs Hle H).
Qed.

(** The instants of the grid: the multiples of the step from [t0] on
    that do not exceed [t1]. *)
Lemma in_grid (t0 t1 step_s dt : Z) :
  0 < step_s ->
  (In dt (grid t0 t1 step_s) <->
   exists k, 0 <= k /\ dt = t0 + k * (step_s * second) /\ dt <= t1).
Proof.
  intros Hs. pose proof (step_pos _ Hs) as Hp. unfold grid, grid_size.
  rewrite in_map_iff. split.
  - intros [k [<- Hk]]. apply in_seq in Hk. exists (Z.of_nat k).
    split; [lia|]. split; [reflexivity|].
    destruct (Z.leb_spec t0 t1) as [Hle|]; [|cbn in Hk; lia].
    assert (Z.of_nat k <= (t1 - t0) / (step_s * second)).
    { pose proof (Z.div_pos (t1 - t0) _ ltac:(lia) Hp). lia. }
    pose proof (Z.mul_div_le (t1 - t0) _ Hp). nia.
  - intros [k [Hk [-> Hle]]]. exists (Z.to_nat k). split; [lia|].
    apply in_seq. rewrite (proj2 (Z.leb_le t0 t1)) by nia.
    assert (k <= (t1 - t0) / (step_s * second)).
    { apply Z.div_le_lower_bound; [exact Hp | lia]. }
    lia.
Qed.

(** The grid is strictly increasing. *)
Lemma grid_increasing (t0 t1 step_s : Z) :
  0 < step_s -> StronglySorted Z.lt (grid t0 t1 step_s).
Proof.
  intros Hs. pose proof (step_pos _ Hs) as Hp. unfold grid.
  generalize (grid_size t0 t1 step_s) as n. generalize 0%nat as i.
  intros i n. revert i. induction n as [|n IH]; intros i; cbn; constructor.
  - apply IH.
  - rewrite Forall_forall. intros x Hx. apply in_map_iff in Hx as [k [<- Hk]].
    apply in_seq in Hk. nia.
Qed.

End FrangeFacts.

(** ** The sampling loop *)

Module SamplerFacts.
Section Facts.

Variable Sat : Type.
Variable altaz :
  float64 -> float64 -> float64 -> Sat -> Z -> result (float64 * float64).
Variables (lat lon alt min_el : float64).

Local Abbreviation same := (same_sat Sat).
Local Abbreviation put := (setdefault_append Sat).
Local Abbreviation at_instant := (sample_instant Sat altaz lat lon alt min_el).
Local Abbreviation over := (sample_over altaz lat lon alt min_el).
Local Abbreviation kept_at := (retained_at Sat altaz lat lon alt min_el).
Local Abbreviation kept := (retained Sat altaz lat lon alt min_el).
Local Abbreviation added := (contrib altaz lat lon alt min_el).

Lemma same_refl (k : satobj Sat) : same k k = true.
Proof. apply Nat.eqb_refl. Qed.

Lemma lookup_put (k sat : satobj Sat) (s : sample) (d : dict Sat) :
  lookup k (put sat s d) =
  lookup k d ++ (if same k sat then [s] else []).
Proof.
  unfold same_sat. induction d as [|[k' v] d IH]; cbn.
  - unfold same_sat. destruct (Nat.eqb _ _); reflexivity.
  - unfold same_sat in *. cbn [fst].
    destruct (Nat.eqb_spec (fst sat) (fst k')) as [E1|N1]; cbn;
      unfold same_sat; cbn [fst];
      destruct (Nat.eqb_spec (fst k) (fst k')) as [E2|N2];
      destruct (Nat.eqb_spec (fst k) (fst sat)) as [E3|N3];
      try congruence; try (rewrite app_nil_r; reflexivity);
      try reflexivity; try (rewrite IH; reflexivity);
      rewrite IH, app_nil_r; reflexivity.
Qed.

Lemma ids_put (sat : satobj Sat) (s : sample) (d : dict Sat) :
  ids (put sat s d) =
  if existsb (Nat.eqb (fst sat)) (ids d) then ids d else ids d ++ [fst sat].
Proof.
  induction d as [|[k' v] d IH]; cbn; [reflexivity|].
  unfold same_sat; cbn [fst].
  destruct (Nat.eqb (fst sat) (fst k')); cbn; [reflexivity|].
  fold (ids d). unfold ids in IH |- *. rewrite IH.
  destruct (existsb _ _); reflexivity.
Qed.

Lemma dict_ok_put (sats : list (satobj Sat)) (sat : satobj Sat) (s : sample)
  (d : dict Sat) :
  In sat sats -> dict_ok sats d -> dict_ok sats (put sat s d).
Proof.
  intros Hin [Hnd Hk]. split.
  - rewrite ids_put. destruct (existsb _ _) eqn:E; [assumption|].
    apply NoDup_app; [assumption | repeat constructor; intros [] |].
    intros i Hi [<-|[]].
    assert (existsb (Nat.eqb (fst sat)) (ids d) = true); [|congruence].
    apply existsb_exists. exists (fst sat). split; [assumption|apply Nat.eqb_refl].
  - clear Hnd. induction d as [|[k' v] d IH]; cbn.
    + repeat constructor. assumption.
    + inversion Hk; subst. destruct (same_sat Sat sat k');
        constructor; auto.
Qed.

(** One instant adds, under each key, the retained samples of the
    objects identical to it, in catalog order. *)
Lemma at_instant_lookup (objs : list (satobj Sat)) (dt : Z)
  (v v' : dict Sat) (k : satobj Sat) :
  at_instant objs dt v = Ok v' ->
  lookup k v' = lookup k v ++ added k objs dt.
Proof.
  revert v. induction objs as [|o objs IH]; cbn; intros v H.
  - injection H as <-. rewrite app_nil_r. reflexivity.
  - unfold retained_at.
    destruct (altaz lat lon alt (snd o) dt) as [[el az]|] eqn:E; cbn in H;
      [|discriminate].
    rewrite (IH _ H). destruct (F64.ge el min_el).
    + rewrite lookup_put, <- app_assoc. reflexivity.
    + destruct (same_sat Sat k o); reflexivity.
Qed.

Lemma at_instant_ok (sats objs : list (satobj Sat)) (dt : Z)
  (v v' : dict Sat) :
  incl objs sats -> dict_ok sats v -> at_instant objs dt v = Ok v' ->
  dict_ok sats v'.
Proof.
  revert v. induction objs as [|o objs IH]; cbn; intros v Hi Hv H.
  - injection H as <-. assumption.
  - destruct (altaz lat lon alt (snd o) dt) as [[el az]|]; cbn in H;
      [|discriminate].
    apply (IH _ (fun x Hx => Hi x (or_intror Hx))) in H; [assumption|].
    destruct (F64.ge el min_el); [|assumption].
    apply dict_ok_put; [apply Hi; left; reflexivity | assumption].
Qed.

(** The instant goes through exactly when the library returns for every
    object. *)
Lemma at_instant_returns (objs : list (satobj Sat)) (dt : Z) (v : dict Sat) :
  (exists v', at_instant objs dt v = Ok v') <->
  (forall o, In o objs -> exists r, altaz lat lon alt (snd o) dt = Ok r).
Proof.
  revert v. induction objs as [|o objs IH]; cbn; intros v.
  - split; [intros _ o [] | intros _; eexists; reflexivity].
  - destruct (altaz lat lon alt (snd o) dt) as [[el az]|e] eqn:E; cbn.
    + rewrite IH. split.
      * intros H o' [<-|Ho']; [eexists; eassumption | apply H; assumption].
      * intros H o' Ho'. apply H. right. assumption.
    + split; [intros [v' H]; discriminate|].
      intros H. destruct (H o (or_introl eq_refl)) as [r Hr]. congruence.
Qed.

Lemma over_lookup (objs : list (satobj Sat)) (g : list Z)
  (v v' : dict Sat) (k : satobj Sat) :
  over objs g v = Ok v' ->
  lookup k v' = lookup k v ++ flat_map (added k objs) g.
Proof.
  revert v. induction g as [|dt g IH]; cbn; intros v H.
  - injection H as <-. rewrite app_nil_r. reflexivity.
  - destruct (at_instant objs dt v) as [v1|] eqn:E; cbn in H; [|discriminate].
    rewrite (IH _ H), (at_instant_lookup _ _ _ _ _ E), <- app_assoc.
    reflexivity.
Qed.

Lemma over_ok (objs : list (satobj Sat)) (g : list Z) (v v' : dict Sat) :
  dict_ok objs v -> over objs g v = Ok v' -> dict_ok objs v'.
Proof.
  revert v. induction g as [|dt g IH]; cbn; intros v Hv H.
  - injection H as <-. assumption.
  - destruct (at_instant objs dt v) as [v1|] eqn:E; cbn in H; [|discriminate].
    apply (IH v1); [|assumption].
    eapply at_instant_ok; [apply incl_refl | eassumption | eassumption].
Qed.

Lemma over_returns (objs : list (satobj Sat)) (g : list Z) (v : dict Sat) :
  (exists v', over objs g v = Ok v') <-> returns Sat altaz lat lon alt objs g.
Proof.
  unfold returns. revert v. induction g as [|dt g IH]; cbn; intros v.
  - split; [intros _ ? ? _ [] | intros _; eexists; reflexivity].
  - split.
    + intros [v' H].
      destruct (at_instant objs dt v) as [v1|] eqn:E; cbn in H; [|discriminate].
      intros o t Ho [<-|Ht].
      * apply (proj1 (at_instant_returns objs dt v)); [eexists; eassumption|assumption].
      * apply (proj1 (IH v1)); [eexists; eassumption|assumption|assumption].
    + intros H.
      destruct (proj2 (at_instant_returns objs dt v)) as [v1 E].
      { intros o Ho. apply H; [assumption|left; reflexivity]. }
      rewrite E. cbn. apply IH. intros o t Ho Ht. apply H; [assumption|right; assumption].
Qed.

End Facts.
End SamplerFacts.

Module LoopFacts.
Section Facts.

Variable Sat : Type.
Variable altaz :
  float64 -> float64 -> float64 -> Sat -> Z -> result (float64 * float64).
Variables (lat lon alt : float64) (t1 : Z) (min_el : float64) (step_s : Z).

Local Abbreviation loop :=
  (sample_loop Sat altaz lat lon alt t1 min_el step_s).
Local Abbreviation over := (sample_over altaz lat lon alt min_el).
Local Abbreviation kept_at := (retained_at Sat altaz lat lon alt min_el).
Local Abbreviation kept := (retained Sat altaz lat lon alt min_el).
Local Abbreviation added := (contrib altaz lat lon alt min_el).

Lemma fst_objects (sats : list Sat) :
  List.map fst (objects Sat sats) = seq 0 (List.length sats).
Proof.
  unfold objects. generalize 0%nat as i.
  induction sats as [|s sats IH]; intros i; cbn; [reflexivity|].
  f_equal. apply IH.
Qed.

Lemma NoDup_objects (sats : list Sat) :
  NoDup (List.map fst (objects Sat sats)).
Proof. rewrite fst_objects. apply seq_NoDup. Qed.

Lemma added_other (objs : list (satobj Sat)) (k : satobj Sat) (dt : Z) :
  ~ In (fst k) (List.map fst objs) -> added k objs dt = [].
Proof.
  unfold contrib. induction objs as [|o objs IH]; cbn; intros H; [reflexivity|].
  unfold same_sat at 1. destruct (Nat.eqb_spec (fst k) (fst o)) as [E|N].
  - exfalso. apply H. left. symmetry. assumption.
  - cbn. apply IH. intros Hin. apply H. right. assumption.
Qed.

(** Among objects of distinct identities, a key collects the samples of
    the one object it is. *)
Lemma added_own (objs : list (satobj Sat)) (k : satobj Sat) (dt : Z) :
  NoDup (List.map fst objs) -> In k objs -> added k objs dt = kept_at k dt.
Proof.
  induction objs as [|o objs IH]; intros Hnd Hin; [destruct Hin|].
  cbn in Hnd. inversion Hnd as [|? ? Hno Hnd']; subst.
  change (added k (o :: objs) dt)
    with ((if same_sat Sat k o then kept_at o dt else []) ++ added k objs dt).
  destruct Hin as [->|Hin].
  - rewrite SamplerFacts.same_refl, added_other by assumption.
    apply app_nil_r.
  - unfold same_sat. destruct (Nat.eqb_spec (fst k) (fst o)) as [E|N].
    + exfalso. apply Hno. rewrite <- E. apply in_map. assumption.
    + cbn. apply IH; assumption.
Qed.

Lemma flat_map_added (objs : list (satobj Sat)) (k : satobj Sat)
  (g : list Z) :
  NoDup (List.map fst objs) -> In k objs ->
  flat_map (added k objs) g = kept k g.
Proof.
  intros Hnd Hin. unfold retained.
  induction g as [|dt g IH]; cbn; [reflexivity|].
  rewrite IH, added_own by assumption. reflexivity.
Qed.

(** Starting from the empty dict, each object's entry is what the
    sampler retains of it over the instants. *)
Lemma over_retained (objs : list (satobj Sat)) (g : list Z) (v : dict Sat)
  (k : satobj Sat) :
  NoDup (List.map fst objs) -> In k objs ->
  over objs g [] = Ok v -> lookup k v = kept k g.
Proof.
  intros Hnd Hin H.
  rewrite (SamplerFacts.over_lookup Sat altaz lat lon alt min_el
             objs g [] v k H).
  cbn. apply flat_map_added; assumption.
Qed.

(** The loop consumes what the generator yields, and ends as the
    generator does. *)
Lemma loop_frange (fuel : nat) (objs : list (satobj Sat)) (t : Z)
  (v : dict Sat) (g : list Z) (e : ending) :
  frange fuel t t1 step_s = Some (g, e) ->
  loop fuel objs t v = Some (loop_outcome e (over objs g v)).
Proof.
  revert t v g. induction fuel as [|fuel IH]; intros t v g H; [discriminate|].
  cbn [frange sample_loop] in H |- *.
  destruct (frange_next t1 step_s t) as [[dt [t'|x]]|].
  - destruct (frange fuel t' t1 step_s) as [[g' e']|] eqn:E; [|discriminate].
    injection H as <- <-. cbn [sample_over].
    destruct (sample_instant _ _ _ _ _ _ _ _ _) as [v1|e0]; cbn [bind];
      [apply IH; assumption | reflexivity].
  - injection H as <- <-. cbn [sample_over].
    destruct (sample_instant _ _ _ _ _ _ _ _ _) as [v1|e0]; reflexivity.
  - injection H as <- <-. reflexivity.
Qed.

(** A loop that ends normally has exhausted the generator. *)
Lemma loop_Ok (fuel : nat) (objs : list (satobj Sat)) (t : Z)
  (v v' : dict Sat) :
  loop fuel objs t v = Some (Ok v') ->
  exists g, frange fuel t t1 step_s = Some (g, Exhausted)
            /\ over objs g v = Ok v'.
Proof.
  revert t v. induction fuel as [|fuel IH]; intros t v H; [discriminate|].
  cbn [frange sample_loop] in H |- *.
  destruct (frange_next t1 step_s t) as [[dt [t'|x]]|].
  - destruct (sample_instant _ _ _ _ _ _ _ _ _) as [v1|e] eqn:E;
      [|discriminate].
    destruct (IH _ _ H) as [g [Hg Ho]]. exists (dt :: g).
    rewrite Hg. cbn [sample_over]. rewrite E. cbn [bind]. auto.
  - destruct (sample_instant _ _ _ _ _ _ _ _ _); discriminate.
  - injection H as <-. exists []. auto.
Qed.

(** An exception of the library at an evaluated pair ends the loop. *)
Lemma over_raise (objs : list (satobj Sat)) (g : list Z) (v : dict Sat)
  (o : satobj Sat) (dt : Z) (e : exn) :
  In o objs -> In dt g -> altaz lat lon alt (snd o) dt = Raise e ->
  exists e', over objs g v = Raise e'.
Proof.
  intros Ho Hdt He.
  destruct (over objs g v) as [v'|e'] eqn:E; [|eexists; reflexivity].
  assert (R : returns Sat altaz lat lon alt objs g).
  { apply (proj1 (SamplerFacts.over_returns Sat altaz lat lon alt min_el
                    objs g v)).
    eexists; eassumption. }
  destruct (R o dt Ho Hdt) as [r Hr]. congruence.
Qed.

End Facts.
End LoopFacts.

(** ** The segmentation loop *)

Module SegFacts.

Lemma Sorted_snoc {A} (R : A -> A -> Prop) (c : list A) (p x : A) :
  Sorted R (c ++ [p]) -> R p x -> Sorted R ((c ++ [p]) ++ [x]).
Proof.
  intros Hs Hr. induction c as [|a c IH]; cbn in *.
  - repeat constructor. assumption.
  - apply Sorted_inv in Hs as [Hs Hh]. constructor; [apply IH; assumption|].
    destruct c; cbn in *; inversion Hh; subst; constructor; assumption.
Qed.

Lemma StronglySorted_impl {A} (R S : A -> A -> Prop) (l : list A) :
  (forall a b, R a b -> S a b) -> StronglySorted R l -> StronglySorted S l.
Proof.
  intros H. induction 1 as [|a l Hs IH Ha]; constructor; [assumption|].
  eapply Forall_impl; [|eassumption]. intros b. apply H.
Qed.

Lemma pass_end_snoc (c : list sample) (p : sample) :
  pass_end (c ++ [p]) = s_time p.
Proof. unfold pass_end. rewrite last_last. reflexivity. Qed.

Lemma pass_start_snoc (c : list sample) (p x : sample) :
  pass_start ((c ++ [p]) ++ [x]) = pass_start (c ++ [p]).
Proof. destruct c; reflexivity. Qed.

(** *** The specification's segmenter *)

Lemma concat_passes_from (l cur : list sample) (prev : sample) :
  concat (passes_from cur prev l) = cur ++ l.
Proof.
  revert cur prev. induction l as [|s l IH]; intros cur prev; cbn [passes_from].
  - reflexivity.
  - destruct (_ >? _); cbn; rewrite IH; [reflexivity|].
    rewrite <- app_assoc. reflexivity.
Qed.

(** The pass in progress heads the result, possibly extended. *)
Lemma passes_from_head (l cur : list sample) (prev : sample) :
  exists c rest, passes_from cur prev l = (cur ++ c) :: rest.
Proof.
  revert cur prev. induction l as [|s l IH]; intros cur prev; cbn [passes_from].
  - exists [], []. rewrite app_nil_r. reflexivity.
  - destruct (_ >? _).
    + exists [], (passes_from [s] s l). rewrite app_nil_r. reflexivity.
    + destruct (IH (cur ++ [s]) s) as [c [rest ->]].
      exists (s :: c), rest. rewrite <- app_assoc. reflexivity.
Qed.

(** Every pass is non-empty and has no inner gap above the tolerance. *)
Lemma passes_from_close (l c : list sample) (prev : sample) :
  Sorted close (c ++ [prev]) ->
  Forall (fun p => p <> [] /\ Sorted close p) (passes_from (c ++ [prev]) prev l).
Proof.
  revert c prev. induction l as [|s l IH]; intros c prev Hc; cbn [passes_from].
  - repeat constructor; [destruct c; discriminate | assumption].
  - destruct (Z.gtb_spec (s_time s - s_time prev) gap_tolerance) as [Hg|Hg].
    + constructor; [split; [destruct c; discriminate | assumption]|].
      apply (IH [] s). repeat constructor.
    + apply (IH (c ++ [prev]) s). apply Sorted_snoc; [assumption|].
      unfold close. exact Hg.
Qed.

(** A new pass starts where the gap exceeds the tolerance. *)
Lemma passes_from_gaps (l c : list sample) (prev : sample) :
  Sorted apart (passes_from (c ++ [prev]) prev l).
Proof.
  revert c prev. induction l as [|s l IH]; intros c prev; cbn [passes_from].
  - repeat constructor.
  - destruct (Z.gtb_spec (s_time s - s_time prev) gap_tolerance) as [Hg|Hg].
    + constructor; [apply (IH [] s)|].
      destruct (passes_from_head l [s] s) as [c' [rest ->]].
      constructor. unfold apart. rewrite pass_end_snoc.
      change (pass_start ([s] ++ c')) with (s_time s). lia.
    + apply (IH (c ++ [prev]) s).
Qed.

(** No pass starts before the pass in progress does, when no later
    sample is earlier. *)
Lemma passes_from_start (l c : list sample) (prev : sample) (t : Z) :
  t <= pass_start (c ++ [prev]) -> Forall (fun x => t <= s_time x) l ->
  Forall (fun q => t <= pass_start q) (passes_from (c ++ [prev]) prev l).
Proof.
  revert c prev. induction l as [|s l IH]; intros c prev Ht Hl; cbn [passes_from].
  - repeat constructor. assumption.
  - inversion Hl as [|? ? Hs Hl']; subst.
    destruct (_ >? _).
    + constructor; [assumption|]. apply (IH [] s); assumption.
    + apply (IH (c ++ [prev]) s); [|assumption].
      rewrite pass_start_snoc. assumption.
Qed.

(** On time-ordered samples every two passes are apart, the earlier
    ending more than the tolerance before the later starts. *)
Lemma passes_from_apart (l c : list sample) (prev : sample) :
  StronglySorted (fun a b => s_time a <= s_time b) (prev :: l) ->
  ForallOrdPairs apart (passes_from (c ++ [prev]) prev l).
Proof.
  revert c prev. induction l as [|s l IH]; intros c prev Hs; cbn [passes_from].
  - repeat constructor.
  - apply StronglySorted_inv in Hs as [Hs Hp].
    destruct (Z.gtb_spec (s_time s - s_time prev) gap_tolerance) as [Hg|Hg].
    + constructor; [|apply (IH [] s); assumption].
      pose proof (passes_from_start l [] s (s_time s)) as Hst.
      apply StronglySorted_inv in Hs as [_ Hsl].
      specialize (Hst (Z.le_refl _) Hsl).
      eapply Forall_impl; [|exact Hst]. intros q Hq. cbv beta in Hq.
      unfold apart. rewrite pass_end_snoc. lia.
    + apply (IH (c ++ [prev]) s). assumption.
Qed.

End SegFacts.

Module SegmentFacts.
Import SegFacts.

Lemma segment_spec_close (l : list sample) :
  Forall (fun p => p <> [] /\ Sorted close p) (segment_spec l).
Proof.
  destruct l as [|s l]; [constructor|].
  apply (passes_from_close l [] s). repeat constructor.
Qed.

Lemma segment_spec_gaps (l : list sample) : Sorted apart (segment_spec l).
Proof.
  destruct l as [|s l]; [constructor|]. apply (passes_from_gaps l [] s).
Qed.

Lemma segment_spec_concat (l : list sample) : concat (segment_spec l) = l.
Proof.
  destruct l as [|s l]; [reflexivity|]. apply concat_passes_from.
Qed.

Lemma segment_spec_apart (l : list sample) :
  StronglySorted (fun a b => s_time a <= s_time b) l ->
  ForallOrdPairs apart (segment_spec l).
Proof.
  destruct l as [|s l]; [constructor|]. apply (passes_from_apart l [] s).
Qed.

Lemma time_ordered_strongly (l : list sample) :
  time_ordered l -> StronglySorted (fun a b => s_time a <= s_time b) l.
Proof.
  apply Sorted_StronglySorted. intros a b c. apply Z.le_trans.
Qed.

(** Sorting time-ordered samples by time changes nothing. *)
Lemma sort_by_time_id (l : list sample) :
  time_ordered l -> sort_by_time l = l.
Proof.
  intros H. apply SortFacts.py_sort_sorted_id.
  eapply StronglySorted_impl; [|apply time_ordered_strongly; exact H].
  intros a b Hab. unfold before. apply Z.ltb_ge. exact Hab.
Qed.

Section Code.

Variable Sat : Type.

Local Abbreviation step := (seg_step Sat).
Local Abbreviation spec := (@passes_spec Sat).

(** With a pass in progress, the loop and the final flush produce the
    passes of the specification. *)
Lemma fold_seg (sat : satobj Sat) (l : list sample) (rows : list (row Sat))
  (c : list sample) (prev : sample) :
  flush Sat sat (fold_left (step sat) l (rows, c ++ [prev], Some prev)) =
  rows ++ List.map (pair sat) (passes_from (c ++ [prev]) prev l).
Proof.
  revert rows c prev. induction l as [|s l IH]; intros rows c prev.
  - cbn. destruct c; reflexivity.
  - cbn [fold_left passes_from seg_step].
    destruct (s_time s - s_time prev >? gap_tolerance).
    + replace (truthy (c ++ [prev])) with true by (destruct c; reflexivity).
      cbn [andb app]. rewrite (IH _ [] s). cbn [List.map].
      rewrite <- app_assoc. reflexivity.
    + cbn [andb]. apply (IH rows (c ++ [prev]) s).
Qed.

Lemma segment_sat_spec (rows : list (row Sat))
  (item : satobj Sat * list sample) :
  segment_sat Sat rows item = rows ++ spec item.
Proof.
  destruct item as [sat samples]. unfold segment_sat, passes_spec.
  cbn [fst snd]. destruct (sort_by_time samples) as [|s l].
  - cbn. rewrite app_nil_r. reflexivity.
  - cbn [fold_left seg_step]. cbn [andb app segment_spec].
    apply (fold_seg sat l rows [] s).
Qed.

Lemma segment_all_spec (visible : dict Sat) :
  segment_all Sat visible = flat_map spec visible.
Proof.
  unfold segment_all. change (flat_map spec visible)
    with ([] ++ flat_map spec visible).
  generalize (@nil (row Sat)) as rows.
  induction visible as [|item visible IH]; intros rows; cbn [fold_left flat_map].
  - rewrite app_nil_r. reflexivity.
  - rewrite IH, segment_sat_spec, <- app_assoc. reflexivity.
Qed.

Lemma passes_of_app (k : satobj Sat) (r1 r2 : list (row Sat)) :
  passes_of k (r1 ++ r2) = passes_of k r1 ++ passes_of k r2.
Proof. unfold passes_of. rewrite filter_app, map_app. reflexivity. Qed.

Lemma passes_of_tagged (k o : satobj Sat) (P : list (list sample)) :
  passes_of k (List.map (pair o) P) = if same_sat Sat o k then P else [].
Proof.
  unfold passes_of. induction P as [|p P IH]; cbn [List.map filter fst].
  - destruct (same_sat Sat o k); reflexivity.
  - revert IH. destruct (same_sat Sat o k); intros IH; cbn [List.map snd];
      rewrite IH; reflexivity.
Qed.

Lemma passes_of_spec (k : satobj Sat) (item : satobj Sat * list sample) :
  passes_of k (spec item) =
  if same_sat Sat k (fst item)
  then segment_spec (sort_by_time (snd item)) else [].
Proof.
  unfold passes_spec. rewrite passes_of_tagged. unfold same_sat.
  rewrite Nat.eqb_sym. reflexivity.
Qed.

Lemma passes_of_absent (k : satobj Sat) (visible : dict Sat) :
  ~ In (fst k) (ids visible) -> passes_of k (flat_map spec visible) = [].
Proof.
  induction visible as [|item visible IH]; intros H; [reflexivity|].
  cbn in H. cbn [flat_map].
  rewrite passes_of_app, passes_of_spec, IH by tauto.
  unfold same_sat. destruct (Nat.eqb_spec (fst k) (fst (fst item))); [|reflexivity].
  exfalso. apply H. left. symmetry. assumption.
Qed.

(** The passes of a satellite are those of its own entry of [visible]. *)
Lemma passes_of_visible (k : satobj Sat) (visible : dict Sat) :
  NoDup (ids visible) ->
  passes_of k (flat_map spec visible) =
  segment_spec (sort_by_time (lookup k visible)).
Proof.
  induction visible as [|[k' v] visible IH]; intros Hnd; [reflexivity|].
  cbn in Hnd. inversion Hnd as [|? ? Hno Hnd']; subst.
  cbn [flat_map lookup].
  rewrite passes_of_app, passes_of_spec. cbn [fst snd].
  unfold same_sat at 1 2. destruct (Nat.eqb_spec (fst k) (fst k')) as [E|N].
  - rewrite passes_of_absent; [apply app_nil_r|]. rewrite E. exact Hno.
  - cbn. apply IH. assumption.
Qed.

Lemma rows_of_visible (sats : list (satobj Sat)) (visible : dict Sat) :
  Forall (fun kv => In (fst kv) sats) visible ->
  Forall (fun r : row Sat => In (fst r) sats /\ snd r <> [])
    (flat_map spec visible).
Proof.
  induction 1 as [|item visible Hk _ IH]; cbn; [constructor|].
  apply Forall_app. split; [|assumption].
  unfold passes_spec. rewrite Forall_forall. intros r Hr.
  apply in_map_iff in Hr as [p [<- Hp]]. cbn. split; [assumption|].
  pose proof (segment_spec_close (sort_by_time (snd item))) as Hc.
  rewrite Forall_forall in Hc. apply (Hc p Hp).
Qed.

End Code.
End SegmentFacts.

(** ** The ranking sort *)

Module RankFacts.
Import F64Facts.

Lemma lt_le x y : F64.lt x y = true -> F64.le x y = true.
Proof.
  unfold F64.lt, F64.le. destruct (F64.compare x y) as [[]|]; auto.
Qed.

(** The running maximum of [max()]: an item of the sequence, and not
    below any item when none is NaN. *)
Lemma fold_max (xs : list float64) (x : float64) :
  let m := fold_left (fun m y => if F64.gt y m then y else m) xs x in
  In m (x :: xs) /\
  (Forall (fun y => is_nan y = false) (x :: xs) ->
   Forall (fun y => F64.le y m = true) (x :: xs)).
Proof.
  cbv zeta. revert x. induction xs as [|y xs IH]; intros x; cbn [fold_left].
  - split; [left; reflexivity|]. intros H. inversion H; subst.
    repeat constructor. apply le_refl. assumption.
  - destruct (F64.gt y x) eqn:G.
    + destruct (IH y) as [Hin Hmax]. split; [cbn in *; tauto|].
      intros H. inversion H as [|? ? Hx H']; subst.
      specialize (Hmax H'). inversion Hmax as [|? ? Hy Hxs]; subst.
      constructor; [|assumption].
      apply le_trans with y; [|assumption]. apply lt_le. exact G.
    + destruct (IH x) as [Hin Hmax]. split; [cbn in *; tauto|].
      intros H. inversion H as [|? ? Hx H']; subst.
      inversion H' as [|? ? Hy Hxs']; subst.
      assert (Hmax' := Hmax (Forall_cons _ Hx Hxs')).
      inversion Hmax' as [|? ? Hxm Hrest]; subst.
      constructor; [assumption|]. constructor; [|assumption].
      apply le_trans with x; [|assumption].
      unfold F64.gt in G. rewrite lt_negb_le in G by assumption.
      apply negb_false_iff in G. exact G.
Qed.

Section Facts.

Variable Sat : Type.

Local Abbreviation ltk :=
  (fun a b : float64 * row Sat => F64.lt (fst a) (fst b)).
Local Abbreviation keyed :=
  (fun p : float64 * row Sat =>
     peak Sat (snd p) = Ok (fst p) /\ is_nan (fst p) = false).

Lemma peak_total (r : row Sat) :
  snd r <> [] -> exists k, peak Sat r = Ok k.
Proof.
  unfold peak. destruct (snd r) as [|s l]; [congruence|].
  intros _. cbn. eexists; reflexivity.
Qed.

(** The key of a well-formed row is the largest of its elevations. *)
Lemma peak_max (r : row Sat) :
  well_formed r ->
  exists k, peak Sat r = Ok k /\ is_nan k = false
            /\ In k (List.map s_el (snd r))
            /\ Forall (fun s => F64.le (s_el s) k = true) (snd r).
Proof.
  intros [Hne Hnan]. unfold peak.
  destruct (snd r) as [|s l] eqn:E; [congruence|]. cbn [List.map py_max].
  destruct (fold_max (List.map s_el l) (s_el s)) as [Hin Hmax].
  eexists. split; [reflexivity|].
  assert (Hn : Forall (fun y => is_nan y = false) (s_el s :: List.map s_el l)).
  { change (s_el s :: List.map s_el l) with (List.map s_el (s :: l)).
    rewrite Forall_map. exact Hnan. }
  split; [|split; [exact Hin|]].
  - rewrite Forall_forall in Hn. apply Hn. exact Hin.
  - specialize (Hmax Hn).
    change (s_el s :: List.map s_el l) with (List.map s_el (s :: l)) in Hmax.
    rewrite Forall_map in Hmax. exact Hmax.
Qed.

Lemma snd_combine {A B} (l : list A) (l' : list B) :
  List.length l = List.length l' -> List.map snd (combine l l') = l'.
Proof.
  revert l'. induction l as [|a l IH]; intros [|b l'] H; cbn in *;
    try reflexivity; try discriminate.
  f_equal. apply IH. lia.
Qed.

Lemma Forall2_combine {A B} (R : A -> B -> Prop) (l : list A) (l' : list B) :
  Forall2 R l l' -> Forall (fun p => R (snd p) (fst p)) (combine l' l).
Proof. induction 1; cbn; constructor; assumption. Qed.

(** The ranking returns a permutation of its rows, or raises. *)
Lemma rank_perm (rows out : list (row Sat)) :
  rank Sat rows = Ok out -> Permutation rows out.
Proof.
  unfold rank. destruct (mapM (peak Sat) rows) as [keys|] eqn:E; cbn;
    [|discriminate].
  intros H. injection H as <-.
  apply mapM_inv in E. pose proof (Forall2_length E) as Hlen.
  rewrite <- (snd_combine keys rows) at 1 by lia.
  apply Permutation_map. symmetry. apply SortFacts.py_sort_reverse_perm.
Qed.

Lemma rank_total (rows : list (row Sat)) :
  Forall (fun r => snd r <> []) rows -> exists out, rank Sat rows = Ok out.
Proof.
  intros H. unfold rank.
  destruct (mapM_ok (peak Sat) rows) as [keys [-> _]].
  - rewrite Forall_forall in H. intros r Hr. apply peak_total. auto.
  - cbn. eexists; reflexivity.
Qed.

(** On well-formed rows the ranking leaves no row below a later one. *)
Lemma rank_sorted (rows out : list (row Sat)) :
  Forall well_formed rows -> rank Sat rows = Ok out ->
  StronglySorted peak_ge out.
Proof.
  intros Hwf. unfold rank.
  destruct (mapM (peak Sat) rows) as [keys|] eqn:E; cbn; [|discriminate].
  intros H. injection H as <-. apply mapM_inv in E.
  assert (Hk : Forall keyed (combine keys rows)).
  { apply Forall2_combine with (R := fun r k => peak Sat r = Ok k /\ is_nan k = false).
    clear -E Hwf. induction E as [|r k rows keys Hr _ IH]; constructor.
    - split; [assumption|]. inversion Hwf; subst.
      destruct (peak_max r) as [k' [Hk' [Hn _]]]; [assumption|]. congruence.
    - apply IH. inversion Hwf; assumption. }
  apply SortFacts.StronglySorted_map
    with (R := fun a b => ltk a b = false) (inv := keyed).
  - intros a b [Ha Na] [Hb Nb] Hab. exists (fst a), (fst b).
    split; [assumption|]. split; [assumption|].
    unfold F64.ge. rewrite lt_negb_le in Hab by assumption.
    apply negb_false_iff in Hab. exact Hab.
  - eapply Permutation_Forall; [|exact Hk].
    symmetry. apply SortFacts.py_sort_reverse_perm.
  - apply SortFacts.py_sort_reverse_sorted
      with (dom := fun p => is_nan (fst p) = false).
    + intros x y Nx Ny Hxy. rewrite lt_negb_le by assumption.
      apply negb_false_iff. apply lt_le. exact Hxy.
    + unfold before. intros x y z Nx Ny Nz Hxy Hyz.
      rewrite lt_negb_le in * by assumption.
      apply negb_false_iff in Hxy, Hyz. apply negb_false_iff.
      apply le_trans with (fst y); assumption.
    + eapply Forall_impl; [|exact Hk]. intros p [_ Hn]. exact Hn.
Qed.

End Facts.
End RankFacts.

(** ** The whole run *)

Module RunFacts.

Lemma Permutation_filter {A} (f : A -> bool) (l l' : list A) :
  Permutation l l' -> Permutation (filter f l) (filter f l').
Proof.
  induction 1 as [|x l l' _ IH|x y l|l l' l'' _ IH1 _ IH2]; cbn.
  - constructor.
  - destruct (f x); [constructor|]; assumption.
  - destruct (f x), (f y); try reflexivity. apply perm_swap.
  - eapply Permutation_trans; eassumption.
Qed.

Lemma Permutation_concat {A} (l l' : list (list A)) :
  Permutation l l' -> Permutation (concat l) (concat l').
Proof.
  induction 1 as [|x l l' _ IH|x y l|l l' l'' _ IH1 _ IH2]; cbn.
  - constructor.
  - apply Permutation_app_head. assumption.
  - rewrite !app_assoc. apply Permutation_app_tail. apply Permutation_app_comm.
  - eapply Permutation_trans; eassumption.
Qed.

Lemma ForallOrdPairs_impl {A} (R S : A -> A -> Prop) (l : list A) :
  (forall a b, R a b -> S a b) -> ForallOrdPairs R l -> ForallOrdPairs S l.
Proof.
  intros H. induction 1 as [|a l Ha _ IH]; constructor; [|assumption].
  eapply Forall_impl; [|eassumption]. intros b. apply H.
Qed.

(** A symmetric relation between all pairs survives a reordering. *)
Lemma ForallOrdPairs_perm {A} (R : A -> A -> Prop) (l l' : list A) :
  (forall a b, R a b -> R b a) ->
  Permutation l l' -> ForallOrdPairs R l -> ForallOrdPairs R l'.
Proof.
  intros Hsym. induction 1 as [|x l l' Hp IH|x y l|l l' l'' _ IH1 _ IH2];
    intros H.
  - assumption.
  - inversion H as [|? ? Hx Hl]; subst. constructor; [|apply IH; assumption].
    eapply Permutation_Forall; eassumption.
  - inversion H as [|? ? Hy Hxl]; subst.
    inversion Hxl as [|? ? Hx Hl]; subst.
    inversion Hy as [|? ? Hyx Hyl]; subst.
    constructor; [constructor; [apply Hsym; assumption | assumption]|].
    constructor; assumption.
  - auto.
Qed.

Lemma disjoint_sym (p q : list sample) : disjoint p q -> disjoint q p.
Proof. unfold disjoint. tauto. Qed.

Section Facts.

Variable Sat : Type.
Variable EarthSatellite : str -> str -> str -> result Sat.
Variable altaz :
  float64 -> float64 -> float64 -> Sat -> Z -> result (float64 * float64).
Variables (lat lon alt : float64) (min_el : float64).

Local Abbreviation kept_at := (retained_at Sat altaz lat lon alt min_el).
Local Abbreviation kept := (retained Sat altaz lat lon alt min_el).
Local Abbreviation over := (sample_over altaz lat lon alt min_el).
Local Abbreviation run := (visible_list Sat EarthSatellite altaz).

Lemma kept_at_time (k : satobj Sat) (dt : Z) (s : sample) :
  In s (kept_at k dt) -> s_time s = dt /\ F64.ge (s_el s) min_el = true.
Proof.
  unfold retained_at.
  destruct (altaz lat lon alt (snd k) dt) as [[el az]|]; [|intros []].
  destruct (F64.ge el min_el) eqn:G; [|intros []].
  intros [<-|[]]. auto.
Qed.

Lemma kept_time (k : satobj Sat) (g : list Z) (s : sample) :
  In s (kept k g) -> In (s_time s) g /\ F64.ge (s_el s) min_el = true.
Proof.
  unfold retained. rewrite in_flat_map. intros [dt [Hdt Hs]].
  apply kept_at_time in Hs as [-> Hge]. auto.
Qed.

(** Over increasing instants the retained samples are in increasing
    time order. *)
Lemma kept_increasing (k : satobj Sat) (g : list Z) :
  StronglySorted Z.lt g ->
  StronglySorted (fun a b => s_time a < s_time b) (kept k g).
Proof.
  induction 1 as [|dt g Hs IH Hdt]; cbn; [constructor|].
  apply SortFacts.StronglySorted_app; [| exact IH |].
  - unfold retained_at.
    destruct (altaz lat lon alt (snd k) dt) as [[el az]|]; [|constructor].
    destruct (F64.ge el min_el); repeat constructor.
  - intros a b Ha Hb. apply kept_at_time in Ha as [-> _].
    apply kept_time in Hb as [Hb _]. rewrite Forall_forall in Hdt. auto.
Qed.

Lemma kept_sorted (k : satobj Sat) (g : list Z) :
  StronglySorted Z.lt g -> sort_by_time (kept k g) = kept k g.
Proof.
  intros H. apply SortFacts.py_sort_sorted_id.
  eapply SegFacts.StronglySorted_impl; [|apply kept_increasing; exact H].
  intros a b Hab. unfold before. apply Z.ltb_ge. cbv beta in Hab. lia.
Qed.

(** No retained elevation is NaN. *)
Lemma kept_not_nan (k : satobj Sat) (g : list Z) :
  Forall (fun s => is_nan (s_el s) = false) (kept k g).
Proof.
  rewrite Forall_forall. intros s Hs. apply kept_time in Hs as [_ Hge].
  unfold F64.ge in Hge. apply F64Facts.le_not_nan in Hge. tauto.
Qed.

(** What a run that returns rows went through. *)
Lemma run_Ok (fuel : nat) (f : list str) (start end_ step_s : Z)
  (rows : list (row Sat)) :
  run fuel f lat lon alt start end_ min_el step_s = Some (Ok rows) ->
  exists sats, load_tles Sat EarthSatellite f = Ok sats /\
    ((sats = [] /\ rows = []) \/
     exists g v,
       frange fuel start end_ step_s = Some (g, Exhausted) /\
       over (objects Sat sats) g [] = Ok v /\
       rank Sat (flat_map passes_spec v) = Ok rows).
Proof.
  unfold visible_list.
  destruct (load_tles Sat EarthSatellite f) as [sats|]; [|discriminate].
  intros H. exists sats. split; [reflexivity|].
  destruct sats as [|s sats]; cbn [truthy] in H.
  - left. injection H as <-. auto.
  - right.
    destruct (sample_loop _ _ _ _ _ _ _ _ _ _ _ _) as [[v|]|] eqn:E;
      try discriminate.
    apply LoopFacts.loop_Ok in E as [g [Hg Hv]].
    exists g, v. rewrite <- SegmentFacts.segment_all_spec.
    injection H as H. auto.
Qed.

End Facts.
End RunFacts.

Module PipelineFacts.
Import RunFacts.

Lemma frange_sorted (fuel : nat) (t0 t1 step_s : Z) (g : list Z) :
  frange fuel t0 t1 step_s = Some (g, Exhausted) -> StronglySorted Z.lt g.
Proof.
  intros H. apply FrangeFacts.frange_Some in H as [-> [Hinv|Hs]].
  - rewrite FrangeFacts.grid_nil by assumption. constructor.
  - apply FrangeFacts.grid_increasing. assumption.
Qed.

Lemma dict_ok_nil {Sat} (objs : list (satobj Sat)) : dict_ok objs [].
Proof. split; constructor. Qed.

Section Facts.

Variable Sat : Type.
Variable altaz :
  float64 -> float64 -> float64 -> Sat -> Z -> result (float64 * float64).
Variables (lat lon alt : float64) (min_el : float64).

Local Abbreviation kept := (retained Sat altaz lat lon alt min_el).
Local Abbreviation over := (sample_over altaz lat lon alt min_el).

(** After sampling the catalog over increasing instants, the rows built
    for a satellite are the specification's passes of its retained
    samples. *)
Lemma passes_of_sampled (sats : list Sat) (g : list Z) (v : dict Sat)
  (k : satobj Sat) :
  StronglySorted Z.lt g -> In k (objects Sat sats) ->
  over (objects Sat sats) g [] = Ok v ->
  passes_of k (flat_map passes_spec v) = segment_spec (kept k g).
Proof.
  intros Hg Hk Hv.
  pose proof (SamplerFacts.over_ok Sat altaz lat lon alt min_el _ _ _ _
                (dict_ok_nil _) Hv) as [Hnd _].
  rewrite SegmentFacts.passes_of_visible by assumption.
  rewrite (LoopFacts.over_retained Sat altaz lat lon alt min_el
             _ _ _ _ (LoopFacts.NoDup_objects Sat sats) Hk Hv).
  rewrite kept_sorted by assumption. reflexivity.
Qed.

Lemma rows_sampled (sats : list Sat) (g : list Z) (v : dict Sat) :
  over (objects Sat sats) g [] = Ok v ->
  Forall (fun r : row Sat => In (fst r) (objects Sat sats) /\ snd r <> [])
    (flat_map passes_spec v).
Proof.
  intros Hv.
  pose proof (SamplerFacts.over_ok Sat altaz lat lon alt min_el _ _ _ _
                (dict_ok_nil _) Hv) as [_ Hk].
  apply SegmentFacts.rows_of_visible. assumption.
Qed.

(** Every sample of a row built from the dict is a retained sample of
    the row's satellite. *)
Lemma samples_sampled (sats : list Sat) (g : list Z) (v : dict Sat)
  (r : row Sat) (s : sample) :
  StronglySorted Z.lt g ->
  over (objects Sat sats) g [] = Ok v ->
  In r (flat_map passes_spec v) -> In s (snd r) ->
  In (fst r) (objects Sat sats) /\ In s (kept (fst r) g).
Proof.
  intros Hg Hv Hr Hs.
  pose proof (rows_sampled sats g v Hv) as Hrows.
  rewrite Forall_forall in Hrows. destruct (Hrows r Hr) as [Hobj _].
  split; [assumption|].
  rewrite <- (SegmentFacts.segment_spec_concat (kept (fst r) g)).
  rewrite <- (passes_of_sampled sats g v (fst r) Hg Hobj Hv).
  apply in_concat. exists (snd r). split; [|assumption].
  unfold passes_of. apply in_map. apply filter_In. split; [assumption|].
  apply SamplerFacts.same_refl.
Qed.

End Facts.
End PipelineFacts.

(** ** White space and the lines of the catalog *)

Module StripFacts.

Lemma lstrip_head (s : str) (c : N) (t : str) :
  lstrip s = c :: t -> isspace c = false.
Proof.
  induction s as [|a s IH]; cbn; [discriminate|].
  destruct (isspace a) eqn:E; [exact IH|].
  intros H. injection H as <- _. exact E.
Qed.

Lemma lstrip_fixed (s : str) : isspace (hd 0%N s) = false -> lstrip s = s.
Proof. destruct s as [|a s]; cbn; [reflexivity|]. intros ->. reflexivity. Qed.

Lemma lstrip_idem (s : str) : lstrip (lstrip s) = lstrip s.
Proof.
  destruct (lstrip s) as [|c t] eqn:E; [reflexivity|].
  apply lstrip_fixed. cbn. eapply lstrip_head. exact E.
Qed.

(** White space is only removed in front of the first other character. *)
Lemma lstrip_app (s : str) (c : N) (t : str) :
  isspace c = false -> lstrip (s ++ c :: t) = lstrip s ++ c :: t.
Proof.
  intros Hc. induction s as [|a s IH]; cbn; [rewrite Hc; reflexivity|].
  destruct (isspace a); [exact IH | reflexivity].
Qed.

Lemma rstrip_idem (s : str) : rstrip (rstrip s) = rstrip s.
Proof. unfold rstrip. rewrite rev_involutive, lstrip_idem. reflexivity. Qed.

(** A stripped line that is not empty keeps its first character, which
    is not white space, and ends with one that is not white space. *)
Lemma strip_cons (s : str) (c : N) (u : str) :
  lstrip s = c :: u -> strip s = c :: rstrip u /\ isspace c = false.
Proof.
  intros E. pose proof (lstrip_head _ _ _ E) as Hc. split; [|exact Hc].
  unfold strip, rstrip. rewrite E. cbn [rev].
  rewrite lstrip_app by exact Hc. rewrite rev_app_distr. reflexivity.
Qed.

Lemma strip_idem (s : str) : strip (strip s) = strip s.
Proof.
  destruct (lstrip s) as [|c u] eqn:E.
  - unfold strip. rewrite E. reflexivity.
  - destruct (strip_cons s c u E) as [Hs Hc].
    unfold strip at 1. rewrite lstrip_fixed by (rewrite Hs; exact Hc).
    unfold strip. apply rstrip_idem.
Qed.

Lemma rstrip_last (s : str) : rstrip s <> [] -> isspace (last (rstrip s) 0%N) = false.
Proof.
  unfold rstrip. destruct (lstrip (rev s)) as [|c t] eqn:E;
    [intros H; contradiction H; reflexivity|].
  intros _. cbn [rev]. rewrite last_last. eapply lstrip_head. exact E.
Qed.

(** What [strip] returns is empty or stripped. *)
Lemma strip_stripped (s : str) : truthy (strip s) = true -> stripped (strip s).
Proof.
  intros Ht. assert (Hne : strip s <> []) by (destruct (strip s); [discriminate|congruence]).
  split; [exact Hne|]. split; [apply strip_idem|]. split.
  - destruct (lstrip s) as [|c u] eqn:E.
    + exfalso. apply Hne. unfold strip. rewrite E. reflexivity.
    + destruct (strip_cons s c u E) as [-> Hc]. exact Hc.
  - apply rstrip_last. exact Hne.
Qed.

Lemma stripped_lines_stripped (f : list str) :
  Forall stripped (stripped_lines f).
Proof.
  unfold stripped_lines. rewrite Forall_map, Forall_forall.
  intros ln Hln. apply filter_In in Hln as [_ Ht]. apply strip_stripped. exact Ht.
Qed.

(** Reading the stripped lines again changes nothing. *)
Lemma stripped_lines_idem (f : list str) :
  stripped_lines (stripped_lines f) = stripped_lines f.
Proof.
  pose proof (stripped_lines_stripped f) as H.
  induction H as [|s l [Hne [Hs _]] _ IH]; [reflexivity|].
  assert (Ht : truthy s = true) by (destruct s; [contradiction|reflexivity]).
  unfold stripped_lines in *. cbn [filter]. rewrite Hs, Ht.
  cbn [List.map]. rewrite Hs. f_equal. exact IH.
Qed.

(** [lstrip] and [rstrip] remove white space only, at one end. *)
Lemma lstrip_split (s : str) :
  exists a, s = a ++ lstrip s /\ forallb isspace a = true.
Proof.
  induction s as [|c s [a [E Ha]]]; [exists []; auto|]. cbn [lstrip].
  destruct (isspace c) eqn:Hc.
  - exists (c :: a). cbn. rewrite Hc, Ha, <- E. auto.
  - exists []. auto.
Qed.

Lemma rstrip_split (s : str) :
  exists b, s = rstrip s ++ b /\ forallb isspace b = true.
Proof.
  destruct (lstrip_split (rev s)) as [a [E Ha]]. exists (rev a). split.
  - unfold rstrip. rewrite <- rev_app_distr, <- E, rev_involutive. reflexivity.
  - rewrite forallb_forall in *. intros x Hx. apply Ha, in_rev. exact Hx.
Qed.

Lemma strip_split (s : str) :
  exists a b, s = a ++ strip s ++ b
              /\ forallb isspace a = true /\ forallb isspace b = true.
Proof.
  destruct (lstrip_split s) as [a [Ea Ha]].
  destruct (rstrip_split (lstrip s)) as [b [Eb Hb]].
  exists a, b. unfold strip. rewrite <- Eb, <- Ea. auto.
Qed.

(** A line strips to nothing exactly when it is white space only. *)
Lemma lstrip_blank (s : str) : truthy (lstrip s) = negb (forallb isspace s).
Proof.
  induction s as [|c s IH]; [reflexivity|]. cbn [lstrip forallb].
  destruct (isspace c); [exact IH | reflexivity].
Qed.

Lemma strip_blank (s : str) : truthy (strip s) = negb (forallb isspace s).
Proof.
  rewrite <- lstrip_blank. destruct (lstrip s) as [|c u] eqn:E.
  - unfold strip. rewrite E. reflexivity.
  - destruct (strip_cons s c u E) as [-> _]. reflexivity.
Qed.

Lemma stripped_lines_filter (f : list str) :
  stripped_lines f
  = List.map strip (List.filter (fun ln => negb (forallb isspace ln)) f).
Proof.
  unfold stripped_lines. f_equal. apply filter_ext. intros ln.
  apply strip_blank.
Qed.

(** [s.startswith(p)]: [p] is a prefix of [s]. *)
Lemma startswith_prefix (s p : str) :
  startswith s p = true <-> exists rest, s = p ++ rest.
Proof.
  revert s. induction p as [|a p IH]; intros [|b s]; cbn [startswith app].
  - split; [intros _; exists []; reflexivity | reflexivity].
  - split; [intros _; exists (b :: s); reflexivity | reflexivity].
  - split; [discriminate | intros [r H]; discriminate].
  - rewrite andb_true_iff, N.eqb_eq, IH. split.
    + intros [-> [rest ->]]. exists rest. reflexivity.
    + intros [rest H]. injection H as -> ->. split; [reflexivity|].
      exists rest. reflexivity.
Qed.

(** The white space of [str.isspace]. *)
Lemma isspace_spec (c : N) :
  isspace c = true <->
  (9 <= c <= 13 \/ 28 <= c <= 32 \/ c = 133 \/ c = 160 \/ c = 5760
   \/ 8192 <= c <= 8202 \/ c = 8232 \/ c = 8233 \/ c = 8239 \/ c = 8287
   \/ c = 12288)%N.
Proof.
  unfold isspace. repeat rewrite orb_true_iff. repeat rewrite andb_true_iff.
  repeat rewrite N.leb_le. repeat rewrite N.eqb_eq. tauto.
Qed.

End StripFacts.

(* ================================================================== *)
(** * Part III: the claims                                             *)
(* ================================================================== *)

(** ** The catalog parser *)

(** C5.  The parser works on the lines that are not white space only,
    each with the white space at its two ends removed ([isspace] being
    the white space of Python, and what is removed being white space
    only, up to a first and a last character that are not), in input
    order.  Over these lines it emits, in order, one record per triple
    found by the left-to-right scan: at a triple whose second and third
    line have the prefixes ["1 "] and ["2 "] it emits the triple and
    moves on by three lines, otherwise it moves on by one line; with
    fewer than three lines left it stops.  The records are built by the
    constructor from the two element lines and the name, in the order of
    the scan. *)
Theorem load_tles_scan (Sat : Type)
  (EarthSatellite : str -> str -> str -> result Sat) (f : list str) :
  load_tles Sat EarthSatellite f
  = mapM (record_of Sat EarthSatellite) (scan (stripped_lines f))
  /\ stripped_lines f
     = List.map strip (List.filter (fun ln => negb (forallb isspace ln)) f)
  /\ (forall ln,
        (exists a b, ln = a ++ strip ln ++ b
                     /\ forallb isspace a = true /\ forallb isspace b = true)
        /\ (strip ln = [] \/ stripped (strip ln)))
  /\ (forall c,
        isspace c = true <->
        (9 <= c <= 13 \/ 28 <= c <= 32 \/ c = 133 \/ c = 160 \/ c = 5760
         \/ 8192 <= c <= 8202 \/ c = 8232 \/ c = 8233 \/ c = 8239
         \/ c = 8287 \/ c = 12288)%N)
  /\ (forall name l1 l2 rest,
        scan (name :: l1 :: l2 :: rest)
        = if startswith l1 (str_of "1 ") && startswith l2 (str_of "2 ")
          then (name, l1, l2) :: scan rest
          else scan (l1 :: l2 :: rest))
  /\ (forall a b, scan [] = [] /\ scan [a] = [] /\ scan [a; b] = [])
  /\ (forall s p, startswith s p = true <-> exists rest, s = p ++ rest)
  /\ (forall name l1 l2,
        record_of Sat EarthSatellite (name, l1, l2) = EarthSatellite l1 l2 name)
  /\ mapM (record_of Sat EarthSatellite) [] = Ok []
  /\ (forall t ts,
        mapM (record_of Sat EarthSatellite) (t :: ts)
        = match record_of Sat EarthSatellite t with
          | Raise e => Raise e
          | Ok sat =>
              match mapM (record_of Sat EarthSatellite) ts with
              | Raise e => Raise e
              | Ok sats => Ok (sat :: sats)
              end
          end).
Proof.
  split; [apply ParserFacts.load_tles_mapM|].
  split; [apply StripFacts.stripped_lines_filter|].
  split.
  { intros ln. split; [apply StripFacts.strip_split|].
    destruct (strip ln) as [|c u] eqn:E; [left; reflexivity|].
    right. rewrite <- E. apply StripFacts.strip_stripped.
    rewrite E. reflexivity. }
  split; [apply StripFacts.isspace_spec|].
  split; [intros name l1 l2 rest; reflexivity|].
  split; [intros a b; repeat split|].
  split; [apply StripFacts.startswith_prefix|].
  split; [reflexivity|]. split; [reflexivity|].
  intros t ts. cbn [mapM]. destruct (record_of _ _ t); [|reflexivity].
  cbn [bind]. destruct (mapM _ ts); reflexivity.
Qed.

(** C6, as stated, fails: a triple with both markers and invalid fields
    is handed to the constructor, never skipped.  With a constructor that
    checks the width of the lines the load raises, and the valid record
    that follows is not returned; whatever the constructor does, the
    result is not the empty catalog that skipping would give. *)
Lemma load_tles_malformed_triple :
  load_tles _ Demo.checked Demo.truncated = Raise (LibraryError 0)
  /\ (forall Sat (EarthSatellite : str -> str -> str -> result Sat),
        load_tles Sat EarthSatellite (firstn 3 Demo.truncated) <> Ok []).
Proof.
  split; [reflexivity|]. intros Sat ctor.
  rewrite ParserFacts.load_tles_mapM.
  change (scan (stripped_lines (firstn 3 Demo.truncated)))
    with [(str_of "ALPHA", str_of "1 25544U", str_of "2 25544")].
  cbn [mapM record_of]. destruct (ctor _ _ _); cbn; discriminate.
Qed.

(** C6, amended.  Lines outside marker-carrying triples are skipped
    without error.  When the constructor accepts every triple that the
    scan finds, the load returns, with one record per such triple, in
    order; an empty scan gives the empty catalog. *)
Theorem load_tles_accepting (Sat : Type)
  (EarthSatellite : str -> str -> str -> result Sat) (f : list str) :
  (forall t, In t (scan (stripped_lines f)) ->
     exists s, record_of Sat EarthSatellite t = Ok s) ->
  exists sats,
    load_tles Sat EarthSatellite f = Ok sats
    /\ Forall2 (fun t s => record_of Sat EarthSatellite t = Ok s)
         (scan (stripped_lines f)) sats
    /\ (scan (stripped_lines f) = [] -> sats = []).
Proof.
  intros H. rewrite ParserFacts.load_tles_mapM.
  destruct (mapM_ok _ _ H) as [sats [E F2]]. exists sats.
  split; [assumption|]. split; [assumption|].
  intros Hnil. rewrite Hnil in F2. inversion F2. reflexivity.
Qed.

Lemma load_tles_accepting_witness :
  exists sats,
    load_tles _ Demo.lenient Demo.catalog = Ok sats
    /\ List.length sats = 2%nat.
Proof.
  destruct (load_tles_accepting _ Demo.lenient Demo.catalog) as [sats [E [F2 _]]].
  - intros [[name l1] l2] _. eexists. reflexivity.
  - exists sats. split; [exact E|].
    apply Forall2_length in F2. rewrite <- F2. reflexivity.
Defined.

(** When the constructor raises on a triple of the scan, the load
    raises. *)
Lemma load_tles_rejecting (Sat : Type)
  (EarthSatellite : str -> str -> str -> result Sat) (f : list str)
  (t : str * str * str) (e : exn) :
  In t (scan (stripped_lines f)) ->
  record_of Sat EarthSatellite t = Raise e ->
  exists e', load_tles Sat EarthSatellite f = Raise e'.
Proof.
  intros Hin He. rewrite ParserFacts.load_tles_mapM.
  eapply mapM_raise; eassumption.
Qed.

(** ** The instant generator and the sampler *)

(** C10, as stated, fails in its last sentence: with a negative step
    and [t0 <= t1] the generator does stop.  [t] moves down to the year 1
    and the addition raises [OverflowError]: from the epoch, with a step
    of [-10^10] seconds, after seven instants. *)
Lemma frange_negative_step_stops :
  frange 7 0 0 (-10000000000)
  = Some (List.map (fun k => k * (-10000000000 * second)) [0; 1; 2; 3; 4; 5; 6],
          Raised OverflowError).
Proof. vm_compute. reflexivity. Qed.

(** C10, amended.  For [datetime]s [t0] and [t1].  With a positive step
    the generator stops after yielding the grid:
    [1 + floor((t1 - t0) / step)] instants when [t0 <= t1] (the quotient
    of the microsecond difference by the step in microseconds) and none
    when [t1 < t0].  It stops exhausted, or, when the instant after the
    last one cannot be computed, with [OverflowError]; it is exhausted
    when [t1 + step] is a [datetime], and raises when [t0 + step] is past
    [datetime.max].  The sampling loop over any catalog then ends.  With
    a step of zero and [t0 <= t1] the generator never stops.  With a
    negative step and [t0 <= t1] it yields [t0] and finitely many
    instants below it, then stops with [OverflowError].  The [datetime]
    range is the days 1 to 3652059 of the calendar, the epoch being day
    719163; a [timedelta] has at most 999999999 days. *)
Theorem frange_terminates (t0 t1 step_s : Z) :
  is_datetime t0 -> is_datetime t1 ->
  (0 < step_s ->
   (forall fuel, (grid_size t0 t1 step_s < fuel)%nat ->
      frange fuel t0 t1 step_s
      = Some (grid t0 t1 step_s, grid_ending t0 t1 step_s))
   /\ (t0 <= t1 ->
       Z.of_nat (List.length (grid t0 t1 step_s))
       = 1 + (t1 - t0) / (step_s * second))
   /\ (t1 < t0 ->
       grid t0 t1 step_s = [] /\ grid_ending t0 t1 step_s = Exhausted)
   /\ (grid_ending t0 t1 step_s = Exhausted
       \/ grid_ending t0 t1 step_s = Raised OverflowError)
   /\ (t1 + step_s * second <= datetime_max ->
       grid_ending t0 t1 step_s = Exhausted)
   /\ (t0 <= t1 -> datetime_max < t0 + step_s * second ->
       grid_ending t0 t1 step_s = Raised OverflowError)
   /\ (forall Sat altaz lat lon alt min_el
         (sats : list (satobj Sat)) visible fuel,
         (grid_size t0 t1 step_s < fuel)%nat ->
         exists r, sample_loop Sat altaz lat lon alt t1 min_el step_s
                     fuel sats t0 visible = Some r))
  /\ (step_s = 0 -> t0 <= t1 ->
      forall fuel, frange fuel t0 t1 step_s = None)
  /\ (step_s < 0 -> t0 <= t1 ->
      exists g,
        hd_error g = Some t0
        /\ Forall (fun t => datetime_min <= t <= t0) g
        /\ forall fuel,
             (Z.to_nat ((t0 - datetime_min) / - (step_s * second)) < fuel)%nat ->
             frange fuel t0 t1 step_s = Some (g, Raised OverflowError))
  /\ datetime_min = - (719162 * 86400 * 1000000)
  /\ datetime_max = 2932897 * 86400 * 1000000 - 1
  /\ max_days = 999999999.
Proof.
  intros [H0 H0'] [H1 H1'].
  split; [|split; [|split; [|repeat split]]].
  - intros Hs. pose proof (FrangeFacts.step_pos _ Hs) as Hp.
    split; [|split; [|split; [|split; [|split; [|split]]]]].
    + intros fuel Hf. apply FrangeFacts.frange_grid; assumption.
    + intros Ht. rewrite FrangeFacts.length_grid. unfold grid_size.
      rewrite (proj2 (Z.leb_le t0 t1) Ht).
      pose proof (Z.div_pos (t1 - t0) (step_s * second) ltac:(lia) Hp). lia.
    + intros Ht. split; [apply FrangeFacts.grid_nil; assumption|].
      apply FrangeFacts.grid_ending_nil; assumption.
    + apply FrangeFacts.grid_ending_cases.
    + intros Hr. apply FrangeFacts.grid_ending_room; assumption.
    + intros Ht Hover.
      rewrite (FrangeFacts.grid_ending_last t0 t1 step_s Hs Ht) by lia.
      rewrite FrangeFacts.advance_overflow by assumption. reflexivity.
    + intros Sat altaz lat lon alt min_el sats visible fuel Hf.
      eexists.
      apply (LoopFacts.loop_frange Sat altaz lat lon alt t1 min_el step_s
               fuel sats t0 visible (grid t0 t1 step_s)
               (grid_ending t0 t1 step_s)).
      apply FrangeFacts.frange_grid; assumption.
  - intros -> Ht fuel. apply FrangeFacts.frange_diverges;
      [split|]; assumption.
  - intros Hs Ht.
    assert (Hp : 0 < - (step_s * second)) by (unfold second; lia).
    set (n := Z.to_nat ((t0 - datetime_min) / - (step_s * second))).
    destruct (FrangeFacts.frange_descends (S n) t0 t1 step_s Hs Ht H0)
      as [g [Hhd [_ [Hall Hg]]]].
    { subst n. set (d := - (step_s * second)) in *.
      assert (Hd : 0 <= t0 - datetime_min) by lia.
      pose proof (Z.div_pos (t0 - datetime_min) d Hd Hp).
      pose proof (Z.mod_pos_bound (t0 - datetime_min) d Hp).
      pose proof (Z.div_mod (t0 - datetime_min) d ltac:(lia)).
      rewrite Nat2Z.inj_succ, Z2Nat.id by assumption. nia. }
    exists g. split; [exact Hhd|]. split; [exact Hall|].
    intros fuel Hf. apply Hg. fold n in Hf. lia.
Qed.

Lemma frange_terminates_witness :
  frange 22 0 (Demo.sec 600) 30
  = Some (grid 0 (Demo.sec 600) 30, Exhausted)
  /\ List.length (grid 0 (Demo.sec 600) 30) = 21%nat
  /\ frange 3 (datetime_max - Demo.sec 40) datetime_max 30
     = Some ([datetime_max - Demo.sec 40; datetime_max - Demo.sec 10],
             Raised OverflowError)
  /\ frange 1000 0 (Demo.sec 600) 0 = None.
Proof.
  assert (D0 : is_datetime 0) by (vm_compute; split; discriminate).
  assert (D1 : is_datetime (Demo.sec 600)) by (vm_compute; split; discriminate).
  destruct (frange_terminates 0 (Demo.sec 600) 30 D0 D1) as [Hpos _].
  destruct (frange_terminates 0 (Demo.sec 600) 0 D0 D1) as [_ [Hzero _]].
  destruct (Hpos ltac:(lia)) as [Hg [Hlen [_ [_ [Hroom _]]]]].
  split.
  { rewrite <- Hroom by (vm_compute; discriminate).
    apply Hg. vm_compute. lia. }
  split; [reflexivity|]. split; [vm_compute; reflexivity|].
  apply Hzero; [reflexivity | vm_compute; discriminate].
Defined.

(** C3.  For a window of [datetime]s with [start <= end] and a positive
    step, the generator yields exactly the closed-interval grid: the
    instants [start + k * step], [k = 0, 1, ...], that do not exceed
    [end]; it contains [start], and [end] when [end - start] is a
    multiple of the step.  The sampling loop evaluates every satellite
    at each of these instants and at no other: it ends as the loop over
    the grid does, or, when the generator cannot compute the instant
    after the last one, with the generator's [OverflowError] after the
    last instant has been sampled; the generator is exhausted when
    [end + step] is a [datetime].  What the loop over the grid stores
    for a satellite is, in time order, the sample of each instant whose
    elevation satisfies [el >= min_el], and no other. *)
Theorem sampler_grid (Sat : Type)
  (altaz : float64 -> float64 -> float64 -> Sat -> Z
           -> result (float64 * float64))
  (lat lon alt min_el : float64) (start end_ step_s : Z) :
  is_datetime start -> is_datetime end_ ->
  start <= end_ -> 0 < step_s ->
  let g := grid start end_ step_s in
  (forall fuel, (grid_size start end_ step_s < fuel)%nat ->
     frange fuel start end_ step_s
     = Some (g, grid_ending start end_ step_s)
     /\ forall sats,
          sample_loop Sat altaz lat lon alt end_ min_el step_s fuel
            (objects Sat sats) start []
          = Some (loop_outcome (grid_ending start end_ step_s)
                    (sample_over altaz lat lon alt min_el
                       (objects Sat sats) g [])))
  /\ (grid_ending start end_ step_s = Exhausted
      \/ grid_ending start end_ step_s = Raised OverflowError)
  /\ (end_ + step_s * second <= datetime_max ->
      grid_ending start end_ step_s = Exhausted)
  /\ (forall dt, In dt g <->
        exists k, 0 <= k /\ dt = start + k * (step_s * second) /\ dt <= end_)
  /\ In start g
  /\ ((end_ - start) mod (step_s * second) = 0 -> In end_ g)
  /\ (forall sats visible sat,
        sample_over altaz lat lon alt min_el (objects Sat sats) g []
          = Ok visible ->
        In sat (objects Sat sats) ->
        returns Sat altaz lat lon alt (objects Sat sats) g
        /\ lookup sat visible = retained Sat altaz lat lon alt min_el sat g
        /\ forall s,
             In s (lookup sat visible) <->
             exists dt el az,
               In dt g /\ altaz lat lon alt (snd sat) dt = Ok (el, az)
               /\ F64.ge el min_el = true /\ s = (dt, el, mod_360 az)).
Proof.
  intros [D0 D0'] [D1 D1'] Hw Hs g.
  pose proof (FrangeFacts.step_pos _ Hs) as Hp.
  split; [|split; [|split; [|split; [|split; [|split]]]]].
  - intros fuel Hf.
    pose proof (FrangeFacts.frange_grid fuel start end_ step_s Hs D0 D1' Hf)
      as Hg.
    split; [exact Hg|]. intros sats.
    exact (LoopFacts.loop_frange Sat altaz lat lon alt end_ min_el step_s
             fuel (objects Sat sats) start [] g _ Hg).
  - apply FrangeFacts.grid_ending_cases.
  - intros Hr. apply FrangeFacts.grid_ending_room; assumption.
  - intros dt. apply FrangeFacts.in_grid. assumption.
  - apply FrangeFacts.in_grid; [assumption|]. exists 0. lia.
  - intros Hm. apply FrangeFacts.in_grid; [assumption|].
    exists ((end_ - start) / (step_s * second)). split; [|split; [|lia]].
    + apply Z.div_pos; lia.
    + pose proof (Z.div_mod (end_ - start) (step_s * second) ltac:(lia)).
      lia.
  - intros sats visible sat Hv Hin. split; [|split].
    + apply (proj1 (SamplerFacts.over_returns Sat altaz lat lon alt min_el
                      (objects Sat sats) g [])).
      eexists; eassumption.
    + exact (LoopFacts.over_retained Sat altaz lat lon alt min_el
               _ _ _ _ (LoopFacts.NoDup_objects Sat sats) Hin Hv).
    + intros s.
      rewrite (LoopFacts.over_retained Sat altaz lat lon alt min_el
                 _ _ _ _ (LoopFacts.NoDup_objects Sat sats) Hin Hv).
      unfold retained. rewrite in_flat_map. split.
      * intros [dt [Hdt Hs']]. unfold retained_at in Hs'.
        destruct (altaz lat lon alt (snd sat) dt) as [[el az]|] eqn:E;
          [|destruct Hs'].
        destruct (F64.ge el min_el) eqn:G; [|destruct Hs'].
        destruct Hs' as [<-|[]]. exists dt, el, az. auto.
      * intros [dt [el [az [Hdt [E [G ->]]]]]]. exists dt.
        split; [assumption|]. unfold retained_at. rewrite E, G.
        left. reflexivity.
Qed.

Lemma sampler_grid_witness :
  In (Demo.sec 600) (grid 0 (Demo.sec 600) 30)
  /\ frange 22 0 (Demo.sec 600) 30
     = Some (grid 0 (Demo.sec 600) 30, Exhausted)
  /\ exists visible,
       sample_loop _ Demo.sky zero zero zero (Demo.sec 600) (of_Z 10) 30 22
         (objects _ DemoRuns.records) 0 [] = Some (Ok visible)
       /\ List.map s_time (lookup DemoRuns.bravo visible)
          = [Demo.sec 150; Demo.sec 180]
       /\ forall s, In s (lookup DemoRuns.bravo visible) ->
            F64.ge (s_el s) (of_Z 10) = true.
Proof.
  assert (D0 : is_datetime 0) by (vm_compute; split; discriminate).
  assert (D1 : is_datetime (Demo.sec 600)) by (vm_compute; split; discriminate).
  destruct (sampler_grid _ Demo.sky zero zero zero (of_Z 10)
              0 (Demo.sec 600) 30 D0 D1 ltac:(vm_compute; discriminate)
              ltac:(lia)) as [Hrun [_ [Hroom [_ [_ [Hend Hkept]]]]]].
  specialize (Hroom ltac:(vm_compute; discriminate)).
  destruct (Hrun 22%nat ltac:(vm_compute; lia)) as [Hg Hloop].
  rewrite Hroom in Hg, Hloop.
  split; [apply Hend; reflexivity|]. split; [exact Hg|].
  destruct (sample_over Demo.sky zero zero zero (of_Z 10)
              (objects _ DemoRuns.records) (grid 0 (Demo.sec 600) 30) [])
    as [visible|e] eqn:Hv; [|vm_compute in Hv; discriminate].
  exists visible. split; [rewrite Hloop, Hv; reflexivity|].
  destruct (Hkept DemoRuns.records visible DemoRuns.bravo Hv
              ltac:(right; left; reflexivity)) as [_ [Hlook Hin]].
  split; [rewrite Hlook; vm_compute; reflexivity|].
  intros s Hs. apply Hin in Hs as [dt [el [az [_ [_ [G ->]]]]]]. exact G.
Defined.

(** ** Segmentation and the passes of a run *)

Section Ranked.

Variable Sat : Type.
Variable altaz :
  float64 -> float64 -> float64 -> Sat -> Z -> result (float64 * float64).
Variables (lat lon alt : float64) (min_el : float64).

(** The ranked rows of a sampled catalog: each row belongs to a catalog
    object and is not empty, and the rows of an object are, in some
    order, the specification's passes of its retained samples. *)
Lemma ranked_passes (sats : list Sat) (g : list Z) (v : dict Sat)
  (rows : list (row Sat)) :
  StronglySorted Z.lt g ->
  sample_over altaz lat lon alt min_el (objects Sat sats) g [] = Ok v ->
  rank Sat (flat_map passes_spec v) = Ok rows ->
  Permutation (flat_map passes_spec v) rows
  /\ Forall (fun r : row Sat =>
               In (fst r) (objects Sat sats) /\ snd r <> []) rows
  /\ forall sat, In sat (objects Sat sats) ->
       Permutation (passes_of sat rows)
         (segment_spec (retained Sat altaz lat lon alt min_el sat g)).
Proof.
  intros Hg Hv Hr. pose proof (RankFacts.rank_perm Sat _ _ Hr) as Hp.
  split; [exact Hp|]. split.
  - eapply Permutation_Forall; [exact Hp|].
    eapply PipelineFacts.rows_sampled. exact Hv.
  - intros sat Hin.
    rewrite <- (PipelineFacts.passes_of_sampled Sat altaz lat lon alt min_el
                  sats g v sat Hg Hin Hv).
    unfold passes_of. apply Permutation_map. apply RunFacts.Permutation_filter.
    symmetry. exact Hp.
Qed.

Lemma retained_time_ordered (sat : satobj Sat) (g : list Z) :
  StronglySorted Z.lt g ->
  StronglySorted (fun a b => s_time a <= s_time b)
    (retained Sat altaz lat lon alt min_el sat g).
Proof.
  intros Hg. eapply SegFacts.StronglySorted_impl;
    [|apply RunFacts.kept_increasing; exact Hg].
  intros a b Hab. cbv beta in Hab. lia.
Qed.

End Ranked.


(** C1.  When a run returns rows, then for every satellite of the
    catalog: the samples of its passes are, together, exactly the
    samples that the sampler retains of it over the instants of the
    window, those with [el >= min_el], each once; and of any two of its
    passes one ends more than the tolerance before the other starts.
    Every row belongs to a satellite of the catalog and has at least one
    sample. *)
Theorem passes_partition (Sat : Type)
  (EarthSatellite : str -> str -> str -> result Sat)
  (altaz : float64 -> float64 -> float64 -> Sat -> Z
           -> result (float64 * float64))
  (fuel : nat) (tle_file : list str) (lat lon alt : float64)
  (start end_ : Z) (min_el : float64) (step_s : Z) (rows : list (row Sat)) :
  visible_list Sat EarthSatellite altaz fuel tle_file lat lon alt
    start end_ min_el step_s = Some (Ok rows) ->
  exists sats,
    load_tles Sat EarthSatellite tle_file = Ok sats
    /\ Forall (fun r : row Sat =>
                 In (fst r) (objects Sat sats) /\ snd r <> []) rows
    /\ forall sat, In sat (objects Sat sats) ->
         exists g,
           frange fuel start end_ step_s = Some (g, Exhausted)
           /\ returns Sat altaz lat lon alt (objects Sat sats) g
           /\ Permutation (concat (passes_of sat rows))
                (retained Sat altaz lat lon alt min_el sat g)
           /\ ForallOrdPairs disjoint (passes_of sat rows).
Proof.
  intros H. apply RunFacts.run_Ok in H as [sats [Hl [[-> ->]|H]]].
  - exists []. split; [assumption|]. split; [constructor|]. intros sat [].
  - destruct H as [g [v [Hg [Hv Hr]]]]. exists sats. split; [assumption|].
    pose proof (PipelineFacts.frange_sorted _ _ _ _ _ Hg) as Hs.
    destruct (ranked_passes Sat altaz lat lon alt min_el sats g v rows
                Hs Hv Hr) as [_ [Hrows Hpass]].
    split; [exact Hrows|]. intros sat Hin. exists g.
    split; [exact Hg|]. split; [|split].
    + apply (proj1 (SamplerFacts.over_returns Sat altaz lat lon alt min_el
                      (objects Sat sats) g [])).
      eexists; eassumption.
    + rewrite <- (SegmentFacts.segment_spec_concat
                    (retained Sat altaz lat lon alt min_el sat g)).
      apply RunFacts.Permutation_concat. apply Hpass. assumption.
    + apply RunFacts.ForallOrdPairs_perm
        with (l := segment_spec (retained Sat altaz lat lon alt min_el sat g)).
      * apply RunFacts.disjoint_sym.
      * symmetry. apply Hpass. assumption.
      * eapply RunFacts.ForallOrdPairs_impl;
          [|apply SegmentFacts.segment_spec_apart;
            apply retained_time_ordered; exact Hs].
        intros p q Hpq. left. exact Hpq.
Qed.

Lemma passes_partition_witness :
  exists rows,
    DemoRuns.run Demo.sky 0 (Demo.sec 600) = Some (Ok rows)
    /\ List.length rows = 3%nat
    /\ Forall (fun r => snd r <> []) rows.
Proof.
  eexists. split; [vm_compute; reflexivity|]. split; [reflexivity|].
  match goal with
  | |- Forall _ ?rows =>
      assert (H : visible_list _ Demo.lenient Demo.sky 30 Demo.catalog
                    zero zero zero 0 (Demo.sec 600) (of_Z 10) 30
                  = Some (Ok rows)) by (vm_compute; reflexivity)
  end.
  destruct (passes_partition _ _ _ _ _ _ _ _ _ _ _ _ _ H)
    as [sats [_ [Hrows _]]].
  eapply Forall_impl; [|exact Hrows]. intros r [_ Hne]. exact Hne.
Defined.

(** C2.  On a time-ordered sample list the segmentation loop appends to
    [rows] the passes of the specification's segmenter, tagged with the
    satellite.  These passes are the samples in order, cut exactly where
    a sample comes more than the tolerance of 180 s after its
    predecessor: no pass is empty, inside a pass no sample is more than
    the tolerance after its predecessor, and each pass starts more than
    the tolerance after the end of the pass before it.  A gap equal to
    the tolerance does not cut; the last pass in progress is kept, so one
    sample gives one pass; no sample gives no pass. *)
Theorem segment_time_ordered (Sat : Type) (sat : satobj Sat)
  (rows : list (row Sat)) (samples : list sample) :
  time_ordered samples ->
  segment_sat Sat rows (sat, samples)
  = rows ++ List.map (pair sat) (segment_spec samples)
  /\ concat (segment_spec samples) = samples
  /\ Forall (fun p => p <> [] /\ Sorted close p) (segment_spec samples)
  /\ Sorted apart (segment_spec samples)
  /\ gap_tolerance = 180 * 1000000
  /\ segment_sat Sat rows (sat, []) = rows
  /\ (forall s, segment_sat Sat rows (sat, [s]) = rows ++ [(sat, [s])])
  /\ (forall a b, s_time a <= s_time b ->
        segment_sat Sat rows (sat, [a; b])
        = if s_time b - s_time a >? gap_tolerance
          then rows ++ [(sat, [a]); (sat, [b])]
          else rows ++ [(sat, [a; b])]).
Proof.
  intros Ht.
  assert (Hseg : forall l, time_ordered l ->
            segment_sat Sat rows (sat, l)
            = rows ++ List.map (pair sat) (segment_spec l)).
  { intros l Hl. rewrite SegmentFacts.segment_sat_spec. unfold passes_spec.
    cbn [fst snd]. rewrite SegmentFacts.sort_by_time_id by assumption.
    reflexivity. }
  split; [apply Hseg; assumption|].
  split; [apply SegmentFacts.segment_spec_concat|].
  split; [apply SegmentFacts.segment_spec_close|].
  split; [apply SegmentFacts.segment_spec_gaps|].
  split; [reflexivity|].
  split; [rewrite Hseg by constructor; cbn; apply app_nil_r|].
  split.
  - intros s. rewrite Hseg by (repeat constructor). reflexivity.
  - intros a b Hab. rewrite Hseg by (repeat constructor; assumption).
    cbn [segment_spec passes_from]. destruct (_ >? _); reflexivity.
Qed.

Lemma segment_time_ordered_witness :
  segment_sat _ [] (DemoRuns.alpha, DemoRuns.three)
  = [(DemoRuns.alpha, firstn 2 DemoRuns.three);
     (DemoRuns.alpha, skipn 2 DemoRuns.three)].
Proof.
  destruct (segment_time_ordered _ DemoRuns.alpha [] DemoRuns.three)
    as [H _].
  - repeat constructor; vm_compute; discriminate.
  - rewrite H. reflexivity.
Defined.

(** ** The ranking *)

(** C4.  On rows that each have a sample and no NaN elevation, the
    ranking returns the rows reordered so that no row peaks below a
    later one, the peak of a row being the largest elevation among its
    samples; the result is a function of the input: two evaluations on
    the same rows agree. *)
Theorem rank_sorted_deterministic (Sat : Type) (rows : list (row Sat)) :
  Forall well_formed rows ->
  exists out,
    rank Sat rows = Ok out
    /\ Permutation rows out
    /\ StronglySorted peak_ge out
    /\ (forall out', rank Sat rows = Ok out' -> out' = out)
    /\ Forall (fun r =>
                 exists k, peak Sat r = Ok k
                           /\ In k (List.map s_el (snd r))
                           /\ Forall (fun s => F64.le (s_el s) k = true)
                                (snd r)) out.
Proof.
  intros Hwf.
  destruct (RankFacts.rank_total Sat rows) as [out Hr].
  { eapply Forall_impl; [|exact Hwf]. intros r [Hne _]. exact Hne. }
  exists out. pose proof (RankFacts.rank_perm Sat _ _ Hr) as Hp.
  split; [exact Hr|]. split; [exact Hp|].
  split; [apply (RankFacts.rank_sorted Sat rows); assumption|].
  split; [intros out' Hr'; congruence|].
  eapply Permutation_Forall; [exact Hp|].
  eapply Forall_impl; [|exact Hwf]. intros r Hr0.
  destruct (RankFacts.peak_max Sat r Hr0) as [k [Hk [_ [Hin Hmax]]]].
  exists k. auto.
Qed.

Lemma rank_sorted_deterministic_witness :
  exists out,
    rank _ [(DemoRuns.alpha, firstn 1 DemoRuns.three);
            (DemoRuns.alpha, skipn 1 DemoRuns.three)] = Ok out
    /\ List.map snd out
       = [skipn 1 DemoRuns.three; firstn 1 DemoRuns.three].
Proof.
  destruct (rank_sorted_deterministic _
              [(DemoRuns.alpha, firstn 1 DemoRuns.three);
               (DemoRuns.alpha, skipn 1 DemoRuns.three)])
    as [out [Hr _]].
  - repeat constructor; discriminate.
  - exists out. split; [exact Hr|].
    vm_compute in Hr. injection Hr as <-. reflexivity.
Defined.

(** ** Failures of the library *)



(** ** The command line *)

(** C8, as stated, fails: [main] never compares [start] with [end].
    With [--start 600Z --end 0Z] the program loads the catalog, samples
    no instant and ends with the normal "no results" outcome; that the
    catalog is loaded shows on a catalog the constructor rejects, where
    the run ends with the constructor's exception. *)
Lemma inverted_window_no_usage_error :
  DemoRuns.cli Demo.lenient 1 (DemoRuns.inverted Demo.catalog)
  = Some NoResults
  /\ DemoRuns.cli Demo.checked 1 (DemoRuns.inverted Demo.truncated)
     = Some (Uncaught (LibraryError 0)).
Proof. split; vm_compute; reflexivity. Qed.

(** C8, amended.  For arguments with an explicit window whose end is
    before its start and with a location, no usage error is raised: the
    catalog is loaded, the generator yields no instant, and the run ends
    with the "no results" outcome, or with the exception of the catalog
    load. *)
Theorem inverted_window_runs (Sat : Type)
  (EarthSatellite : str -> str -> str -> result Sat)
  (altaz : float64 -> float64 -> float64 -> Sat -> Z
           -> result (float64 * float64))
  (fromisoformat : str -> result Z) (utc_now : Z)
  (fetch_location_from_dish : result (float64 * float64 * float64))
  (args : Args) (s e : str) (start end_ : Z)
  (site : float64 * float64 * float64) (fuel : nat) :
  a_now args = false ->
  a_start args = Some s -> a_end args = Some e ->
  truthy s = true -> truthy e = true ->
  parse_iso_z fromisoformat s = Ok start ->
  parse_iso_z fromisoformat e = Ok end_ ->
  end_ < start ->
  location Sat fetch_location_from_dish args = inr site ->
  time_window Sat fromisoformat utc_now args = inr (start, end_)
  /\ frange (S fuel) start end_ (a_step_s args) = Some ([], Exhausted)
  /\ main Sat EarthSatellite altaz fromisoformat utc_now
       fetch_location_from_dish (S fuel) (Parsed args)
     = Some (match load_tles Sat EarthSatellite (a_tle_file args) with
             | Ok _ => NoResults
             | Raise x => Uncaught x
             end).
Proof.
  intros Hnow Hs He Ts Te Ps Pe Hinv Hloc.
  assert (Hw : time_window Sat fromisoformat utc_now args
               = inr (start, end_)).
  { unfold time_window. rewrite Hnow, Hs, He, Ts, Te, Ps, Pe. reflexivity. }
  split; [exact Hw|].
  split; [apply FrangeFacts.frange_inverted; assumption|].
  cbn [main]. rewrite Hw, Hloc. destruct site as [[lat lon] alt].
  unfold visible_list.
  destruct (load_tles Sat EarthSatellite (a_tle_file args)) as [sats|x];
    [|reflexivity].
  destruct sats as [|sat sats]; [reflexivity|]. cbn [truthy].
  cbn [sample_loop]. unfold frange_next.
  rewrite (proj2 (Z.leb_gt start end_) Hinv). reflexivity.
Qed.

Lemma inverted_window_runs_witness :
  DemoRuns.cli Demo.lenient 5 (DemoRuns.inverted Demo.catalog)
  = Some NoResults.
Proof.
  destruct (inverted_window_runs _ Demo.lenient Demo.sky DemoRuns.iso 0
              (Raise (LibraryError 2)) (DemoRuns.inverted Demo.catalog)
              (str_of "600Z") (str_of "0Z") (Demo.sec 600) 0
              (zero, zero, zero) 4
              eq_refl eq_refl eq_refl eq_refl eq_refl eq_refl eq_refl
              ltac:(vm_compute; reflexivity) eq_refl) as [_ [_ H]].
  unfold DemoRuns.cli. rewrite H.
  replace (load_tles _ Demo.lenient
             (a_tle_file (DemoRuns.inverted Demo.catalog)))
    with (Ok [(str_of "ALPHA", str_of "1 aaa", str_of "2 aaa");
              (str_of "BRAVO", str_of "1 bbb", str_of "2 bbb")])
    by (vm_compute; reflexivity).
  reflexivity.
Defined.

(** ** Azimuth *)

(** C9.  skyfield computes the azimuth as [arctan2(y, x) % tau] and
    converts it to degrees: the raw azimuth of a sample that has an
    elevation is a finite number that is not negative.  Then every
    sample of every row of a run carries an azimuth [az] with
    [0 <= az < 360]: it is [raw % 360.0] for the raw azimuth that the
    library returned for the row's satellite at the sample's instant,
    and a raw azimuth that equals an integer multiple of 360, 360.0
    itself included, gives zero. *)
Theorem azimuth_range (Sat : Type)
  (EarthSatellite : str -> str -> str -> result Sat)
  (altaz : float64 -> float64 -> float64 -> Sat -> Z
           -> result (float64 * float64))
  (fuel : nat) (tle_file : list str) (lat lon alt : float64)
  (start end_ : Z) (min_el : float64) (step_s : Z) (rows : list (row Sat))
  (r : row Sat) (s : sample) :
  (forall sat dt el raw,
     altaz lat lon alt sat dt = Ok (el, raw) -> F64.ge el min_el = true ->
     exists m e, raw = Fin m e /\ 0 <= m) ->
  visible_list Sat EarthSatellite altaz fuel tle_file lat lon alt
    start end_ min_el step_s = Some (Ok rows) ->
  In r rows -> In s (snd r) ->
  in_range (s_az s)
  /\ F64.eq (s_az s) f360 = false
  /\ exists el raw,
       altaz lat lon alt (snd (fst r)) (s_time s) = Ok (el, raw)
       /\ s_el s = el /\ F64.ge el min_el = true
       /\ s_az s = mod_360 raw
       /\ (forall k, F64.eq raw (of_Z (360 * k)) = true -> s_az s = zero).
Proof.
  intros Hlib H Hr Hs.
  apply RunFacts.run_Ok in H as [sats [_ [[_ ->]|H]]]; [destruct Hr|].
  destruct H as [g [v [Hg [Hv Hrank]]]].
  pose proof (PipelineFacts.frange_sorted _ _ _ _ _ Hg) as Hsorted.
  pose proof (RankFacts.rank_perm Sat _ _ Hrank) as Hp.
  apply (Permutation_in _ (Permutation_sym Hp)) in Hr.
  destruct (PipelineFacts.samples_sampled Sat altaz lat lon alt min_el
              sats g v r s Hsorted Hv Hr Hs) as [_ Hk].
  unfold retained in Hk. apply in_flat_map in Hk as [dt [_ Hk]].
  unfold retained_at in Hk.
  destruct (altaz lat lon alt (snd (fst r)) dt) as [[el raw]|] eqn:E;
    [|destruct Hk].
  destruct (F64.ge el min_el) eqn:G; [|destruct Hk].
  destruct Hk as [<-|[]]. cbn [s_time s_el s_az fst snd].
  destruct (Hlib _ _ _ _ E G) as [m [e [-> Hm]]].
  pose proof (Azimuth.mod_360_nonneg m e Hm) as Hin.
  split; [exact Hin|]. split.
  - destruct Hin as [_ Hlt]. apply Azimuth.lt_not_eq. exact Hlt.
  - exists el, (Fin m e). split; [exact E|]. split; [reflexivity|].
    split; [exact G|]. split; [reflexivity|].
    intros k Hk. apply Azimuth.mod_360_multiple_eq with (k := k). exact Hk.
Qed.

Lemma azimuth_range_witness :
  exists rows r s,
    DemoRuns.run Demo.sky 0 (Demo.sec 600) = Some (Ok rows)
    /\ In r rows /\ In s (snd r) /\ in_range (s_az s).
Proof.
  pose (s := (Demo.sec 150, of_Z 50, of_Z 5) : sample).
  pose (r := (DemoRuns.bravo,
              [s; (Demo.sec 180, of_Z 50, of_Z 5)]) : row (str * str * str)).
  assert (Hrun : exists rest,
            visible_list _ Demo.lenient Demo.sky 30 Demo.catalog
              zero zero zero 0 (Demo.sec 600) (of_Z 10) 30
            = Some (Ok (r :: rest))).
  { eexists. vm_compute. reflexivity. }
  destruct Hrun as [rest Hrun].
  exists (r :: rest), r, s.
  split; [exact Hrun|].
  split; [left; reflexivity|].
  split; [left; reflexivity|].
  assert (Hlib : forall sat dt el raw,
            Demo.sky zero zero zero sat dt = Ok (el, raw) ->
            F64.ge el (of_Z 10) = true -> exists m e, raw = Fin m e /\ 0 <= m).
  { intros [[name l1] l2] dt el raw. unfold Demo.sky.
    destruct (_ && _); intros E _; injection E as _ <-;
      eexists; eexists; (split; [reflexivity|lia]). }
  destruct (azimuth_range _ _ _ _ _ _ _ _ _ _ _ _ _ r s Hlib Hrun
              (or_introl eq_refl) (or_introl eq_refl)) as [Hin _].
  exact Hin.
Defined.

(* ================================================================== *)
(** * Part IV: further properties of the code                          *)
(* ================================================================== *)

(** ** More on the catalog scan *)

Module ScanFacts.

Lemma list_len_ind {A} (P : list A -> Prop) :
  (forall l, (forall l', (List.length l' < List.length l)%nat -> P l') -> P l) ->
  forall l, P l.
Proof.
  intros H l.
  assert (Hn : forall n l', (List.length l' < n)%nat -> P l').
  { induction n as [|n IH]; intros l' Hl; [lia|].
    apply H. intros l'' Hl''. apply IH. lia. }
  apply (Hn (S (List.length l))). lia.
Qed.

(** One step of the scan, on any list. *)
Lemma scan_cases (l : list str) :
  (exists name l1 l2 rest,
     l = name :: l1 :: l2 :: rest
     /\ ((markers l1 l2 = true /\ scan l = (name, l1, l2) :: scan rest)
         \/ (markers l1 l2 = false /\ scan l = scan (l1 :: l2 :: rest))))
  \/ ((List.length l < 3)%nat /\ scan l = []).
Proof.
  destruct l as [|name [|l1 [|l2 rest]]];
    try (right; split; [cbn; lia | reflexivity]).
  left. exists name, l1, l2, rest. split; [reflexivity|].
  destruct (markers l1 l2) eqn:E.
  - left. split; [reflexivity|]. apply ParserFacts.scan_hit. exact E.
  - right. split; [reflexivity|]. apply ParserFacts.scan_miss. exact E.
Qed.

(** Every triple of the scan is made of lines of the input and carries
    both markers. *)
Lemma scan_In (l : list str) (name l1 l2 : str) :
  In (name, l1, l2) (scan l) ->
  In name l /\ In l1 l /\ In l2 l /\ markers l1 l2 = true.
Proof.
  induction l as [l IH] using list_len_ind.
  destruct (scan_cases l) as [[n [a [b [rest [-> [[Hm ->]|[Hm ->]]]]]]]|[_ ->]].
  - intros [E|Hin].
    + injection E as -> -> ->. cbn. tauto.
    + destruct (IH rest ltac:(cbn; lia) Hin) as [H1 [H2 [H3 H4]]].
      cbn. tauto.
  - intros Hin.
    destruct (IH (a :: b :: rest) ltac:(cbn; lia) Hin) as [H1 [H2 [H3 H4]]].
    cbn in *. tauto.
  - intros [].
Qed.

(** The triples do not overlap: a record takes three lines. *)
Lemma scan_length (l : list str) :
  (3 * List.length (scan l) <= List.length l)%nat.
Proof.
  induction l as [l IH] using list_len_ind.
  destruct (scan_cases l) as [[n [a [b [rest [-> [[Hm ->]|[Hm ->]]]]]]]|[_ ->]].
  - specialize (IH rest ltac:(cbn; lia)). cbn [List.length]. lia.
  - specialize (IH (a :: b :: rest) ltac:(cbn; lia)). cbn [List.length] in *. lia.
  - cbn. lia.
Qed.

Lemma starts_1_not_2 (s : str) :
  startswith s (str_of "1 ") = true -> startswith s (str_of "2 ") = false.
Proof.
  destruct s as [|c s]; [discriminate|]. cbn [startswith str_of
    list_ascii_of_string List.map]. intros H.
  apply andb_true_iff in H as [H _]. apply N.eqb_eq in H. subst c.
  reflexivity.
Qed.

(** Lines without the first marker hold no record. *)
Lemma scan_strays (l : list str) : Forall (fun s => stray s = true) l -> scan l = [].
Proof.
  induction l as [l IH] using list_len_ind. intros Hs.
  destruct (scan_cases l) as [[n [a [b [rest [-> [[Hm _]|[Hm ->]]]]]]]|[_ ->]];
    [| |reflexivity].
  - exfalso. inversion Hs as [|? ? _ Hs']; subst.
    inversion Hs' as [|? ? Ha _]; subst. unfold stray in Ha.
    unfold markers in Hm. apply andb_true_iff in Hm as [Hm _].
    rewrite Hm in Ha. discriminate.
  - apply IH; [cbn; lia|]. inversion Hs; assumption.
Qed.

(** Stray lines in front of a record are dropped one by one. *)
Lemma scan_skip_strays (strays : list str) (name l1 l2 : str)
  (rest : list str) :
  Forall (fun s => stray s = true) strays ->
  startswith l1 (str_of "1 ") = true ->
  scan (strays ++ name :: l1 :: l2 :: rest) = scan (name :: l1 :: l2 :: rest).
Proof.
  intros Hs H1. induction Hs as [|s strays Hst Hs IH]; [reflexivity|].
  cbn [app]. rewrite <- IH.
  destruct strays as [|s2 [|s3 strays]]; cbn [app].
  - apply ParserFacts.scan_miss. unfold markers.
    rewrite (starts_1_not_2 _ H1). apply andb_false_r.
  - apply ParserFacts.scan_miss. unfold markers.
    inversion Hs as [|? ? H2 _]; subst. unfold stray in H2.
    apply negb_true_iff in H2. rewrite H2. reflexivity.
  - apply ParserFacts.scan_miss. unfold markers.
    inversion Hs as [|? ? H2 _]; subst. unfold stray in H2.
    apply negb_true_iff in H2. rewrite H2. reflexivity.
Qed.

Lemma scan_with_strays (groups : list (list str * (str * str * str)))
  (trailing : list str) :
  Forall (fun g => Forall (fun s => stray s = true) (fst g)
                   /\ markers (snd (fst (snd g))) (snd (snd g)) = true)
         groups ->
  Forall (fun s => stray s = true) trailing ->
  scan (with_strays groups trailing) = List.map snd groups.
Proof.
  intros Hg Ht. induction Hg as [|[strays [[name l1] l2]] groups [Hs Hm] _ IH].
  - cbn. apply scan_strays. exact Ht.
  - cbn [with_strays triple_lines List.map snd fst app] in *.
    assert (H1 : startswith l1 (str_of "1 ") = true).
    { unfold markers in Hm. apply andb_true_iff in Hm. tauto. }
    rewrite scan_skip_strays by assumption.
    rewrite (ParserFacts.scan_hit _ _ _ _ Hm). f_equal. exact IH.
Qed.

Lemma every_other_step (a b : str * str) (rest : list (str * str)) :
  every_other (a :: b :: rest) = (snd a, fst b, snd b) :: every_other rest.
Proof. reflexivity. Qed.

Lemma scan_nameless (pairs : list (str * str)) :
  Forall (fun p => startswith (fst p) (str_of "1 ") = true
                   /\ startswith (snd p) (str_of "2 ") = true) pairs ->
  scan (nameless pairs) = every_other pairs.
Proof.
  induction pairs as [pairs IH] using list_len_ind. intros H.
  destruct pairs as [|[a1 a2] [|[b1 b2] rest]]; [reflexivity|reflexivity|].
  inversion H as [|? ? [Ha1 Ha2] H']; subst.
  inversion H' as [|? ? [Hb1 Hb2] H'']; subst. cbn [fst snd] in *.
  rewrite every_other_step. cbn [fst snd].
  change (nameless ((a1, a2) :: (b1, b2) :: rest))
    with (a1 :: a2 :: b1 :: b2 :: nameless rest).
  rewrite ParserFacts.scan_miss.
  - rewrite ParserFacts.scan_hit
      by (unfold markers; rewrite Hb1, Hb2; reflexivity).
    f_equal. apply IH; [cbn; lia | exact H''].
  - unfold markers. destruct (startswith a2 (str_of "1 ")) eqn:E; [|reflexivity].
    apply starts_1_not_2 in E. congruence.
Qed.

End ScanFacts.

(** X1.  Every triple that the scan of a file finds, and so every triple
    the constructor is called on, is made of three lines of the file as
    [strip] leaves them: not empty, without white space at either end,
    the second starting with ["1 "] and the third with ["2 "]. *)
Theorem constructor_arguments_stripped (f : list str) (name l1 l2 : str) :
  In (name, l1, l2) (scan (stripped_lines f)) ->
  stripped name /\ stripped l1 /\ stripped l2
  /\ In name (List.map strip f) /\ In l1 (List.map strip f)
  /\ In l2 (List.map strip f)
  /\ startswith l1 (str_of "1 ") = true
  /\ startswith l2 (str_of "2 ") = true.
Proof.
  intros H. apply ScanFacts.scan_In in H as [Hn [H1 [H2 Hm]]].
  pose proof (StripFacts.stripped_lines_stripped f) as Hs.
  rewrite Forall_forall in Hs.
  assert (Hsub : forall x, In x (stripped_lines f) -> In x (List.map strip f)).
  { unfold stripped_lines. intros x Hx. apply in_map_iff in Hx as [y [<- Hy]].
    apply in_map. apply filter_In in Hy. tauto. }
  unfold markers in Hm. apply andb_true_iff in Hm as [Hm1 Hm2].
  repeat split; auto; try (apply Hs; assumption).
Qed.

Lemma constructor_arguments_stripped_witness :
  stripped (str_of "ALPHA") /\ In (str_of "ALPHA") (List.map strip Demo.catalog).
Proof.
  destruct (constructor_arguments_stripped Demo.catalog
              (str_of "ALPHA") (str_of "1 aaa") (str_of "2 aaa"))
    as [H [_ [_ [Hin _]]]].
  - vm_compute. left. reflexivity.
  - split; assumption.
Defined.

(** X2.  A record takes three lines: a load that returns gives at most
    one record per three non-blank lines of the file. *)
Theorem load_tles_count (Sat : Type)
  (EarthSatellite : str -> str -> str -> result Sat) (f : list str)
  (sats : list Sat) :
  load_tles Sat EarthSatellite f = Ok sats ->
  (3 * List.length sats <= List.length (stripped_lines f))%nat
  /\ (List.length (stripped_lines f) <= List.length f)%nat.
Proof.
  intros H. rewrite ParserFacts.load_tles_mapM in H.
  apply mapM_inv in H. apply Forall2_length in H. split.
  - rewrite <- H. apply ScanFacts.scan_length.
  - unfold stripped_lines. rewrite length_map. apply filter_length_le.
Qed.

Lemma load_tles_count_witness :
  exists sats,
    load_tles _ Demo.lenient Demo.catalog = Ok sats
    /\ (3 * List.length sats <= 8)%nat.
Proof.
  eexists. split; [vm_compute; reflexivity|].
  match goal with
  | |- (3 * List.length ?sats <= _)%nat =>
      assert (H : load_tles _ Demo.lenient Demo.catalog = Ok sats)
        by (vm_compute; reflexivity)
  end.
  apply load_tles_count in H as [H _]. exact H.
Defined.

(** X3.  Stray lines are tolerated: when the non-blank lines are records
    (name line, line starting with ["1 "], line starting with ["2 "])
    with, before each record and after the last, any number of lines
    that do not start with ["1 "], the constructor is called on exactly
    the records, in order.  A name line may be anything. *)
Theorem load_tles_tolerates_strays (Sat : Type)
  (EarthSatellite : str -> str -> str -> result Sat) (f : list str)
  (groups : list (list str * (str * str * str))) (trailing : list str) :
  stripped_lines f = with_strays groups trailing ->
  Forall (fun g => Forall (fun s => stray s = true) (fst g)
                   /\ markers (snd (fst (snd g))) (snd (snd g)) = true)
         groups ->
  Forall (fun s => stray s = true) trailing ->
  load_tles Sat EarthSatellite f
  = mapM (record_of Sat EarthSatellite) (List.map snd groups).
Proof.
  intros Hf Hg Ht. rewrite ParserFacts.load_tles_mapM, Hf.
  rewrite ScanFacts.scan_with_strays by assumption. reflexivity.
Qed.

Lemma load_tles_tolerates_strays_witness :
  load_tles _ Demo.lenient DemoCatalogs.commented
  = Ok [(str_of "ALPHA", str_of "1 aaa", str_of "2 aaa");
        (str_of "BRAVO", str_of "1 bbb", str_of "2 bbb")].
Proof.
  rewrite (load_tles_tolerates_strays _ Demo.lenient DemoCatalogs.commented
             [([str_of "# header"; str_of "## more"],
               (str_of "ALPHA", str_of "1 aaa", str_of "2 aaa"));
              ([str_of "# next"],
               (str_of "BRAVO", str_of "1 bbb", str_of "2 bbb"))]
             [str_of "# end"]).
  - reflexivity.
  - vm_compute. reflexivity.
  - repeat constructor.
  - repeat constructor.
Defined.

(** X4.  A catalog without name lines loses satellites: when the
    non-blank lines are element sets only (a line starting with ["1 "],
    then a line starting with ["2 "]), the constructor is called on
    every second element set only, with the second line of the element
    set before it as the name. *)
Theorem load_tles_nameless (Sat : Type)
  (EarthSatellite : str -> str -> str -> result Sat) (f : list str)
  (pairs : list (str * str)) :
  stripped_lines f = nameless pairs ->
  Forall (fun p => startswith (fst p) (str_of "1 ") = true
                   /\ startswith (snd p) (str_of "2 ") = true) pairs ->
  load_tles Sat EarthSatellite f
  = mapM (record_of Sat EarthSatellite) (every_other pairs)
  /\ List.length (every_other pairs) = Nat.div2 (List.length pairs).
Proof.
  intros Hf Hp. split.
  - rewrite ParserFacts.load_tles_mapM, Hf, ScanFacts.scan_nameless
      by assumption. reflexivity.
  - clear. induction pairs as [pairs IH] using ScanFacts.list_len_ind.
    destruct pairs as [|a [|b rest]]; [reflexivity|reflexivity|].
    rewrite ScanFacts.every_other_step. cbn [List.length Nat.div2].
    f_equal. apply IH. cbn. lia.
Qed.

Lemma load_tles_nameless_witness :
  load_tles _ Demo.lenient DemoCatalogs.two_line
  = Ok [(str_of "2 aaa", str_of "1 bbb", str_of "2 bbb");
        (str_of "2 ccc", str_of "1 ddd", str_of "2 ddd")].
Proof.
  destruct (load_tles_nameless _ Demo.lenient DemoCatalogs.two_line
              [(str_of "1 aaa", str_of "2 aaa"); (str_of "1 bbb", str_of "2 bbb");
               (str_of "1 ccc", str_of "2 ccc"); (str_of "1 ddd", str_of "2 ddd")])
    as [H _].
  - vm_compute. reflexivity.
  - repeat constructor.
  - rewrite H. reflexivity.
Defined.

(** ** The rows of a run *)

Module RowFacts.

Lemma StronglySorted_app_inv {A} (R : A -> A -> Prop) (l1 l2 : list A) :
  StronglySorted R (l1 ++ l2) -> StronglySorted R l1 /\ StronglySorted R l2.
Proof.
  induction l1 as [|a l1 IH]; cbn; intros H; [split; [constructor|exact H]|].
  apply StronglySorted_inv in H as [H Ha]. destruct (IH H) as [H1 H2].
  split; [|exact H2]. constructor; [exact H1|].
  apply Forall_app in Ha. tauto.
Qed.

Lemma StronglySorted_concat {A} (R : A -> A -> Prop) (P : list (list A)) :
  StronglySorted R (concat P) -> Forall (StronglySorted R) P.
Proof.
  induction P as [|p P IH]; cbn; intros H; constructor;
    apply StronglySorted_app_inv in H; [tauto | apply IH; tauto].
Qed.

(** A pass of a sorted sample list is sorted in the same way. *)
Lemma pass_sorted (R : sample -> sample -> Prop) (l p : list sample) :
  StronglySorted R l -> In p (segment_spec l) -> StronglySorted R p.
Proof.
  intros Hl Hp. rewrite <- (SegmentFacts.segment_spec_concat l) in Hl.
  apply StronglySorted_concat in Hl. rewrite Forall_forall in Hl. auto.
Qed.

Lemma pass_incl (l p : list sample) (s : sample) :
  In p (segment_spec l) -> In s p -> In s l.
Proof.
  intros Hp Hs. rewrite <- (SegmentFacts.segment_spec_concat l).
  apply in_concat. exists p. auto.
Qed.

(** Samples that all lie further apart than the tolerance are cut into
    passes of one sample. *)
Lemma passes_from_far (l cur : list sample) (prev : sample) :
  Sorted (fun a b => gap_tolerance < s_time b - s_time a) (prev :: l) ->
  passes_from cur prev l = cur :: List.map (fun s => [s]) l.
Proof.
  revert cur prev. induction l as [|s l IH]; intros cur prev H;
    cbn [passes_from List.map]; [reflexivity|].
  apply Sorted_inv in H as [H Hd]. inversion Hd as [|? ? Hg]; subst.
  rewrite (proj2 (Z.gtb_lt _ _) Hg). f_equal. apply IH. exact H.
Qed.

Lemma segment_spec_far (l : list sample) :
  Sorted (fun a b => gap_tolerance < s_time b - s_time a) l ->
  segment_spec l = List.map (fun s => [s]) l.
Proof.
  destruct l as [|s l]; [reflexivity|]. intros H. cbn [segment_spec List.map].
  apply passes_from_far. exact H.
Qed.

(** The instants of the grid are a whole step apart. *)
Lemma grid_spaced (t0 t1 step_s : Z) :
  0 < step_s ->
  StronglySorted (fun a b => a + step_s * second <= b) (grid t0 t1 step_s).
Proof.
  intros Hs. pose proof (FrangeFacts.step_pos _ Hs) as Hp. unfold grid.
  generalize (grid_size t0 t1 step_s) as n. generalize 0%nat as i.
  intros i n. revert i. induction n as [|n IH]; intros i; cbn; constructor.
  - apply IH.
  - rewrite Forall_forall. intros x Hx. apply in_map_iff in Hx as [k [<- Hk]].
    apply in_seq in Hk. nia.
Qed.

Section Facts.

Variable Sat : Type.
Variable EarthSatellite : str -> str -> str -> result Sat.
Variable altaz :
  float64 -> float64 -> float64 -> Sat -> Z -> result (float64 * float64).
Variables (lat lon alt : float64) (min_el : float64).

Local Abbreviation kept := (retained Sat altaz lat lon alt min_el).

(** Retained samples inherit any order of the instants. *)
Lemma kept_sorted_by (R : Z -> Z -> Prop) (k : satobj Sat) (g : list Z) :
  StronglySorted R g ->
  StronglySorted (fun a b => R (s_time a) (s_time b)) (kept k g).
Proof.
  induction 1 as [|dt g Hs IH Hdt]; cbn; [constructor|].
  apply SortFacts.StronglySorted_app; [| exact IH |].
  - unfold retained_at.
    destruct (altaz lat lon alt (snd k) dt) as [[el az]|]; [|constructor].
    destruct (F64.ge el min_el); repeat constructor.
  - intros a b Ha Hb.
    apply (RunFacts.kept_at_time Sat altaz lat lon alt min_el) in Ha as [-> _].
    apply (RunFacts.kept_time Sat altaz lat lon alt min_el) in Hb as [Hb _].
    rewrite Forall_forall in Hdt. auto.
Qed.

(** Every row of a run is one of the specification's passes of the
    retained samples of its satellite. *)
Lemma row_is_pass (fuel : nat) (f : list str) (start end_ step_s : Z)
  (rows : list (row Sat)) (r : row Sat) :
  visible_list Sat EarthSatellite altaz fuel f lat lon alt start end_
    min_el step_s = Some (Ok rows) ->
  In r rows ->
  exists sats,
    load_tles Sat EarthSatellite f = Ok sats
    /\ In (fst r) (objects Sat sats)
    /\ frange fuel start end_ step_s
       = Some (grid start end_ step_s, Exhausted)
    /\ (end_ < start \/ 0 < step_s)
    /\ In (snd r) (segment_spec (kept (fst r) (grid start end_ step_s))).
Proof.
  intros H Hr.
  apply RunFacts.run_Ok in H as [sats [Hl [[_ ->]|H]]]; [destruct Hr|].
  destruct H as [g [v [Hg [Hv Hrank]]]].
  pose proof (PipelineFacts.frange_sorted _ _ _ _ _ Hg) as Hs.
  destruct (FrangeFacts.frange_Some _ _ _ _ _ Hg) as [-> Hcase].
  destruct (ranked_passes Sat altaz lat lon alt min_el sats _ v rows
              Hs Hv Hrank) as [_ [Hrows Hpass]].
  rewrite Forall_forall in Hrows. destruct (Hrows r Hr) as [Hobj _].
  exists sats. repeat split; try assumption.
  apply (Permutation_in _ (Hpass (fst r) Hobj)).
  unfold passes_of. apply in_map. apply filter_In. split; [exact Hr|].
  apply SamplerFacts.same_refl.
Qed.

End Facts.
End RowFacts.

Module BoundsFacts.

Lemma last_In {A} (l : list A) (d : A) : l <> [] -> In (last l d) l.
Proof.
  induction l as [|a l IH]; [congruence|]. intros _.
  destruct l as [|b l]; [left; reflexivity|].
  right. apply IH. discriminate.
Qed.

(** In a time-ordered pass every sample lies between its first and its
    last. *)
Lemma sorted_bounds (p : list sample) (s : sample) :
  StronglySorted (fun a b => s_time a <= s_time b) p -> In s p ->
  pass_start p <= s_time s <= pass_end p.
Proof.
  intros Hp Hs. split.
  - destruct p as [|a p]; [destruct Hs|]. unfold pass_start. cbn [hd].
    apply StronglySorted_inv in Hp as [_ Ha]. rewrite Forall_forall in Ha.
    destruct Hs as [<-|Hs]; [lia | auto].
  - unfold pass_end. induction Hp as [|a p Hp IH Ha]; [destruct Hs|].
    destruct p as [|b p]; [destruct Hs as [<-|[]]; cbn; lia|].
    change (last (a :: b :: p) (0, NaN, NaN)) with (last (b :: p) (0, NaN, NaN)).
    destruct Hs as [<-|Hs]; [|apply IH; exact Hs].
    rewrite Forall_forall in Ha. apply Ha. apply last_In. discriminate.
Qed.

End BoundsFacts.

(** X5.  Every row of a run is a well-formed pass: it has a sample; its
    samples are in strictly increasing time order, each at most 180 s
    after its predecessor; every sample was taken at an instant of the
    grid, has an elevation that is not NaN and satisfies [el >= min_el],
    and lies between the first and the last sample of the row. *)
Theorem row_invariants (Sat : Type)
  (EarthSatellite : str -> str -> str -> result Sat)
  (altaz : float64 -> float64 -> float64 -> Sat -> Z
           -> result (float64 * float64))
  (fuel : nat) (tle_file : list str) (lat lon alt : float64)
  (start end_ : Z) (min_el : float64) (step_s : Z) (rows : list (row Sat))
  (r : row Sat) :
  visible_list Sat EarthSatellite altaz fuel tle_file lat lon alt
    start end_ min_el step_s = Some (Ok rows) ->
  In r rows ->
  snd r <> []
  /\ StronglySorted (fun a b => s_time a < s_time b) (snd r)
  /\ Sorted close (snd r)
  /\ forall s, In s (snd r) ->
       In (s_time s) (grid start end_ step_s)
       /\ start <= s_time s <= end_
       /\ F64.ge (s_el s) min_el = true /\ is_nan (s_el s) = false
       /\ pass_start (snd r) <= s_time s <= pass_end (snd r).
Proof.
  intros H Hr.
  destruct (RowFacts.row_is_pass Sat EarthSatellite altaz lat lon alt min_el
              fuel tle_file start end_ step_s rows r H Hr)
    as [sats [_ [_ [Hg [Hcase Hp]]]]].
  set (g := grid start end_ step_s) in *.
  set (l := retained Sat altaz lat lon alt min_el (fst r) g) in *.
  assert (Hsorted : StronglySorted Z.lt g)
    by (eapply PipelineFacts.frange_sorted; exact Hg).
  assert (Hl : StronglySorted (fun a b => s_time a < s_time b) l)
    by (apply RunFacts.kept_increasing; exact Hsorted).
  pose proof (RowFacts.pass_sorted _ l (snd r) Hl Hp) as Hinc.
  pose proof (SegmentFacts.segment_spec_close l) as Hc.
  rewrite Forall_forall in Hc. destruct (Hc _ Hp) as [Hne Hclose].
  split; [exact Hne|]. split; [exact Hinc|]. split; [exact Hclose|].
  intros s Hs.
  pose proof (RowFacts.pass_incl l (snd r) s Hp Hs) as Hin.
  apply (RunFacts.kept_time Sat altaz lat lon alt min_el) in Hin
    as [Hgrid Hge].
  split; [exact Hgrid|]. split.
  - destruct Hcase as [Hinv|Hstep].
    + subst g. rewrite FrangeFacts.grid_nil in Hgrid by lia. destruct Hgrid.
    + apply (FrangeFacts.in_grid _ _ _ _ Hstep) in Hgrid
        as [k [Hk [Hdt Hle]]].
      pose proof (FrangeFacts.step_pos _ Hstep). nia.
  - split; [exact Hge|]. split.
    + unfold F64.ge in Hge. apply F64Facts.le_not_nan in Hge. tauto.
    + apply BoundsFacts.sorted_bounds; [|exact Hs].
      eapply SegFacts.StronglySorted_impl; [|exact Hinc].
      intros a b Hab. cbv beta in Hab. lia.
Qed.

Lemma row_invariants_witness :
  exists rows r,
    DemoRuns.run Demo.sky 0 (Demo.sec 600) = Some (Ok rows)
    /\ In r rows /\ Sorted close (snd r).
Proof.
  eexists. eexists. split; [vm_compute; reflexivity|].
  split; [left; reflexivity|].
  match goal with
  | |- Sorted close (snd ?r) =>
      assert (H : exists rest,
                visible_list _ Demo.lenient Demo.sky 30 Demo.catalog
                  zero zero zero 0 (Demo.sec 600) (of_Z 10) 30
                = Some (Ok (r :: rest)))
        by (eexists; vm_compute; reflexivity);
      destruct H as [rest H];
      destruct (row_invariants _ _ _ _ _ _ _ _ _ _ _ _ _ r H
                  (or_introl eq_refl)) as [_ [_ [Hc _]]];
      exact Hc
  end.
Defined.

(** X6.  The gap tolerance is 180 s whatever the step: with a sampling
    step above 180 s no two samples share a pass, so every row of a run
    has exactly one sample. *)
Theorem coarse_step_single_samples (Sat : Type)
  (EarthSatellite : str -> str -> str -> result Sat)
  (altaz : float64 -> float64 -> float64 -> Sat -> Z
           -> result (float64 * float64))
  (fuel : nat) (tle_file : list str) (lat lon alt : float64)
  (start end_ : Z) (min_el : float64) (step_s : Z) (rows : list (row Sat)) :
  180 < step_s ->
  visible_list Sat EarthSatellite altaz fuel tle_file lat lon alt
    start end_ min_el step_s = Some (Ok rows) ->
  Forall (fun r => exists s, snd r = [s]) rows.
Proof.
  intros Hstep H. rewrite Forall_forall. intros r Hr.
  destruct (RowFacts.row_is_pass Sat EarthSatellite altaz lat lon alt min_el
              fuel tle_file start end_ step_s rows r H Hr)
    as [sats [_ [_ [_ [_ Hp]]]]].
  rewrite RowFacts.segment_spec_far in Hp.
  - apply in_map_iff in Hp as [s [<- _]]. exists s. reflexivity.
  - apply StronglySorted_Sorted.
    eapply SegFacts.StronglySorted_impl;
      [|apply RowFacts.kept_sorted_by; apply RowFacts.grid_spaced; lia].
    intros a b Hab. cbv beta in Hab. unfold gap_tolerance, second in *. lia.
Qed.

Lemma coarse_step_single_samples_witness :
  exists rows,
    visible_list _ Demo.lenient Demo.sky 30 Demo.catalog
      zero zero zero 0 (Demo.sec 600) (of_Z 10) 200 = Some (Ok rows)
    /\ List.length rows = 3%nat
    /\ Forall (fun r => exists s, snd r = [s]) rows.
Proof.
  eexists. split; [vm_compute; reflexivity|]. split; [reflexivity|].
  apply (coarse_step_single_samples _ Demo.lenient Demo.sky 30 Demo.catalog
           zero zero zero 0 (Demo.sec 600) (of_Z 10) 200);
    [lia | vm_compute; reflexivity].
Defined.

(** X7.  A run that returns gives no row exactly when no sample of any
    satellite of the catalog is retained over the grid. *)
Theorem no_rows_iff_nothing_retained (Sat : Type)
  (EarthSatellite : str -> str -> str -> result Sat)
  (altaz : float64 -> float64 -> float64 -> Sat -> Z
           -> result (float64 * float64))
  (fuel : nat) (tle_file : list str) (lat lon alt : float64)
  (start end_ : Z) (min_el : float64) (step_s : Z) (rows : list (row Sat)) :
  visible_list Sat EarthSatellite altaz fuel tle_file lat lon alt
    start end_ min_el step_s = Some (Ok rows) ->
  exists sats,
    load_tles Sat EarthSatellite tle_file = Ok sats
    /\ (rows = [] <->
        forall sat, In sat (objects Sat sats) ->
          retained Sat altaz lat lon alt min_el sat
            (grid start end_ step_s) = []).
Proof.
  intros H.
  destruct (RunFacts.run_Ok Sat EarthSatellite altaz lat lon alt min_el
              fuel tle_file start end_ step_s rows H)
    as [sats [Hl Hcase]].
  exists sats. split; [exact Hl|]. split.
  - intros -> sat Hin.
    destruct Hcase as [[-> _]|[g [v [Hg [Hv Hrank]]]]]; [destruct Hin|].
    pose proof (PipelineFacts.frange_sorted _ _ _ _ _ Hg) as Hs.
    destruct (FrangeFacts.frange_Some _ _ _ _ _ Hg) as [-> _].
    destruct (ranked_passes Sat altaz lat lon alt min_el sats _ v []
                Hs Hv Hrank) as [_ [_ Hpass]].
    specialize (Hpass sat Hin). cbn in Hpass.
    apply Permutation_nil in Hpass.
    rewrite <- (SegmentFacts.segment_spec_concat
                  (retained Sat altaz lat lon alt min_el sat _)).
    rewrite Hpass. reflexivity.
  - intros Hnone. destruct rows as [|r rows]; [reflexivity|]. exfalso.
    destruct (RowFacts.row_is_pass Sat EarthSatellite altaz lat lon alt
                min_el fuel tle_file start end_ step_s (r :: rows) r H
                (or_introl eq_refl))
      as [sats' [Hl' [Hobj [_ [_ Hp]]]]].
    assert (sats' = sats) by congruence. subst sats'.
    rewrite (Hnone (fst r) Hobj) in Hp. destruct Hp.
Qed.

Lemma no_rows_iff_nothing_retained_witness :
  visible_list _ Demo.lenient Demo.sky 30 Demo.catalog
    zero zero zero 0 (Demo.sec 600) (of_Z 60) 30 = Some (Ok [])
  /\ retained _ Demo.sky zero zero zero (of_Z 60) DemoRuns.alpha
       (grid 0 (Demo.sec 600) 30) = [].
Proof.
  assert (H : visible_list _ Demo.lenient Demo.sky 30 Demo.catalog
                zero zero zero 0 (Demo.sec 600) (of_Z 60) 30 = Some (Ok []))
    by (vm_compute; reflexivity).
  split; [exact H|].
  destruct (no_rows_iff_nothing_retained _ _ _ _ _ _ _ _ _ _ _ _ _ H)
    as [sats [Hl [Hnone _]]].
  apply (Hnone eq_refl).
  vm_compute in Hl. injection Hl as <-. left. reflexivity.
Defined.

(** X8.  Raising the threshold never adds a sample: of two sampling
    loops over the same catalog and window that end normally, the one
    with the higher [min_el] stores, for each satellite, only samples
    that the other stores too. *)
Theorem threshold_monotone (Sat : Type)
  (altaz : float64 -> float64 -> float64 -> Sat -> Z
           -> result (float64 * float64))
  (lat lon alt : float64) (end_ : Z) (lo hi : float64) (step_s : Z)
  (fuel : nat) (sats : list Sat) (start : Z) (v_lo v_hi : dict Sat)
  (sat : satobj Sat) :
  F64.le lo hi = true ->
  sample_loop Sat altaz lat lon alt end_ lo step_s fuel
    (objects Sat sats) start [] = Some (Ok v_lo) ->
  sample_loop Sat altaz lat lon alt end_ hi step_s fuel
    (objects Sat sats) start [] = Some (Ok v_hi) ->
  In sat (objects Sat sats) ->
  incl (lookup sat v_hi) (lookup sat v_lo).
Proof.
  intros Hle Hlo Hhi Hin.
  apply LoopFacts.loop_Ok in Hlo as [g [Hg Hvlo]].
  apply LoopFacts.loop_Ok in Hhi as [g' [Hg' Hvhi]].
  assert (g' = g) by congruence. subst g'.
  rewrite (LoopFacts.over_retained Sat altaz lat lon alt lo _ _ _ _
             (LoopFacts.NoDup_objects Sat sats) Hin Hvlo).
  rewrite (LoopFacts.over_retained Sat altaz lat lon alt hi _ _ _ _
             (LoopFacts.NoDup_objects Sat sats) Hin Hvhi).
  intros s Hs. unfold retained in *. apply in_flat_map in Hs as [dt [Hdt Hs]].
  apply in_flat_map. exists dt. split; [exact Hdt|].
  unfold retained_at in *.
  destruct (altaz lat lon alt (snd sat) dt) as [[el az]|]; [|exact Hs].
  destruct (F64.ge el hi) eqn:G; [|destruct Hs].
  unfold F64.ge in *. rewrite (F64Facts.le_trans lo hi el Hle G). exact Hs.
Qed.

Lemma threshold_monotone_witness :
  exists v_lo v_hi,
    sample_loop _ Demo.sky zero zero zero (Demo.sec 600) (of_Z 10) 30 30
      (objects _ [snd DemoRuns.alpha]) 0 [] = Some (Ok v_lo)
    /\ sample_loop _ Demo.sky zero zero zero (Demo.sec 600) (of_Z 20) 30 30
         (objects _ [snd DemoRuns.alpha]) 0 [] = Some (Ok v_hi)
    /\ incl (lookup DemoRuns.alpha v_hi) (lookup DemoRuns.alpha v_lo).
Proof.
  eexists. eexists.
  split; [vm_compute; reflexivity|]. split; [vm_compute; reflexivity|].
  eapply (threshold_monotone _ Demo.sky zero zero zero (Demo.sec 600)
            (of_Z 10) (of_Z 20) 30 30 [snd DemoRuns.alpha] 0).
  - reflexivity.
  - vm_compute. reflexivity.
  - vm_compute. reflexivity.
  - left. reflexivity.
Defined.

(** ** The window of [--now] *)

(** X9.  With [--now], whatever [--start] and [--end] are.  When the
    clock is at least half of [max(1, duration_min)] minutes away from
    both ends of the [datetime] range, the window is centred on the
    clock and that many minutes long: it is not inverted and no usage
    error is raised, and with a positive step the generator yields
    [1 + floor(60 * max(1, duration_min) / step_s)] instants before it
    stops, exhausted when [end + step] is a [datetime].  Otherwise the
    window cannot be computed, and the run ends with [OverflowError]. *)
Theorem now_window (Sat : Type) (fromisoformat : str -> result Z)
  (utc_now : Z) (args : Args) :
  a_now args = true ->
  let m := Z.max 1 (a_duration_min args) in
  let start := utc_now - m * 30 * second in
  let end_ := utc_now + m * 30 * second in
  (datetime_min <= start -> end_ <= datetime_max ->
   time_window Sat fromisoformat utc_now args = inr (start, end_)
   /\ end_ - start = m * 60 * second
   /\ start < end_
   /\ (0 < a_step_s args ->
       forall fuel, (grid_size start end_ (a_step_s args) < fuel)%nat ->
         exists g e,
           frange fuel start end_ (a_step_s args) = Some (g, e)
           /\ Z.of_nat (List.length g) = 1 + 60 * m / a_step_s args
           /\ (end_ + a_step_s args * second <= datetime_max ->
               e = Exhausted)))
  /\ (start < datetime_min \/ datetime_max < end_ ->
      time_window Sat fromisoformat utc_now args
      = inl (Uncaught OverflowError)).
Proof.
  intros Hnow m start end_.
  assert (Hm : 1 <= m) by (subst m; lia).
  assert (Hhalf : m * 60 * second / 2 = m * 30 * second).
  { unfold second. replace (m * 60 * 1000000) with ((m * 30 * 1000000) * 2)
      by lia. apply Z.div_mul. lia. }
  assert (Hlow : - max_days <= m * 60 / 86400).
  { apply Z.div_le_lower_bound; unfold max_days; lia. }
  unfold time_window. rewrite Hnow.
  unfold half_window, timedelta_minutes, timedelta_seconds. fold m.
  rewrite (proj2 (Z.leb_le _ _) Hlow). cbn [andb].
  replace (utc_now + - (m * 30 * second)) with start by (subst start; lia).
  split.
  - intros H0 H1.
    assert (Hup : m * 60 / 86400 <= max_days).
    { apply Z.div_le_upper_bound;
        unfold max_days, datetime_min, datetime_max, second in *;
        subst start end_; lia. }
    rewrite (proj2 (Z.leb_le _ _) Hup). cbn [bind]. rewrite Hhalf.
    replace (utc_now + - (m * 30 * second)) with start by (subst start; lia).
    fold end_.
    assert (Hlt : start < end_) by (subst start end_; unfold second; lia).
    replace (datetime_add utc_now (- (m * 30 * second))) with (Ok start).
    2:{ symmetry. replace start with (utc_now + - (m * 30 * second))
          by (subst start; lia).
        apply FrangeFacts.datetime_add_in_range.
        unfold is_datetime. subst start end_. lia. }
    rewrite (FrangeFacts.datetime_add_in_range utc_now (m * 30 * second))
      by (unfold is_datetime; subst start end_; lia).
    split; [reflexivity|]. split; [subst start end_; lia|].
    split; [exact Hlt|].
    intros Hs fuel Hf.
    exists (grid start end_ (a_step_s args)),
           (grid_ending start end_ (a_step_s args)).
    split; [apply FrangeFacts.frange_grid; assumption|]. split.
    + rewrite FrangeFacts.length_grid. unfold grid_size.
      rewrite (proj2 (Z.leb_le _ _)) by lia.
      replace (end_ - start) with ((60 * m) * second)
        by (subst start end_; lia).
      rewrite Z.div_mul_cancel_r by (unfold second; lia).
      pose proof (Z.div_pos (60 * m) (a_step_s args) ltac:(lia) Hs).
      rewrite Z2Nat.id by lia. reflexivity.
    + intros Hr. apply FrangeFacts.grid_ending_room; assumption.
  - intros Hout.
    destruct (m * 60 / 86400 <=? max_days); cbn [bind]; [|reflexivity].
    rewrite Hhalf.
    destruct (datetime_add utc_now (- (m * 30 * second))) as [t|e] eqn:E.
    + destruct Hout as [H|H].
      * rewrite FrangeFacts.datetime_add_out_of_range in E;
          [discriminate | left; subst start; lia].
      * rewrite FrangeFacts.datetime_add_out_of_range
          by (right; exact H).
        reflexivity.
    + apply FrangeFacts.datetime_add_Raise in E. rewrite E. reflexivity.
Qed.

Lemma now_window_witness :
  exists start end_,
    time_window (str * str * str) DemoRuns.iso 1000
      {| a_tle_file := []; a_now := true; a_duration_min := 0;
         a_start := None; a_end := None; a_lat := None; a_lon := None;
         a_alt := zero; a_from_dish := false; a_min_el := of_Z 10;
         a_step_s := 30 |} = inr (start, end_)
    /\ end_ - start = Demo.sec 60.
Proof.
  destruct (now_window (str * str * str) DemoRuns.iso 1000
              {| a_tle_file := []; a_now := true; a_duration_min := 0;
                 a_start := None; a_end := None; a_lat := None;
                 a_lon := None; a_alt := zero; a_from_dish := false;
                 a_min_el := of_Z 10; a_step_s := 30 |} eq_refl)
    as [Hin _].
  destruct (Hin ltac:(vm_compute; discriminate) ltac:(vm_compute; discriminate))
    as [Hw [Hlen _]].
  eexists. eexists. split; [exact Hw|]. rewrite Hlen. reflexivity.
Defined.

(** ** Ties in the ranking *)

Module StableFacts.

Section Stable.

Context {A : Type} (ltb : A -> A -> bool) (cls : A -> bool).

(** No element of the class is smaller than another one of it. *)
Hypothesis cls_level :
  forall x y, cls x = true -> cls y = true -> ltb y x = false.

Lemma filter_insert (x : A) (l : list A) :
  filter cls (insert_stable ltb x l) = filter cls (x :: l).
Proof.
  induction l as [|y l IH]; [reflexivity|]. cbn [insert_stable].
  destruct (ltb y x) eqn:E; [|reflexivity].
  cbn [filter] in *. rewrite IH.
  destruct (cls x) eqn:Cx, (cls y) eqn:Cy; try reflexivity.
  rewrite (cls_level x y Cx Cy) in E. discriminate.
Qed.

Lemma filter_py_sort (l : list A) : filter cls (py_sort ltb l) = filter cls l.
Proof.
  induction l as [|x l IH]; [reflexivity|]. cbn [py_sort fold_right].
  rewrite filter_insert. cbn [filter]. unfold py_sort in IH. rewrite IH.
  reflexivity.
Qed.

(** The elements of a class keep their order, also with
    [reverse=True]. *)
Lemma filter_py_sort_reverse (l : list A) :
  filter cls (py_sort_reverse ltb l) = filter cls l.
Proof.
  unfold py_sort_reverse.
  rewrite filter_rev, filter_py_sort, filter_rev, rev_involutive.
  reflexivity.
Qed.

End Stable.

Lemma eq_le x y : F64.eq x y = true -> F64.le x y = true /\ F64.le y x = true.
Proof.
  unfold F64.eq, F64.le. destruct (F64.compare x y) as [[]|] eqn:E;
    try discriminate.
  rewrite (F64Facts.compare_antisym _ _ _ E). auto.
Qed.

Lemma filter_map_snd {A B} (f : B -> bool) (g : A * B -> bool)
  (l : list (A * B)) :
  Forall (fun p => g p = f (snd p)) l ->
  filter f (List.map snd l) = List.map snd (filter g l).
Proof.
  induction 1 as [|p l Hp _ IH]; [reflexivity|]. cbn. rewrite Hp.
  destruct (f (snd p)); cbn; rewrite IH; reflexivity.
Qed.

End StableFacts.

(** X10.  The ranking is stable: the rows whose peak elevation equals a
    given value stand in the result in the order they have in the
    input. *)
Theorem rank_stable (Sat : Type) (rows out : list (row Sat)) (k : float64) :
  rank Sat rows = Ok out ->
  filter (peaks_at k) out = filter (peaks_at k) rows.
Proof.
  unfold rank. destruct (mapM (peak Sat) rows) as [keys|] eqn:E; cbn;
    [|discriminate].
  intros H. injection H as <-. apply mapM_inv in E.
  pose proof (Forall2_length E) as Hlen.
  assert (Hk : Forall (fun p : float64 * row Sat =>
                         F64.eq (fst p) k = peaks_at k (snd p))
                 (combine keys rows)).
  { apply RankFacts.Forall2_combine
      with (R := fun r k' => F64.eq k' k = peaks_at k r).
    eapply Forall2_impl; [|exact E]. intros r k' Hr. cbv beta in Hr.
    unfold peaks_at. rewrite Hr. reflexivity. }
  rewrite (StableFacts.filter_map_snd (peaks_at k)
             (fun p => F64.eq (fst p) k)).
  - rewrite StableFacts.filter_py_sort_reverse.
    + rewrite <- (StableFacts.filter_map_snd (peaks_at k)
                    (fun p => F64.eq (fst p) k)) by exact Hk.
      rewrite RankFacts.snd_combine by lia. reflexivity.
    + intros x y Hx Hy. cbv beta.
      apply StableFacts.eq_le in Hx as [Hx1 Hx2].
      apply StableFacts.eq_le in Hy as [Hy1 Hy2].
      pose proof (F64Facts.le_trans _ _ _ Hx1 Hy2) as Hxy.
      destruct (F64Facts.le_not_nan _ _ Hxy) as [Nx Ny].
      rewrite F64Facts.lt_negb_le by assumption. rewrite Hxy. reflexivity.
  - eapply Permutation_Forall; [|exact Hk].
    symmetry. apply SortFacts.py_sort_reverse_perm.
Qed.

Lemma rank_stable_witness :
  exists out,
    rank _ [(DemoRuns.alpha, [(0, of_Z 20, zero)]);
            (DemoRuns.alpha, [(Demo.sec 600, of_Z 30, zero)]);
            (DemoRuns.alpha, [(Demo.sec 1200, Fin 5 2, zero)])] = Ok out
    /\ filter (peaks_at (of_Z 20)) out
       = [(DemoRuns.alpha, [(0, of_Z 20, zero)]);
          (DemoRuns.alpha, [(Demo.sec 1200, Fin 5 2, zero)])].
Proof.
  assert (H : rank _ [(DemoRuns.alpha, [(0, of_Z 20, zero)]);
                      (DemoRuns.alpha, [(Demo.sec 600, of_Z 30, zero)]);
                      (DemoRuns.alpha, [(Demo.sec 1200, Fin 5 2, zero)])]
              = Ok [(DemoRuns.alpha, [(Demo.sec 600, of_Z 30, zero)]);
                    (DemoRuns.alpha, [(0, of_Z 20, zero)]);
                    (DemoRuns.alpha, [(Demo.sec 1200, Fin 5 2, zero)])])
    by (vm_compute; reflexivity).
  eexists. split; [exact H|].
  rewrite (rank_stable _ _ _ (of_Z 20) H). reflexivity.
Defined.

(** ** The report loop *)

Module PeakFacts.
Import F64Facts.

Lemma not_lt_le x y :
  is_nan x = false -> is_nan y = false ->
  F64.lt x y = false -> F64.le y x = true.
Proof.
  intros Nx Ny H. rewrite lt_negb_le in H by assumption.
  apply negb_false_iff in H. exact H.
Qed.

Lemma le_lt_trans x y z :
  F64.le x y = true -> F64.lt y z = true -> F64.lt x z = true.
Proof.
  intros Hxy Hyz.
  destruct (le_not_nan _ _ Hxy) as [Nx Ny].
  destruct (lt_not_nan _ _ Hyz) as [_ Nz].
  rewrite lt_negb_le by assumption. apply negb_true_iff.
  destruct (F64.le z x) eqn:E; [|reflexivity].
  pose proof (le_trans _ _ _ E Hxy) as Hzy.
  rewrite lt_negb_le in Hyz by assumption. rewrite Hzy in Hyz. discriminate.
Qed.

Lemma lt_trans x y z :
  F64.lt x y = true -> F64.lt y z = true -> F64.lt x z = true.
Proof. intros Hxy. apply le_lt_trans. apply RankFacts.lt_le. exact Hxy. Qed.

(** The first component of the loop state runs like [max()]. *)
Lemma fold_peak_key (xs : list sample) (st : peak_state) :
  fst (fst (fold_left peak_step xs st))
  = fold_left (fun m y => if F64.gt y m then y else m)
      (List.map s_el xs) (fst (fst st)).
Proof.
  revert st. induction xs as [|x xs IH]; intros st; [reflexivity|].
  cbn [fold_left List.map]. rewrite IH. unfold peak_step.
  destruct (F64.gt (s_el x) (fst (fst st))); reflexivity.
Qed.

(** From a sample that is the peak so far, the loop ends on the first
    sample of the largest elevation. *)
Lemma fold_peak_first (post pre mid : list sample) (cur : sample) :
  Forall (fun s => is_nan (s_el s) = false) (cur :: mid ++ post) ->
  Forall (fun s => F64.lt (s_el s) (s_el cur) = true) pre ->
  Forall (fun s => F64.le (s_el s) (s_el cur) = true) mid ->
  exists pre' s' post',
    pre ++ cur :: mid ++ post = pre' ++ s' :: post'
    /\ fold_left peak_step post (peak_of cur) = peak_of s'
    /\ Forall (fun s => F64.lt (s_el s) (s_el s') = true) pre'
    /\ Forall (fun s => F64.le (s_el s) (s_el s') = true) post'.
Proof.
  revert pre mid cur. induction post as [|y post IH]; intros pre mid cur Hn Hpre Hmid.
  - exists pre, cur, mid. rewrite app_nil_r. auto.
  - cbn [fold_left]. unfold peak_step at 2. cbn [peak_of fst].
    inversion Hn as [|? ? Ncur Hn']; subst.
    apply Forall_app in Hn' as [Nmid Hn'].
    inversion Hn' as [|? ? Ny Npost]; subst.
    destruct (F64.gt (s_el y) (s_el cur)) eqn:G.
    + unfold F64.gt in G.
      destruct (IH (pre ++ cur :: mid) [] y) as [pre' [s' [post' [E H]]]].
      * constructor; assumption.
      * apply Forall_app. split.
        -- eapply Forall_impl; [|exact Hpre]. intros s Hs. cbv beta in Hs.
           eapply lt_trans; eassumption.
        -- constructor; [exact G|].
           eapply Forall_impl; [|exact Hmid]. intros s Hs. cbv beta in Hs.
           eapply le_lt_trans; eassumption.
      * constructor.
      * exists pre', s', post'. split; [|exact H].
        rewrite <- E. rewrite <- !app_assoc. reflexivity.
    + unfold F64.gt in G. apply not_lt_le in G; [|assumption|assumption].
      destruct (IH pre (mid ++ [y]) cur) as [pre' [s' [post' [E H]]]].
      * constructor; [assumption|]. rewrite <- app_assoc.
        apply Forall_app. split; [assumption|]. constructor; assumption.
      * exact Hpre.
      * apply Forall_app. split; [assumption|]. repeat constructor. exact G.
      * exists pre', s', post'. split; [|exact H].
        rewrite <- E. rewrite <- !app_assoc. reflexivity.
Qed.

(** Once a peak is recorded, one stays recorded. *)
Lemma fold_peak_some (xs : list sample) (m : float64) (t : Z) (a : float64) :
  exists m' t' a', fold_left peak_step xs (m, Some t, Some a)
                   = (m', Some t', Some a').
Proof.
  revert m t a. induction xs as [|x xs IH]; intros m t a; cbn [fold_left].
  - exists m, t, a. reflexivity.
  - unfold peak_step at 2. cbn [fst]. destruct (F64.gt (s_el x) m); apply IH.
Qed.

(** No peak is recorded exactly when no elevation exceeds [-1.0]. *)
Lemma find_peak_none (chunk : list sample) :
  (exists m a, find_peak chunk = (m, None, a))
  <-> Forall (fun s => F64.gt (s_el s) minus_one = false) chunk.
Proof.
  unfold find_peak. induction chunk as [|x xs IH]; cbn [fold_left].
  - split; [constructor | intros _; eexists; eexists; reflexivity].
  - unfold peak_step at 2. cbn [fst]. destruct (F64.gt (s_el x) minus_one) eqn:G.
    + split.
      * intros [m [a H]].
        destruct (fold_peak_some xs (s_el x) (s_time x) (s_az x))
          as [m' [t' [a' E]]].
        rewrite E in H. discriminate.
      * intros H. inversion H; subst. congruence.
    + rewrite IH. split; [intros H; constructor; assumption|].
      intros H. inversion H; assumption.
Qed.

End PeakFacts.

Module ReportFacts.
Import F64Facts.

Lemma lt_le_trans x y z :
  F64.lt x y = true -> F64.le y z = true -> F64.lt x z = true.
Proof.
  intros Hxy Hyz.
  destruct (lt_not_nan _ _ Hxy) as [Nx Ny].
  destruct (le_not_nan _ _ Hyz) as [_ Nz].
  rewrite lt_negb_le by assumption. apply negb_true_iff.
  destruct (F64.le z x) eqn:E; [|reflexivity].
  pose proof (le_trans _ _ _ Hyz E) as Hyx.
  rewrite lt_negb_le in Hxy by assumption. rewrite Hyx in Hxy. discriminate.
Qed.

(** The loop ends with no peak at all, or with a time and an azimuth. *)
Lemma find_peak_shape (chunk : list sample) :
  find_peak chunk = (minus_one, None, None)
  \/ exists m t a, find_peak chunk = (m, Some t, Some a).
Proof.
  unfold find_peak. induction chunk as [|x xs IH]; cbn [fold_left];
    [left; reflexivity|].
  unfold peak_step at 2 4. cbn [fst].
  destruct (F64.gt (s_el x) minus_one); [|exact IH].
  right. apply PeakFacts.fold_peak_some.
Qed.

(** On a chunk whose elevations all exceed [-1.0], the loop finds the
    first sample of the largest elevation, which is the sort key. *)
Lemma find_peak_first {Sat} (sat : satobj Sat) (chunk : list sample) :
  chunk <> [] ->
  Forall (fun s => F64.gt (s_el s) minus_one = true) chunk ->
  exists pre s post,
    chunk = pre ++ s :: post
    /\ find_peak chunk = peak_of s
    /\ peak Sat (sat, chunk) = Ok (s_el s)
    /\ Forall (fun x => F64.lt (s_el x) (s_el s) = true) pre
    /\ Forall (fun x => F64.le (s_el x) (s_el s) = true) post.
Proof.
  intros Hne Hall. destruct chunk as [|x xs]; [congruence|].
  assert (Hn : Forall (fun s => is_nan (s_el s) = false) (x :: xs)).
  { eapply Forall_impl; [|exact Hall]. intros s Hs. cbv beta in Hs.
    unfold F64.gt in Hs. apply lt_not_nan in Hs. tauto. }
  inversion Hall as [|? ? Hx _]; subst.
  assert (E0 : find_peak (x :: xs) = fold_left peak_step xs (peak_of x)).
  { unfold find_peak. cbn [fold_left]. unfold peak_step at 2. cbn [fst].
    rewrite Hx. reflexivity. }
  destruct (PeakFacts.fold_peak_first xs [] [] x Hn ltac:(constructor)
              ltac:(constructor)) as [pre [s [post [E [Hf [Hpre Hpost]]]]]].
  exists pre, s, post. cbn [app] in E.
  split; [exact E|]. split; [rewrite E0; exact Hf|]. split; [|auto].
  unfold peak. cbn [snd List.map py_max]. f_equal.
  pose proof (PeakFacts.fold_peak_key xs (peak_of x)) as K.
  cbn [peak_of fst] in K. rewrite <- K. fold (peak_of x). rewrite Hf.
  reflexivity.
Qed.

End ReportFacts.

(** X11.  When the threshold exceeds -1 degree (the default is 10), the
    report loop finds, for every row of a run, the first sample of the
    largest elevation: the printed peak elevation is the key the rows
    were ranked by, no earlier sample of the row reaches it and no later
    one exceeds it, and the printed peak time lies between the printed
    start and end of the pass. *)
Theorem report_peak_first_maximum (Sat : Type)
  (EarthSatellite : str -> str -> str -> result Sat)
  (altaz : float64 -> float64 -> float64 -> Sat -> Z
           -> result (float64 * float64))
  (fuel : nat) (tle_file : list str) (lat lon alt : float64)
  (start end_ : Z) (min_el : float64) (step_s : Z) (rows : list (row Sat))
  (r : row Sat) :
  F64.lt minus_one min_el = true ->
  visible_list Sat EarthSatellite altaz fuel tle_file lat lon alt
    start end_ min_el step_s = Some (Ok rows) ->
  In r rows ->
  exists pre s post,
    snd r = pre ++ s :: post
    /\ report_line r
       = Some (pass_start (snd r), pass_end (snd r), s_el s, s_time s, s_az s)
    /\ peak Sat r = Ok (s_el s)
    /\ Forall (fun x => F64.lt (s_el x) (s_el s) = true) pre
    /\ Forall (fun x => F64.le (s_el x) (s_el s) = true) post
    /\ pass_start (snd r) <= s_time s <= pass_end (snd r).
Proof.
  intros Hmin H Hr.
  destruct (RowFacts.row_is_pass Sat EarthSatellite altaz lat lon alt min_el
              fuel tle_file start end_ step_s rows r H Hr)
    as [sats [_ [_ [Hg [_ Hp]]]]].
  set (l := retained Sat altaz lat lon alt min_el (fst r)
              (grid start end_ step_s)) in *.
  assert (Hl : StronglySorted (fun a b => s_time a < s_time b) l).
  { apply RunFacts.kept_increasing.
    eapply PipelineFacts.frange_sorted. exact Hg. }
  pose proof (RowFacts.pass_sorted _ l (snd r) Hl Hp) as Hinc.
  pose proof (SegmentFacts.segment_spec_close l) as Hc.
  rewrite Forall_forall in Hc. destruct (Hc _ Hp) as [Hne _].
  assert (Hall : Forall (fun s => F64.gt (s_el s) minus_one = true) (snd r)).
  { rewrite Forall_forall. intros s Hs.
    pose proof (RowFacts.pass_incl l (snd r) s Hp Hs) as Hin.
    apply (RunFacts.kept_time Sat altaz lat lon alt min_el) in Hin as [_ Hge].
    unfold F64.gt. eapply ReportFacts.lt_le_trans; [exact Hmin | exact Hge]. }
  destruct (ReportFacts.find_peak_first (fst r) (snd r) Hne Hall)
    as [pre [s [post [E [Hf [Hk [Hpre Hpost]]]]]]].
  exists pre, s, post. split; [exact E|].
  split; [unfold report_line; rewrite Hf; reflexivity|].
  split; [destruct r; exact Hk|]. split; [exact Hpre|]. split; [exact Hpost|].
  apply BoundsFacts.sorted_bounds.
  - eapply SegFacts.StronglySorted_impl; [|exact Hinc].
    intros a b Hab. cbv beta in Hab. lia.
  - rewrite E. apply in_elt.
Qed.

Lemma report_peak_first_maximum_witness :
  exists rows r line,
    DemoRuns.run Demo.sky 0 (Demo.sec 600) = Some (Ok rows)
    /\ In r rows /\ report_line r = Some line.
Proof.
  pose (r := ((1%nat, (str_of "BRAVO", str_of "1 bbb", str_of "2 bbb")),
              [(Demo.sec 150, of_Z 50, of_Z 5);
               (Demo.sec 180, of_Z 50, of_Z 5)]) : row (str * str * str)).
  assert (H : exists rest,
            visible_list _ Demo.lenient Demo.sky 30 Demo.catalog
              zero zero zero 0 (Demo.sec 600) (of_Z 10) 30
            = Some (Ok (r :: rest)))
    by (eexists; vm_compute; reflexivity).
  destruct H as [rest H].
  destruct (report_peak_first_maximum _ Demo.lenient Demo.sky 30
              Demo.catalog zero zero zero 0 (Demo.sec 600) (of_Z 10) 30
              (r :: rest) r eq_refl H (or_introl eq_refl))
    as [pre [s [post [_ [Hline _]]]]].
  exists (r :: rest), r. eexists.
  split; [exact H|]. split; [left; reflexivity|]. exact Hline.
Defined.

(** X12.  The report loop starts from a peak of -1.0 and records a
    sample only when its elevation exceeds the peak so far: the line of
    a row cannot be printed (formatting [t_peak = None] raises) exactly
    when no elevation of the row exceeds -1 degree, as happens for rows
    of a run whose threshold is below -1. *)
Theorem report_fails_below_minus_one (Sat : Type) (r : row Sat) :
  report_line r = None
  <-> Forall (fun s => F64.gt (s_el s) minus_one = false) (snd r).
Proof.
  rewrite <- PeakFacts.find_peak_none. unfold report_line.
  destruct (ReportFacts.find_peak_shape (snd r)) as [E|[m [t [a E]]]];
    rewrite E.
  - split; [intros _; eexists; eexists; reflexivity | reflexivity].
  - split; [discriminate|]. intros [m' [a' H]]. discriminate.
Qed.

Lemma report_fails_below_minus_one_witness :
  exists rows r,
    visible_list _ Demo.lenient low_sky 30 Demo.catalog
      zero zero zero 0 (Demo.sec 60) (of_Z (-5)) 30 = Some (Ok rows)
    /\ In r rows /\ report_line r = None.
Proof.
  eexists. eexists. split; [vm_compute; reflexivity|].
  split; [left; reflexivity|].
  apply report_fails_below_minus_one. repeat constructor.
Defined.

(** ** Usage errors and the location *)

Section MainFacts.

Variable Sat : Type.
Variable EarthSatellite : str -> str -> str -> result Sat.
Variable altaz :
  float64 -> float64 -> float64 -> Sat -> Z -> result (float64 * float64).
Variable fromisoformat : str -> result Z.
Variable utc_now : Z.

Local Abbreviation run_main :=
  (main Sat EarthSatellite altaz fromisoformat utc_now).

Lemma time_window_usage (args : Args) :
  a_now args = false -> both_given args = false ->
  time_window Sat fromisoformat utc_now args
  = inl (UsageError "Provide --now OR both --start and --end").
Proof.
  intros Hnow Hg. unfold time_window, both_given in *. rewrite Hnow.
  destruct (a_start args) as [s|]; [|reflexivity].
  destruct (a_end args) as [e|]; [|reflexivity].
  rewrite Hg. reflexivity.
Qed.

(** X13.  Usage errors come before any work.  Without [--now], a
    missing or empty [--start] or [--end] ends the program with the
    usage error of the window; with a usable window, a missing [--lat]
    or [--lon] ends it with the usage error of the location, also after
    a failed [--from-dish].  In each case the catalog is not read and
    no instant is generated: the outcome is the same for every catalog
    and every amount of fuel, and in the first case the dish is not
    asked. *)
Theorem usage_errors_first (args : Args)
  (fetch : result (float64 * float64 * float64)) (fuel : nat) :
  (a_now args = false -> both_given args = false ->
   run_main fetch fuel (Parsed args)
   = Some (UsageError "Provide --now OR both --start and --end"))
  /\ (forall w,
        time_window Sat fromisoformat utc_now args = inr w ->
        a_lat args = None \/ a_lon args = None ->
        (a_from_dish args = false ->
         run_main fetch fuel (Parsed args)
         = Some (UsageError "Need --lat/--lon or use --from-dish"))
        /\ (forall e, a_from_dish args = true -> fetch = Raise e ->
              run_main fetch fuel (Parsed args)
              = Some (UsageError "Need --lat/--lon if --from-dish fails"))).
Proof.
  split.
  - intros Hnow Hg. cbn [main].
    rewrite (time_window_usage args Hnow Hg). reflexivity.
  - intros [start end_] Hw Hmiss. split.
    + intros Hd. cbn [main]. rewrite Hw. unfold location. rewrite Hd.
      destruct Hmiss as [-> | ->]; [reflexivity|].
      destruct (a_lat args); reflexivity.
    + intros e Hd ->. cbn [main]. rewrite Hw. unfold location. rewrite Hd.
      destruct Hmiss as [-> | ->]; [reflexivity|].
      destruct (a_lat args); reflexivity.
Qed.

(** X14.  The dish decides the location only when it answers: a failed
    [--from-dish] with [--lat] and [--lon] given runs exactly as the same
    command without [--from-dish]; an answer of the dish is used as it
    is, whatever [--lat], [--lon] and [--alt] say. *)
Theorem dish_fallback (args : Args) (fuel : nat) :
  a_from_dish args = true ->
  (forall e la lo fetch,
     a_lat args = Some la -> a_lon args = Some lo ->
     run_main (Raise e) fuel (Parsed args)
     = run_main fetch fuel (Parsed (explicit_site args)))
  /\ (forall site,
        location Sat (Ok site) args = inr site).
Proof.
  intros Hd. split.
  - intros e la lo fetch Hla Hlo. cbn [main].
    change (time_window Sat fromisoformat utc_now (explicit_site args))
      with (time_window Sat fromisoformat utc_now args).
    destruct (time_window Sat fromisoformat utc_now args) as [o|[start end_]];
      [reflexivity|].
    unfold location. rewrite Hd. cbn [explicit_site a_from_dish a_lat a_lon
      a_alt a_tle_file a_min_el a_step_s].
    rewrite Hla, Hlo. reflexivity.
  - intros site. unfold location. rewrite Hd. reflexivity.
Qed.

End MainFacts.

Lemma usage_errors_first_witness :
  DemoRuns.cli Demo.lenient 0
    {| a_tle_file := []; a_now := false; a_duration_min := 15;
       a_start := Some (str_of "0Z"); a_end := Some []; a_lat := None;
       a_lon := None; a_alt := zero; a_from_dish := true;
       a_min_el := of_Z 10; a_step_s := 30 |}
  = Some (UsageError "Provide --now OR both --start and --end").
Proof.
  apply (proj1 (usage_errors_first _ Demo.lenient Demo.sky DemoRuns.iso 0
                  _ (Raise (LibraryError 2)) 0)); reflexivity.
Defined.

Lemma dish_fallback_witness :
  main _ Demo.lenient Demo.sky DemoRuns.iso 0 (Raise (LibraryError 2)) 30
    (Parsed
       {| a_tle_file := Demo.catalog; a_now := false; a_duration_min := 15;
          a_start := Some (str_of "0Z"); a_end := Some (str_of "600Z");
          a_lat := Some zero; a_lon := Some zero; a_alt := zero;
          a_from_dish := true; a_min_el := of_Z 10; a_step_s := 30 |})
  = main _ Demo.lenient Demo.sky DemoRuns.iso 0 (Ok (zero, zero, zero)) 30
      (Parsed
         {| a_tle_file := Demo.catalog; a_now := false; a_duration_min := 15;
            a_start := Some (str_of "0Z"); a_end := Some (str_of "600Z");
            a_lat := Some zero; a_lon := Some zero; a_alt := zero;
            a_from_dish := false; a_min_el := of_Z 10; a_step_s := 30 |}).
Proof.
  apply (proj1 (dish_fallback _ Demo.lenient Demo.sky DemoRuns.iso 0
                  {| a_tle_file := Demo.catalog; a_now := false;
                     a_duration_min := 15;
                     a_start := Some (str_of "0Z");
                     a_end := Some (str_of "600Z");
                     a_lat := Some zero; a_lon := Some zero; a_alt := zero;
                     a_from_dish := true; a_min_el := of_Z 10;
                     a_step_s := 30 |} 30 eq_refl)
           (LibraryError 2) zero zero (Ok (zero, zero, zero)));
    reflexivity.
Defined.

(** ** The end of the report *)

Module PrintFacts.

Lemma print_rows_all {Sat} (rows : list (row Sat)) :
  Forall (fun r => report_line r <> None) rows ->
  print_rows rows = (rows, None).
Proof.
  induction 1 as [|r rows Hr _ IH]; [reflexivity|]. cbn [print_rows].
  destruct (report_line r); [|congruence]. rewrite IH. reflexivity.
Qed.

Lemma print_rows_stop {Sat} (pre : list (row Sat)) (r : row Sat)
  (post : list (row Sat)) :
  Forall (fun x => report_line x <> None) pre -> report_line r = None ->
  print_rows (pre ++ r :: post) = (pre, Some TypeError).
Proof.
  intros Hpre Hr. induction Hpre as [|x pre Hx _ IH]; cbn [app print_rows].
  - rewrite Hr. reflexivity.
  - destruct (report_line x); [|congruence]. rewrite IH. reflexivity.
Qed.

(** With a threshold above [-1.0] every row of a run has its line. *)
Lemma run_rows_have_lines (Sat : Type)
  (EarthSatellite : str -> str -> str -> result Sat)
  (altaz : float64 -> float64 -> float64 -> Sat -> Z
           -> result (float64 * float64))
  (fuel : nat) (tle_file : list str) (lat lon alt : float64)
  (start end_ : Z) (min_el : float64) (step_s : Z) (rows : list (row Sat)) :
  F64.lt minus_one min_el = true ->
  visible_list Sat EarthSatellite altaz fuel tle_file lat lon alt
    start end_ min_el step_s = Some (Ok rows) ->
  Forall (fun r => report_line r <> None) rows.
Proof.
  intros Hmin H. rewrite Forall_forall. intros r Hr.
  destruct (RowFacts.row_is_pass Sat EarthSatellite altaz lat lon alt min_el
              fuel tle_file start end_ step_s rows r H Hr)
    as [sats [_ [_ [_ [_ Hp]]]]].
  set (l := retained Sat altaz lat lon alt min_el (fst r)
              (grid start end_ step_s)) in *.
  pose proof (SegmentFacts.segment_spec_close l) as Hc.
  rewrite Forall_forall in Hc. destruct (Hc _ Hp) as [Hne _].
  assert (Hall : Forall (fun s => F64.gt (s_el s) minus_one = true) (snd r)).
  { rewrite Forall_forall. intros s Hs.
    pose proof (RowFacts.pass_incl l (snd r) s Hp Hs) as Hin.
    apply (RunFacts.kept_time Sat altaz lat lon alt min_el) in Hin as [_ Hge].
    unfold F64.gt. eapply ReportFacts.lt_le_trans; [exact Hmin | exact Hge]. }
  destruct (ReportFacts.find_peak_first (fst r) (snd r) Hne Hall)
    as [pre [s [post [_ [Hf _]]]]].
  unfold report_line. rewrite Hf. discriminate.
Qed.

End PrintFacts.

(** X19.  What [main] does with the rows of a run.  No row: the "no
    results" line.  With a threshold above -1 degree (the default is
    10): a line for every row.  Otherwise the lines of the rows before
    the first row that has no elevation above -1 degree, then the
    [TypeError] of formatting its missing peak time.  An exit of
    argparse comes before everything: the outcome is argparse's, for
    every catalog, clock and dish. *)
Theorem report_outcome (Sat : Type)
  (EarthSatellite : str -> str -> str -> result Sat)
  (altaz : float64 -> float64 -> float64 -> Sat -> Z
           -> result (float64 * float64))
  (fromisoformat : str -> result Z) (utc_now : Z)
  (fetch : result (float64 * float64 * float64))
  (fuel : nat) (args : Args) (start end_ : Z) (lat lon alt : float64)
  (rows : list (row Sat)) :
  time_window Sat fromisoformat utc_now args = inr (start, end_) ->
  location Sat fetch args = inr (lat, lon, alt) ->
  visible_list Sat EarthSatellite altaz fuel (a_tle_file args) lat lon alt
    start end_ (a_min_el args) (a_step_s args) = Some (Ok rows) ->
  (rows = [] ->
   main Sat EarthSatellite altaz fromisoformat utc_now fetch fuel
     (Parsed args) = Some NoResults)
  /\ (rows <> [] -> F64.lt minus_one (a_min_el args) = true ->
      main Sat EarthSatellite altaz fromisoformat utc_now fetch fuel
        (Parsed args) = Some (Report rows))
  /\ (forall pre r post,
        rows = pre ++ r :: post ->
        Forall (fun x => exists line, report_line x = Some line) pre ->
        Forall (fun x => F64.gt (s_el x) minus_one = false) (snd r) ->
        main Sat EarthSatellite altaz fromisoformat utc_now fetch fuel
          (Parsed args) = Some (ReportAborted pre TypeError))
  /\ (forall msg,
        main Sat EarthSatellite altaz fromisoformat utc_now fetch fuel
          (Rejected msg) = Some (UsageError msg))
  /\ main Sat EarthSatellite altaz fromisoformat utc_now fetch fuel
       HelpRequested = Some HelpShown.
Proof.
  intros Hw Hloc Hrun.
  assert (Hmain : main Sat EarthSatellite altaz fromisoformat utc_now fetch
                    fuel (Parsed args)
                  = Some (if truthy rows then report Sat rows else NoResults)).
  { cbn [main]. rewrite Hw, Hloc, Hrun. reflexivity. }
  split; [|split; [|split; [|split]]].
  - intros ->. exact Hmain.
  - intros Hne Hmin. rewrite Hmain.
    destruct rows as [|r rows']; [congruence|]. cbn [truthy]. unfold report.
    rewrite PrintFacts.print_rows_all; [reflexivity|].
    eapply PrintFacts.run_rows_have_lines; eassumption.
  - intros pre r post E Hpre Hr. rewrite Hmain, E.
    replace (truthy (pre ++ r :: post)) with true
      by (destruct pre; reflexivity).
    unfold report. rewrite PrintFacts.print_rows_stop; [reflexivity| |].
    + eapply Forall_impl; [|exact Hpre]. intros x [line ->]. discriminate.
    + unfold report_line.
      destruct (proj2 (PeakFacts.find_peak_none (snd r)) Hr) as [m [a ->]].
      reflexivity.
  - intros msg. reflexivity.
  - reflexivity.
Qed.

Lemma report_outcome_witness :
  exists r rest,
    main _ Demo.lenient low_sky DemoRuns.iso 0 (Raise (LibraryError 2)) 30
      (Parsed
         {| a_tle_file := Demo.catalog; a_now := false; a_duration_min := 15;
            a_start := Some (str_of "0Z"); a_end := Some (str_of "60Z");
            a_lat := Some zero; a_lon := Some zero; a_alt := zero;
            a_from_dish := false; a_min_el := of_Z (-5); a_step_s := 30 |})
    = Some (ReportAborted [] TypeError)
    /\ visible_list _ Demo.lenient low_sky 30 Demo.catalog
         zero zero zero 0 (Demo.sec 60) (of_Z (-5)) 30 = Some (Ok (r :: rest)).
Proof.
  assert (H : exists r rest,
            visible_list _ Demo.lenient low_sky 30 Demo.catalog
              zero zero zero 0 (Demo.sec 60) (of_Z (-5)) 30
            = Some (Ok (r :: rest))
            /\ Forall (fun x => F64.gt (s_el x) minus_one = false) (snd r)).
  { eexists. eexists. split; [vm_compute; reflexivity|]. repeat constructor. }
  destruct H as [r [rest [H Hr]]]. exists r, rest. split; [|exact H].
  destruct (report_outcome _ Demo.lenient low_sky DemoRuns.iso 0
              (Raise (LibraryError 2)) 30
              {| a_tle_file := Demo.catalog; a_now := false;
                 a_duration_min := 15;
                 a_start := Some (str_of "0Z"); a_end := Some (str_of "60Z");
                 a_lat := Some zero; a_lon := Some zero; a_alt := zero;
                 a_from_dish := false; a_min_el := of_Z (-5);
                 a_step_s := 30 |}
              0 (Demo.sec 60) zero zero zero (r :: rest)
              eq_refl eq_refl H) as [_ [_ [Hstop _]]].
  apply (Hstop [] r rest eq_refl); [constructor | exact Hr].
Defined.

(** ** Time strings *)

(** X15.  [parse_iso_z] reads a final [Z] as the offset [+00:00]: a
    string ending in [Z] and the same string ending in [+00:00] instead
    are parsed alike; only the last character is looked at, and a string
    that does not end in [Z], the empty one included, goes to
    [fromisoformat] as it is. *)
Theorem parse_iso_z_suffix (fromisoformat : str -> result Z) (s : str) :
  parse_iso_z fromisoformat (s ++ str_of "Z")
  = fromisoformat (s ++ str_of "+00:00")
  /\ parse_iso_z fromisoformat (s ++ str_of "+00:00")
     = fromisoformat (s ++ str_of "+00:00")
  /\ (forall c, c <> 90%N ->
        parse_iso_z fromisoformat (s ++ [c]) = fromisoformat (s ++ [c]))
  /\ parse_iso_z fromisoformat [] = fromisoformat [].
Proof.
  assert (Hend : forall t c, endswith_Z (t ++ [c]) = N.eqb c 90).
  { intros t c. unfold endswith_Z. rewrite rev_app_distr. reflexivity. }
  split; [|split; [|split]].
  - unfold parse_iso_z. change (str_of "Z") with [90%N].
    rewrite Hend, removelast_last. reflexivity.
  - unfold parse_iso_z.
    change (str_of "+00:00") with ([43; 48; 48; 58; 48] ++ [48])%N.
    rewrite app_assoc, Hend. reflexivity.
  - intros c Hc. unfold parse_iso_z. rewrite Hend.
    destruct (N.eqb_spec c 90); [contradiction | reflexivity].
  - reflexivity.
Qed.

(** ** The location of the dish *)

Module DishFacts.
Import Dish.

(** Induction on decoded values, through lists and dicts. *)
Lemma json_induction (P : json -> Prop) :
  P JNull -> (forall b, P (JBool b)) -> (forall n, P (JInt n)) ->
  (forall x, P (JFloat x)) -> (forall s, P (JStr s)) ->
  (forall vs, Forall P vs -> P (JList vs)) ->
  (forall items, Forall (fun kv => P (snd kv)) items -> P (JDict items)) ->
  forall o, P o.
Proof.
  intros Hn Hb Hi Hf Hs Hl Hd. fix IH 1.
  intros [|b|n|x|s|vs|items];
    [exact Hn | apply Hb | apply Hi | apply Hf | apply Hs | | ].
  - apply Hl. induction vs as [|v vs IHvs]; constructor; [apply IH | exact IHvs].
  - apply Hd. induction items as [|[k v] items IHitems]; constructor;
      [apply IH | exact IHitems].
Qed.

Lemma search_dict (items : list (str * json)) :
  search (JDict items)
  = if located items then Some (JDict items)
    else first_found (List.map (fun kv => search (snd kv)) items).
Proof.
  cbn [search]. destruct (located items); [reflexivity|].
  induction items as [|[k v] items IH]; [reflexivity|].
  cbn [List.map first_found snd]. rewrite IH. reflexivity.
Qed.

Lemma search_list (vs : list json) :
  search (JList vs) = first_found (List.map search vs).
Proof.
  cbn [search]. induction vs as [|v vs IH]; [reflexivity|].
  cbn [List.map first_found]. rewrite IH. reflexivity.
Qed.

Lemma first_found_Some (l : list (option json)) (r : json) :
  first_found l = Some r -> In (Some r) l /\ truth r = true.
Proof.
  induction l as [|[x|] l IH]; cbn; [discriminate| |].
  - destruct (truth x) eqn:T.
    + intros H. injection H as <-. auto.
    + intros H. destruct (IH H). auto.
  - intros H. destruct (IH H). auto.
Qed.

Lemma first_found_None (l : list (option json)) :
  first_found l = None ->
  forall r, In (Some r) l -> truth r = false.
Proof.
  induction l as [|[x|] l IH]; cbn; intros H r Hin; [destruct Hin| |].
  - destruct (truth x) eqn:T; [discriminate|].
    destruct Hin as [E|Hin]; [injection E as <-; exact T | auto].
  - destruct Hin as [E|Hin]; [discriminate | auto].
Qed.

Lemma located_truthy (items : list (str * json)) :
  located items = true -> truthy items = true.
Proof. destruct items; [discriminate | reflexivity]. Qed.

(** What [search] returns is a dict of the reply that passes the test. *)
Lemma search_sound (o r : json) :
  search o = Some r ->
  exists got, r = JDict got /\ located got = true /\ inside r o.
Proof.
  revert r. induction o as [|b|n|x|s|vs IH|items IH] using json_induction;
    intros r; try discriminate.
  - rewrite search_list. intros H. apply first_found_Some in H as [Hin _].
    apply in_map_iff in Hin as [v [Hv Hin]].
    rewrite Forall_forall in IH.
    destruct (IH v Hin r Hv) as [got [-> [Hl Hi]]].
    exists got. split; [reflexivity|]. split; [exact Hl|].
    eapply inside_element; eassumption.
  - rewrite search_dict. destruct (located items) eqn:L.
    + intros H. injection H as <-. exists items.
      split; [reflexivity|]. split; [exact L | constructor].
    + intros H. apply first_found_Some in H as [Hin _].
      apply in_map_iff in Hin as [[k v] [Hv Hin]]. cbn [snd] in Hv.
      rewrite Forall_forall in IH.
      destruct (IH (k, v) Hin r Hv) as [got [-> [Hl Hi]]].
      exists got. split; [reflexivity|]. split; [exact Hl|].
      eapply inside_value; eassumption.
Qed.

Lemma search_truthy (o r : json) : search o = Some r -> truth r = true.
Proof.
  intros H. destruct (search_sound o r H) as [got [-> [Hl _]]].
  apply located_truthy. exact Hl.
Qed.

(** [search] misses no dict that passes the test. *)
Lemma search_complete (o : json) :
  search o = None ->
  forall got, inside (JDict got) o -> located got = false.
Proof.
  induction o as [|b|n|x|s|vs IH|items IH] using json_induction;
    intros H got Hin; inversion Hin; subst.
  - rewrite search_list in H. rewrite Forall_forall in IH.
    destruct (search v) as [r|] eqn:E; [|eapply IH; eassumption].
    exfalso. pose proof (search_truthy v r E) as Ht.
    rewrite (first_found_None _ H r) in Ht; [discriminate|].
    apply in_map_iff. exists v. auto.
  - rewrite search_dict in H.
    destruct (located _); [discriminate|reflexivity].
  - rewrite search_dict in H. destruct (located items) eqn:L; [discriminate|].
    rewrite Forall_forall in IH.
    destruct (search v) as [r|] eqn:E;
      [|apply (IH (k, v)); assumption].
    exfalso. pose proof (search_truthy v r E) as Ht.
    rewrite (first_found_None _ H r) in Ht; [discriminate|].
    apply in_map_iff. exists (k, v). auto.
Qed.

End DishFacts.

Section DishClaims.
Import Dish DishDemo.

Variable float_of : json -> res float64.

Local Abbreviation fetch := (fetch_location_from_dish float_of).

(** X16.  A reply of the known shape is used as it is: when
    [data["getLocation"]["lla"]] is a dict with the keys [lat], [lon]
    and [alt], the result is the [float] of these three values, whatever
    else the reply holds; when one of them does not convert, the
    function raises the exception of [float] and does not fall back to
    the search. *)
Theorem dish_known_shape (top gl lla : list (str * json)) (a b c : json) :
  get (str_of "getLocation") top = Some (JDict gl) ->
  get (str_of "lla") gl = Some (JDict lla) ->
  get (str_of "lat") lla = Some a ->
  get (str_of "lon") lla = Some b ->
  get (str_of "alt") lla = Some c ->
  fetch (Good (JDict top)) = floats float_of a b c
  /\ (forall x y z,
        float_of a = Good x -> float_of b = Good y -> float_of c = Good z ->
        fetch (Good (JDict top)) = Good (x, y, z))
  /\ (forall e, float_of a = Bad e -> fetch (Good (JDict top)) = Bad e).
Proof.
  intros Hgl Hlla Ha Hb Hc.
  assert (E : fetch (Good (JDict top)) = floats float_of a b c).
  { unfold fetch_location_from_dish. cbn [and_then get_method].
    rewrite Hgl. cbn [and_then get_method]. rewrite Hlla. unfold has, item.
    rewrite Ha, Hb, Hc. reflexivity. }
  split; [exact E|]. split.
  - intros x y z Hx Hy Hz. rewrite E. unfold floats. rewrite Hx, Hy, Hz.
    reflexivity.
  - intros e He. rewrite E. unfold floats. rewrite He. reflexivity.
Qed.

Lemma fetch_miss (data gl lla : json) :
  get_method data (str_of "getLocation") (JDict []) = Good gl ->
  get_method gl (str_of "lla") JNull = Good lla ->
  v39 lla = false ->
  fetch (Good data) = crawl float_of data.
Proof.
  intros Hgl Hlla Hv. unfold fetch_location_from_dish. cbn [and_then].
  rewrite Hgl. cbn [and_then]. rewrite Hlla. cbn [and_then].
  destruct lla; try reflexivity. cbn [v39] in Hv. rewrite Hv. reflexivity.
Qed.

(** X17.  When the reply has not the known shape, its dicts are searched
    for one with the keys [latitude] and [longitude], or [lat] and
    [lon].  If the reply holds no such dict the function raises its
    [RuntimeError]; if it holds one, such a dict of the reply supplies
    the result: latitude from [latitude], else [lat]; longitude from
    [longitude], else [lon]; altitude from [altitudeM], else [alt], else
    0.0.  The reply itself is that dict when it passes the test. *)
Theorem dish_search (data gl lla : json) :
  get_method data (str_of "getLocation") (JDict []) = Good gl ->
  get_method gl (str_of "lla") JNull = Good lla ->
  v39 lla = false ->
  ((forall got, inside (JDict got) data -> located got = false) ->
   fetch (Good data) = Bad RuntimeError)
  /\ ((exists got, inside (JDict got) data /\ located got = true) ->
      exists got,
        inside (JDict got) data /\ located got = true
        /\ (forall top, data = JDict top -> located top = true -> got = top)
        /\ fetch (Good data)
           = floats float_of
               (either (str_of "latitude") (str_of "lat") JNull got)
               (either (str_of "longitude") (str_of "lon") JNull got)
               (either (str_of "altitudeM") (str_of "alt") (JFloat zero) got)).
Proof.
  intros Hgl Hlla Hv. rewrite (fetch_miss data gl lla Hgl Hlla Hv).
  unfold crawl. split.
  - intros Hnone. destruct (search data) as [r|] eqn:E; [|reflexivity].
    destruct (DishFacts.search_sound data r E) as [got [-> [Hl Hin]]].
    rewrite (Hnone got Hin) in Hl. discriminate.
  - intros [got0 [Hin0 Hl0]].
    destruct (search data) as [r|] eqn:E.
    + destruct (DishFacts.search_sound data r E) as [got [-> [Hl Hin]]].
      exists got. split; [exact Hin|]. split; [exact Hl|]. split.
      * intros top -> Ht. rewrite DishFacts.search_dict, Ht in E.
        injection E as E. symmetry. exact E.
      * rewrite (DishFacts.located_truthy got Hl). reflexivity.
    + rewrite (DishFacts.search_complete data E got0 Hin0) in Hl0.
      discriminate.
Qed.

(** X18.  [.get] is called on the reply and on its [getLocation] value
    before any search: a reply that is not a dict, or a dict whose
    [getLocation] is present and is not a dict (null, a list, a string),
    makes the function raise [AttributeError], whatever coordinates the
    reply holds.  A failure of grpcurl or of the decoding is passed
    on. *)
Theorem dish_attribute_error (data : json) :
  (is_dict data = false -> fetch (Good data) = Bad AttributeError)
  /\ (forall top gl,
        data = JDict top ->
        get (str_of "getLocation") top = Some gl -> is_dict gl = false ->
        fetch (Good data) = Bad AttributeError)
  /\ (forall e, fetch (Bad e) = Bad e).
Proof.
  split; [|split].
  - intros H. destruct data; try reflexivity. discriminate.
  - intros top gl -> Hgl Hd. unfold fetch_location_from_dish.
    cbn [and_then get_method]. rewrite Hgl. cbn [and_then].
    destruct gl; try reflexivity. discriminate.
  - reflexivity.
Qed.

End DishClaims.

Lemma dish_known_shape_witness :
  Dish.fetch_location_from_dish DishDemo.small_float
    (Dish.Good DishDemo.null_lat) = Dish.Bad Dish.ConversionError.
Proof.
  destruct (dish_known_shape DishDemo.small_float
              [(str_of "getLocation",
                Dish.JDict [(str_of "lla",
                  Dish.JDict [(str_of "lat", Dish.JNull);
                              (str_of "lon", Dish.JInt (-96));
                              (str_of "alt", Dish.JInt 145)])]);
               (str_of "latitude", Dish.JInt 32);
               (str_of "longitude", Dish.JInt (-96))]
              [(str_of "lla",
                Dish.JDict [(str_of "lat", Dish.JNull);
                            (str_of "lon", Dish.JInt (-96));
                            (str_of "alt", Dish.JInt 145)])]
              [(str_of "lat", Dish.JNull); (str_of "lon", Dish.JInt (-96));
               (str_of "alt", Dish.JInt 145)]
              Dish.JNull (Dish.JInt (-96)) (Dish.JInt 145)
              eq_refl eq_refl eq_refl eq_refl eq_refl) as [_ [_ H]].
  apply H. reflexivity.
Defined.

Lemma dish_search_witness :
  Dish.fetch_location_from_dish DishDemo.small_float
    (Dish.Good DishDemo.no_location) = Dish.Bad Dish.RuntimeError.
Proof.
  destruct (dish_search DishDemo.small_float DishDemo.no_location
              (Dish.JDict []) Dish.JNull eq_refl eq_refl eq_refl) as [H _].
  apply H. intros got Hin.
  inversion Hin as [|k v items Hk Hv|]; subst; [reflexivity|].
  destruct Hk as [E|[E|[]]]; injection E as <- <-.
  - inversion Hv.
  - inversion Hv as [| |v vs He Hv']; subst.
    destruct He as [<-|[]].
    inversion Hv' as [|k v items Hk Hv''|]; subst; [reflexivity|].
    destruct Hk as [E|[]]. injection E as <- <-. inversion Hv''.
Defined.

Lemma dish_attribute_error_witness :
  Dish.fetch_location_from_dish DishDemo.small_float
    (Dish.Good DishDemo.null_location) = Dish.Bad Dish.AttributeError.
Proof.
  destruct (dish_attribute_error DishDemo.small_float DishDemo.null_location)
    as [_ [H _]].
  eapply H; reflexivity.
Defined.

Lemma parse_iso_z_suffix_witness :
  parse_iso_z DemoRuns.iso (str_of "600Z")
  = parse_iso_z DemoRuns.iso (str_of "600+00:00")
  /\ parse_iso_z DemoRuns.iso (str_of "600z") = DemoRuns.iso (str_of "600z").
Proof.
  destruct (parse_iso_z_suffix DemoRuns.iso (str_of "600"))
    as [H1 [H2 [H3 _]]].
  split.
  - change (str_of "600Z") with (str_of "600" ++ str_of "Z").
    change (str_of "600+00:00") with (str_of "600" ++ str_of "+00:00").
    rewrite H1, H2. reflexivity.
  - apply (H3 122%N). discriminate.
Defined.
